(** * SpectraSpark.saxs.qi2d: radial integration of SAXS detector images

    A shallow embedding of [src/SpectraSpark/saxs/qi2d.py]: the radial
    averaging kernel [_radial_average], its masked variant, the [Mask]
    class, the region averaging of [Saxs2d] and the batch driver
    [series_integrate] with its wrapper [file_integrate].

    Conventions of the embedding.
    - A 2D numpy array is a list of rows ([array2]); [shape0] is the height
      and [shape1] the width, as in [img.shape].
    - Detector counts, thresholds and the beam centre of the kernel are
      integers ([Z]); the kernel documents [center_x : int].  For an integer
      centre the squared distance of a pixel is an integer [n], and
      [int(np.sqrt(n))] is [Z.sqrt n].
    - The kernel is also given at a rational centre ([_radial_average_Q]),
      as [series_integrate] hands it a centre of floats; at a centre on the
      pixel grid it is the kernel of integer centres.
    - A Python float is a [float64]: NaN, the two infinities, or an exact
      rational.  Rounding is not modelled.
    - Files, warnings and the progress bar live in a [world] that
      [series_integrate] threads through an exception monad. *)

From Stdlib Require Import ZArith QArith Qround Qminmax Lia Ascii.
From stdpp Require Import base numbers list strings gmap fin_maps.

Close Scope Q_scope.
Open Scope Z_scope.

(** ** Python floats *)

Inductive float64 : Type :=
  | NaN
  | NInf
  | PInf
  | Fin (q : Q).

Definition isnan (a : float64) : bool :=
  match a with NaN => true | _ => false end.

Definition isfinite (a : float64) : bool :=
  match a with Fin _ => true | _ => false end.

(** [a > 0]; every comparison with NaN is false. *)
Definition fpositive (a : float64) : bool :=
  match a with
  | PInf => true
  | Fin q => bool_decide (0 < Qnum q)
  | _ => false
  end.

Definition fneg (a : float64) : float64 :=
  match a with
  | NaN => NaN
  | NInf => PInf
  | PInf => NInf
  | Fin q => Fin (- q)%Q
  end.

(** The product of an infinity of sign [pos] with the finite [q]. *)
Definition inf_times (pos : bool) (q : Q) : float64 :=
  if bool_decide (Qnum q = 0) then NaN
  else if bool_decide (0 < Qnum q) then (if pos then PInf else NInf)
  else (if pos then NInf else PInf).

Definition fmul (a b : float64) : float64 :=
  match a, b with
  | NaN, _ | _, NaN => NaN
  | Fin x, Fin y => Fin (x * y)%Q
  | Fin x, PInf | PInf, Fin x => inf_times true x
  | Fin x, NInf | NInf, Fin x => inf_times false x
  | PInf, PInf | NInf, NInf => PInf
  | PInf, NInf | NInf, PInf => NInf
  end.

Definition fadd (a b : float64) : float64 :=
  match a, b with
  | NaN, _ | _, NaN => NaN
  | Fin x, Fin y => Fin (x + y)%Q
  | PInf, NInf | NInf, PInf => NaN
  | PInf, _ | _, PInf => PInf
  | NInf, _ | _, NInf => NInf
  end.

(** [s / c] for a float [s] and an integer count [c >= 0], as numpy divides
    a float64 array by an int64 array: [0/0] is NaN, [x/0] an infinity. *)
Definition fdiv_count (s : float64) (c : Z) : float64 :=
  match s with
  | Fin q =>
      if bool_decide (c = 0)
      then (if bool_decide (Qnum q = 0) then NaN
            else if bool_decide (0 < Qnum q) then PInf else NInf)
      else Fin (q / inject_Z c)%Q
  | other => other
  end.

(** ** 2D arrays *)

Abbreviation array2 A := (list (list A)) (only parsing).

Definition shape0 {A} (a : array2 A) : nat := length a.

Definition shape1 {A} (a : array2 A) : nat :=
  match a with
  | [] => 0%nat
  | row :: _ => length row
  end.

Definition shape {A} (a : array2 A) : nat * nat := (shape0 a, shape1 a).

(** [a.size] *)
Definition size2 {A} (a : array2 A) : nat := (shape0 a * shape1 a)%nat.

Definition rectangular {A} (a : array2 A) : Prop :=
  Forall (λ row, length row = shape1 a) a.

(** An operation applied to every entry. *)
Definition amap {A B} (f : A → B) (a : array2 A) : array2 B :=
  (λ row : list A, f <$> row) <$> a.

(** [a[y, x]] for an index inside the array *)
Definition at2 (a : array2 Z) (y x : nat) : Z :=
  default 0 (a !! y ≫= λ row, row !! x).

(** [a * b], element by element, for arrays of one shape *)
Definition mul2 (a b : array2 Z) : array2 Z :=
  zip_with (zip_with Z.mul) a b.

(** [np.flipud] and [np.fliplr] *)
Definition flipud {A} (a : array2 A) : array2 A := reverse a.
Definition fliplr {A} (a : array2 A) : array2 A := reverse <$> a.

(** [a.min()] and [a.max()] over all entries (numpy raises on an empty
    array; the kernel is only run on decoded frames, which are not empty). *)
Definition list_min (l : list Z) : Z :=
  match l with
  | [] => 0
  | v :: l' => foldl Z.min v l'
  end.

Definition list_max (l : list Z) : Z :=
  match l with
  | [] => 0
  | v :: l' => foldl Z.max v l'
  end.

Definition amin (a : array2 Z) : Z := list_min (mjoin a).
Definition amax (a : array2 Z) : Z := list_max (mjoin a).

(** ** The radial averaging kernel, [_radial_average] *)

(** [(x - center_x)**2 + (y - center_y)**2]: the square of the entry
    [r_mesh[y, x]]. *)
Definition dist_sq (center_x center_y : Z) (x y : nat) : Z :=
  (Z.of_nat x - center_x) ^ 2 + (Z.of_nat y - center_y) ^ 2.

(** [r_mesh], kept as squared distances. *)
Definition r_mesh (width height : nat) (center_x center_y : Z) : array2 Z :=
  (λ y, (λ x, dist_sq center_x center_y x y) <$> seq 0 width) <$> seq 0 height.

(** [int(r_mesh.min())] and [int(r_mesh.max()) + 1] *)
Definition min_r (width height : nat) (center_x center_y : Z) : Z :=
  Z.sqrt (amin (r_mesh width height center_x center_y)).

Definition max_r (width height : nat) (center_x center_y : Z) : Z :=
  Z.sqrt (amax (r_mesh width height center_x center_y)) + 1.

Definition r_range (width height : nat) (center_x center_y : Z) : nat :=
  Z.to_nat (max_r width height center_x center_y
            - min_r width height center_x center_y + 1).

(** [int(r_mesh[y, x]) - min_r] *)
Definition bin_index (width height : nat) (center_x center_y : Z) (x y : nat) : nat :=
  Z.to_nat (Z.sqrt (dist_sq center_x center_y x y)
            - min_r width height center_x center_y).

(** The body of the pixel loop on the pair [(cnt, i)]. *)
Definition bin_pixel (img : array2 Z) (center_x center_y threshold : Z)
    (x y : nat) (acc : list Z * list Z) : list Z * list Z :=
  if bool_decide (threshold ≤ at2 img y x)
  then
    let idx := bin_index (shape1 img) (shape0 img) center_x center_y x y in
    (alter Z.succ idx acc.1, alter (λ s, s + at2 img y x) idx acc.2)
  else acc.

(** The two nested loops, [for x in range(width): for y in range(height)],
    started from zeroed [cnt] and [i]. *)
Definition accumulate (img : array2 Z) (center_x center_y threshold : Z)
    : list Z * list Z :=
  let n := r_range (shape1 img) (shape0 img) center_x center_y in
  foldl (λ acc x,
           foldl (λ acc y, bin_pixel img center_x center_y threshold x y acc)
                 acc (seq 0 (shape0 img)))
        (replicate n 0, replicate n 0)
        (seq 0 (shape1 img)).

(** The last loop: the mean of a bin, and [0] for a bin without pixels. *)
Definition bin_mean (c s : Z) : float64 :=
  if bool_decide (0 < c) then Fin (inject_Z s / inject_Z c)%Q else Fin 0%Q.

(** [min_r + 0.5 + np.arange(len(cnt))] *)
Definition bin_centers (lo : Z) (n : nat) : list Q :=
  (λ k : nat, inject_Z lo + (1 # 2) + inject_Z (Z.of_nat k))%Q <$> seq 0 n.

Definition _radial_average (img : array2 Z) (center_x center_y threshold : Z)
    : list Q * list float64 :=
  let '(cnt, i) := accumulate img center_x center_y threshold in
  (bin_centers (min_r (shape1 img) (shape0 img) center_x center_y) (length cnt),
   zip_with bin_mean cnt i).

Definition _mask_and_average (img mask : array2 Z)
    (center_x center_y threshold : Z) : list Q * list float64 :=
  _radial_average (mul2 img mask) center_x center_y threshold.

(** The default [threshold=2]. *)
Definition default_threshold : Z := 2.

(** ** The kernel at a centre off the pixel grid *)

(** [series_integrate] hands [center[0]] and [center[1]] to the kernel as
    they are given, floats as a rule.  For a rational centre the square of
    [r_mesh[y, x]] is a rational [q >= 0], and [int(np.sqrt(q))] is the
    integer [k] with [k * k <= q < (k + 1) * (k + 1)]: the integer square
    root of the integer part of [q]. *)
Definition int_sqrt (q : Q) : Z := Z.sqrt (Qfloor q).

Definition dist_sq_Q (center_x center_y : Q) (x y : nat) : Q :=
  ((inject_Z (Z.of_nat x) - center_x) * (inject_Z (Z.of_nat x) - center_x)
   + (inject_Z (Z.of_nat y) - center_y) * (inject_Z (Z.of_nat y) - center_y))%Q.

Definition r_mesh_Q (width height : nat) (center_x center_y : Q) : array2 Q :=
  (λ y, (λ x, dist_sq_Q center_x center_y x y) <$> seq 0 width) <$> seq 0 height.

Definition list_min_Q (l : list Q) : Q :=
  match l with
  | [] => 0%Q
  | v :: l' => foldl Qmin v l'
  end.

Definition list_max_Q (l : list Q) : Q :=
  match l with
  | [] => 0%Q
  | v :: l' => foldl Qmax v l'
  end.

Definition min_r_Q (width height : nat) (center_x center_y : Q) : Z :=
  int_sqrt (list_min_Q (mjoin (r_mesh_Q width height center_x center_y))).

Definition max_r_Q (width height : nat) (center_x center_y : Q) : Z :=
  int_sqrt (list_max_Q (mjoin (r_mesh_Q width height center_x center_y))) + 1.

Definition r_range_Q (width height : nat) (center_x center_y : Q) : nat :=
  Z.to_nat (max_r_Q width height center_x center_y
            - min_r_Q width height center_x center_y + 1).

Definition bin_index_Q (width height : nat) (center_x center_y : Q) (x y : nat)
    : nat :=
  Z.to_nat (int_sqrt (dist_sq_Q center_x center_y x y)
            - min_r_Q width height center_x center_y).

Definition bin_pixel_Q (img : array2 Z) (center_x center_y : Q) (threshold : Z)
    (x y : nat) (acc : list Z * list Z) : list Z * list Z :=
  if bool_decide (threshold ≤ at2 img y x)
  then
    let idx := bin_index_Q (shape1 img) (shape0 img) center_x center_y x y in
    (alter Z.succ idx acc.1, alter (λ s, s + at2 img y x) idx acc.2)
  else acc.

Definition accumulate_Q (img : array2 Z) (center_x center_y : Q) (threshold : Z)
    : list Z * list Z :=
  let n := r_range_Q (shape1 img) (shape0 img) center_x center_y in
  foldl (λ acc x,
           foldl (λ acc y, bin_pixel_Q img center_x center_y threshold x y acc)
                 acc (seq 0 (shape0 img)))
        (replicate n 0, replicate n 0)
        (seq 0 (shape1 img)).

(** [_radial_average] for a centre given as floats *)
Definition _radial_average_Q (img : array2 Z) (center_x center_y : Q)
    (threshold : Z) : list Q * list float64 :=
  let '(cnt, i) := accumulate_Q img center_x center_y threshold in
  (bin_centers (min_r_Q (shape1 img) (shape0 img) center_x center_y) (length cnt),
   zip_with bin_mean cnt i).


(** ** Python slices and the [Mask] class *)

(** [slice.indices]: a negative bound counts from the end, and either bound
    is clamped to [0 .. len]. *)
Definition adjust_index (i : Z) (len : nat) : nat :=
  if bool_decide (i < 0)
  then Z.to_nat (Z.max 0 (i + Z.of_nat len))
  else Z.to_nat (Z.min i (Z.of_nat len)).

(** [l[start:stop] = ...], applying [f] to the entries of the slice *)
Definition slice_update {A} (start stop : Z) (f : A → A) (l : list A) : list A :=
  let lo := adjust_index start (length l) in
  let hi := adjust_index stop (length l) in
  imap (λ k a, if bool_decide (lo ≤ k < hi)%nat then f a else a) l.

(** [a[y0:y1, x0:x1] = v] *)
Definition assign_block {A} (y0 y1 x0 x1 : Z) (v : A) (a : array2 A) : array2 A :=
  slice_update y0 y1 (slice_update x0 x1 (λ _, v)) a.

(** [astype(np.uint8)] *)
Definition astype_uint8 (a : array2 Z) : array2 Z := amap (λ v, v mod 256) a.

(** [a[a > 0] = 1] *)
Definition clip_positive (a : array2 Z) : array2 Z :=
  amap (λ v, if bool_decide (0 < v) then 1 else v) a.

Inductive exn : Type :=
  | FileNotFoundError (msg : string)
  | FileExistsError (msg : string)
  | ValueError (msg : string)
  | AttributeError (msg : string).

(** The private array [self.__mask], of dtype uint8. *)
Record Mask : Type := MkMask { mask_array : array2 Z }.

Definition Mask_init (shape : Z * Z) (value : option (array2 Z)) : exn + Mask :=
  match value with
  | Some v => inr (MkMask (astype_uint8 v))
  | None =>
      if bool_decide (shape.1 ≤ 0 ∨ shape.2 ≤ 0)
      then inl (ValueError "Invalid shape")
      else inr (MkMask (replicate (Z.to_nat shape.1) (replicate (Z.to_nat shape.2) 1)))
  end.

(** The property [value]: [(self.__mask > 0).astype(dtype)] *)
Definition Mask_value (m : Mask) : array2 Z :=
  amap (λ v, if bool_decide (0 < v) then 1 else 0) (mask_array m).

Definition Mask_shape (m : Mask) : nat * nat := shape (mask_array m).

Definition add_rectangle (m : Mask) (x y width height : Z) : Mask :=
  MkMask (assign_block y (y + height) x (x + width) 0 (mask_array m)).

Definition remove_rectangle (m : Mask) (x y width height : Z) : Mask :=
  MkMask (assign_block y (y + height) x (x + width) 1 (mask_array m)).

(** ** Strings and paths *)

Definition endswith (s suffix : string) : bool :=
  String.prefix (String.rev suffix) (String.rev s).

(** [c in s] for a one-character string [c] *)
Fixpoint contains_char (c : ascii) (s : string) : bool :=
  match s with
  | EmptyString => false
  | String a s' => if decide (a = c) then true else contains_char c s'
  end.

Definition upper_char (c : ascii) : ascii :=
  let n := Ascii.nat_of_ascii c in
  if bool_decide (97 ≤ n ≤ 122)%nat then Ascii.ascii_of_nat (n - 32) else c.

(** [str.upper], on ASCII *)
Fixpoint upper (s : string) : string :=
  match s with
  | EmptyString => EmptyString
  | String a s' => String (upper_char a) (upper s')
  end.

(** [s.replace(old, new)] for a non-empty [old]: every occurrence, scanning
    from the left; [skip] characters of a matched occurrence are dropped. *)
Fixpoint replace_from (old new : string) (skip : nat) (s : string) : string :=
  match s with
  | EmptyString => EmptyString
  | String a s' =>
      match skip with
      | S k => replace_from old new k s'
      | O =>
          if String.prefix old s
          then new +:+ replace_from old new (String.length old - 1) s'
          else String a (replace_from old new O s')
      end
  end.

Definition replace (old new s : string) : string := replace_from old new 0 s.

(** [re.sub(r"\.tif$", ".csv", src)] *)
Definition sub_tif_csv (src : string) : string :=
  if endswith src ".tif"
  then String.substring 0 (String.length src - 4) src +:+ ".csv"
  else src.

Fixpoint until_slash (s : string) : string :=
  match s with
  | EmptyString => EmptyString
  | String a s' => if decide (a = "/"%char) then EmptyString else String a (until_slash s')
  end.

(** [os.path.basename] *)
Definition basename (p : string) : string :=
  String.rev (until_slash (String.rev p)).

(** [os.path.join(a, b)] *)
Definition path_join (a b : string) : string :=
  if String.prefix "/" b then b
  else if bool_decide (a = "") || endswith a "/" then a +:+ b
  else a +:+ "/" +:+ b.

(** ** Files, warnings and the progress bar *)

(** What [cv2.imread(..., cv2.IMREAD_UNCHANGED)] decodes: a single-channel
    image is a 2D array, any other image has a third axis. *)
Inductive raster : Type :=
  | Gray (a : array2 Z)
  | Color (a : array2 (list Z)).

Inductive json : Type :=
  | JInt (z : Z)
  | JNum (v : float64)
  | JStr (s : string).

Inductive file : Type :=
  | ImageFile (data : raster)
  | TableFile (header : list string) (columns : list (list float64))
  | JsonFile (params : gmap string json)
  | Directory (names : list string).

Inductive bar_event : Type :=
  | BarOpen (total : nat)
  | BarUpdate (n : nat)
  | BarClose.

Record world : Type := MkWorld {
  files : gmap string file;
  warned : list string;
  bar : list bar_event;
}.

Inductive outcome (A : Type) : Type :=
  | Returns (a : A)
  | Raises (e : exn).
Arguments Returns {A} a.
Arguments Raises {A} e.

(** A computation reads and updates the world and returns or raises. *)
Definition M (A : Type) : Type := world → outcome A * world.

Definition ret {A} (a : A) : M A := λ w, (Returns a, w).
Definition raise {A} (e : exn) : M A := λ w, (Raises e, w).
Definition bind {A B} (m : M A) (k : A → M B) : M B :=
  λ w, match m w with
       | (Returns a, w') => k a w'
       | (Raises e, w') => (Raises e, w')
       end.

Notation "'do' x <- m ; k" := (bind m (λ x, k))
  (at level 10, x pattern, m at level 100, k at level 200).
Notation "'run' m ; k" := (bind m (λ _, k))
  (at level 10, m at level 100, k at level 200).

Definition when (b : bool) (m : M unit) : M unit := if b then m else ret tt.

Definition get_files : M (gmap string file) := λ w, (Returns (files w), w).

Definition write_file (path : string) (f : file) : M unit :=
  λ w, (Returns tt, MkWorld (<[path := f]> (files w)) (warned w) (bar w)).

(** [warnings.warn] *)
Definition warn (msg : string) : M unit :=
  λ w, (Returns tt, MkWorld (files w) (warned w ++ [msg]) (bar w)).

(** The calls on the [tqdm] bar. *)
Definition bar_emit (e : bar_event) : M unit :=
  λ w, (Returns tt, MkWorld (files w) (warned w) (bar w ++ [e])).

(** [os.path.exists] and [os.path.isdir] *)
Definition path_exists (fs : gmap string file) (p : string) : bool :=
  bool_decide (is_Some (fs !! p)).

Definition isdir (fs : gmap string file) (p : string) : bool :=
  match fs !! p with
  | Some (Directory _) => true
  | _ => false
  end.

(** [cv2.imread]: [None] when the path holds no decodable image. *)
Definition imread (fs : gmap string file) (p : string) : option raster :=
  match fs !! p with
  | Some (ImageFile data) => Some data
  | _ => None
  end.

(** Modelled from the spec: [SpectraSpark.util.listFiles] is not among the
    sources; the spec describes it as a directory listing utility that
    returns the ordered file names matching an extension. *)
Definition listFiles (fs : gmap string file) (dir ext : string) : list string :=
  match fs !! dir with
  | Some (Directory names) => filter (λ f, endswith f ext = true) names
  | _ => []
  end.

(** Modelled from the spec: [SpectraSpark.util.io.savetxt] is not among the
    sources; the spec describes the output table as one header row and one
    column per entry, the first column holding the q or r values. *)
Definition savetxt (dst : string) (columns : list (list float64))
    (header : list string) : M unit :=
  write_file dst (TableFile header columns).

(** Modelled from the spec: [SpectraSpark.util.write_json] is not among the
    sources; the spec describes the record as a key/value document. *)
Definition write_json (path : string) (params : gmap string json) : M unit :=
  write_file path (JsonFile params).

(** The shape of a decoded image, as a tuple. *)
Definition raster_shape (r : raster) : list nat :=
  match r with
  | Gray a => [shape0 a; shape1 a]
  | Color a => [shape0 a; shape1 a; length (default [] (head (mjoin a)))]
  end.

Definition none_has_no_shape : exn :=
  AttributeError "'NoneType' object has no attribute 'shape'".

Definition _readmask (src : string) : M (array2 Z) :=
  do fs <- get_files;
  if negb (path_exists fs src)
  then raise (FileNotFoundError (src +:+ " is not found."))
  else
    match imread fs src with
    | None => raise none_has_no_shape
    | Some (Color _) => raise (ValueError "mask file must be 2D single-channel image")
    | Some (Gray mask) => ret (astype_uint8 (clip_positive mask))
    end.

(** [Mask.save]: [cv2.imwrite(file, self.__mask)].  The image format is
    chosen by OpenCV from the file name; [stored v] is the level a reader
    decodes for a pixel written with level [v] (the identity for PNG or
    TIFF, [0] and [255] for the one-bit PBM of the default name). *)
Definition Mask_save (stored : Z → Z) (m : Mask) (file : string) : M unit :=
  write_file file (ImageFile (Gray (amap stored (mask_array m)))).

(** [Mask.read]: [cls(value=_readmask(src))] *)
Definition Mask_read (src : string) : M Mask :=
  do value <- _readmask src;
  match Mask_init (0, 0) (Some value) with
  | inr m => ret m
  | inl e => raise e
  end.

(** ** The region averaging of [Saxs2d] *)

(** The array [i] holds finite floats and NaN ([None]) for missing pixels;
    [px2q] is positive; the centre is taken on the pixel grid. *)
Record Saxs2d : Type := MkSaxs2d {
  saxs_i : array2 (option Q);
  px2q : Q;
  saxs_center : Z * Z;
}.

(** The ceiling of the square root of [n]: the smallest integer [c >= 0]
    with [n <= c * c]. *)
Definition ceil_sqrt (n : Z) : Z :=
  if bool_decide (Z.sqrt n * Z.sqrt n = n) then Z.sqrt n else Z.sqrt n + 1.

(** [sqrt n < a] for an integer [n >= 0] and a rational [a] *)
Definition sqrt_lt (n : Z) (a : Q) : bool :=
  bool_decide (0 < Qnum a) && negb (Qle_bool (a * a) (inject_Z n)).

(** The pixels of the image in row-major order, each with its squared
    distance to the centre ([r], with [r[np.isnan(i)] = nan] as [None]). *)
Definition saxs_pixels (s : Saxs2d) : list (option Z * option Q) :=
  mjoin (imap (λ y row,
            imap (λ x v, (match v with
                          | Some _ => Some (dist_sq (saxs_center s).1 (saxs_center s).2 x y)
                          | None => None
                          end, v)) row)
          (saxs_i s)).

(** [r.max()], squared; taken before the NaN pixels are blanked. *)
Definition saxs_r_max_sq (s : Saxs2d) : Z :=
  amax (r_mesh (shape1 (saxs_i s)) (shape0 (saxs_i s))
               (saxs_center s).1 (saxs_center s).2).

(** [r_min] and [r_max], for [px2q > 0]; [q_max = None] is the default
    [np.inf].  With [px2q = 0] the division of line 309 raises, and with
    [px2q < 0] and the default [q_max] the conversion of line 310: these
    calls return nothing, and the two definitions say nothing of them. *)
Definition saxs_r_min (s : Saxs2d) (q_min : Q) : Z := Qfloor (q_min / px2q s).

Definition saxs_r_max (s : Saxs2d) (q_max : option Q) : Z :=
  match q_max with
  | None => ceil_sqrt (saxs_r_max_sq s)
  | Some qm =>
      if sqrt_lt (saxs_r_max_sq s) (qm / px2q s)
      then ceil_sqrt (saxs_r_max_sq s)
      else Qceiling (qm / px2q s)
  end.

(** [np.arange(r_min, r_max + 1, 1)] *)
Definition arange (lo hi : Z) : list Z :=
  (λ k : nat, lo + Z.of_nat k) <$> seq 0 (Z.to_nat (hi - lo)).

(** [np.histogram]: bin [k] of the edges [r_bin] is the half-open interval
    from edge [k] to edge [k + 1], and the last bin also holds its right
    edge.  A NaN radius is in no bin. *)
Definition in_bin (r_bin : list Z) (k : nat) (r_sq : option Z) : bool :=
  match r_sq, r_bin !! k, r_bin !! S k with
  | Some n, Some lo, Some hi =>
      bool_decide (lo ≤ Z.sqrt n) &&
      (bool_decide (Z.sqrt n < hi) ||
       (bool_decide (S (S k) = length r_bin) && bool_decide (0 ≤ hi ∧ n ≤ hi * hi)))
  | _, _, _ => false
  end.

Definition histogram_bins (r_bin : list Z) : list nat := seq 0 (length r_bin - 1).

(** [np.histogram(r, bins=r_bin)[0]] *)
Definition histogram (r_bin : list Z) (px : list (option Z * option Q)) : list Z :=
  (λ k, Z.of_nat (length (filter (λ p, in_bin r_bin k p.1 = true) px)))
    <$> histogram_bins r_bin.

(** [np.histogram(r, bins=r_bin, weights=i)[0]] *)
Definition weighted_histogram (r_bin : list Z) (px : list (option Z * option Q))
    : list Q :=
  (λ k, foldr Qplus 0%Q
          (omap snd (filter (λ p, in_bin r_bin k p.1 = true) px)))
    <$> histogram_bins r_bin.

Definition saxs_r_bin (s : Saxs2d) (q_min : Q) (q_max : option Q) : list Z :=
  arange (saxs_r_min s q_min) (saxs_r_max s q_max + 1).

Definition saxs_cnt (s : Saxs2d) (q_min : Q) (q_max : option Q) : list Z :=
  histogram (saxs_r_bin s q_min q_max) (saxs_pixels s).

Definition saxs_i_sum (s : Saxs2d) (q_min : Q) (q_max : option Q) : list Q :=
  weighted_histogram (saxs_r_bin s q_min q_max) (saxs_pixels s).

(** [Saxs2d.radial_average]: the pair [(i, q)] *)
Definition Saxs2d_radial_average (s : Saxs2d) (q_min : Q) (q_max : option Q)
    : list float64 * list Q :=
  let r_bin := saxs_r_bin s q_min q_max in
  let q_bin := (λ e, inject_Z e * px2q s)%Q <$> r_bin in
  (zip_with (λ t c, fdiv_count (Fin t) c)
            (saxs_i_sum s q_min q_max) (saxs_cnt s q_min q_max),
   zip_with (λ a b, (a + b) / 2)%Q q_bin (drop 1 q_bin)).

(** ** The batch driver, [series_integrate] *)

(** [src: list[str] | str] *)
Inductive source : Type :=
  | SrcPath (p : string)
  | SrcList (l : list string).

(** The keyword arguments.  [mask = []] is the default [np.array([])]; the
    beam centre is on the pixel grid, as the kernel documents it. *)
Record kwargs : Type := MkKwargs {
  mask_src : string;
  mask : array2 Z;
  center : Z * Z;
  camera_length : float64;
  wave_length : float64;
  px_size : float64;
  detecter : string;
  slope : float64;
  intercept : float64;
  flip : string;
  dst : string;
  overwrite : bool;
  verbose : bool;
}.

(** The defaults of the signature, for a given beam centre. *)
Definition default_kwargs (center : Z * Z) : kwargs :=
  {| mask_src := ""; mask := []; center := center;
     camera_length := NaN; wave_length := NaN; px_size := NaN; detecter := "";
     slope := NaN; intercept := NaN; flip := "vertical";
     dst := ""; overwrite := false; verbose := true |}.

Definition set_verbose (b : bool) (kw : kwargs) : kwargs :=
  {| mask_src := mask_src kw; mask := mask kw; center := center kw;
     camera_length := camera_length kw; wave_length := wave_length kw;
     px_size := px_size kw; detecter := detecter kw;
     slope := slope kw; intercept := intercept kw; flip := flip kw;
     dst := dst kw; overwrite := overwrite kw; verbose := b |}.

(** [f"{src}"] *)
Definition source_repr (src : source) : string :=
  match src with
  | SrcPath p => p
  | SrcList l => "[" +:+ String.concat ", " ((λ f, "'" +:+ f +:+ "'") <$> l) +:+ "]"
  end.

(** What the run has fixed when the frame loop starts. *)
Record setup : Type := MkSetup {
  s_files : list string;
  s_dst : string;
  s_px_size : float64;
  s_calibration : string;
  s_shape : nat * nat;
  s_mask : option (array2 Z);
}.

(** Lines 122-140: the frames and the destination. *)
Definition resolve_source (src : source) (dst : string) : M (list string * string) :=
  do fs <- get_files;
  match src with
  | SrcPath p =>
      if endswith p ".tif" then
        if negb (path_exists fs p)
        then raise (FileNotFoundError (p +:+ " is not found."))
        else ret ([p], if bool_decide (dst = "") then sub_tif_csv p else dst)
      else
        if negb (isdir fs p)
        then raise (FileNotFoundError (p +:+ " is not found."))
        else ret (path_join p <$> listFiles fs p ".tif",
                  if bool_decide (dst = "") then p +:+ ".csv" else dst)
  | SrcList l =>
      if negb (forallb (λ f, endswith f ".tif") l)
      then raise (ValueError "Unsupported file format: only .tif is supported")
      else if bool_decide (String.length dst = 0%nat)
      then raise (ValueError "dst to save results must be set")
      else ret (l, dst)
  end.

(** Lines 163-169: the calibration mode. *)
Definition resolve_calibration (camera_length wave_length slope intercept : float64)
    : M string :=
  if fpositive camera_length && fpositive wave_length then ret "geometry"
  else if negb (isnan slope) && negb (isnan intercept) then ret "linear_regression"
  else run warn "no valid calibration parameter given"; ret "none".

(** Line 171: [height, width = cv2.imread(files[0], ...).shape] *)
Definition first_shape (files : list string) : M (nat * nat) :=
  do fs <- get_files;
  match imread fs (default "" (head files)) with
  | None => raise none_has_no_shape
  | Some (Color _) => raise (ValueError "too many values to unpack (expected 2)")
  | Some (Gray a) => ret (shape a)
  end.

(** Lines 172-182: the mask, an array given in memory before a mask file. *)
Definition resolve_mask (mask : array2 Z) (mask_src : string) (hw : nat * nat)
    : M (option (array2 Z)) :=
  if bool_decide (0 < size2 mask)%nat then
    if bool_decide (shape mask = hw) then ret (Some mask)
    else raise (ValueError "mask size not match.")
  else if bool_decide (mask_src = "") then ret None
  else
    do m <- _readmask mask_src;
    if bool_decide (shape m = hw) then ret (Some m)
    else raise (ValueError ("mask size not match. " +:+ mask_src)).

Definition apply_flip (flip : string) (img : array2 Z) : array2 Z :=
  let img := if contains_char "v" flip then flipud img else img in
  if contains_char "h" flip then fliplr img else img.

(** Lines 189-196: the flips and the kernel, with the default threshold. *)
Definition average_frame (kw : kwargs) (mask : option (array2 Z)) (img : array2 Z)
    : list Q * list float64 :=
  let img := apply_flip (flip kw) img in
  match mask with
  | Some m => _mask_and_average img m (center kw).1 (center kw).2 default_threshold
  | None => _radial_average img (center kw).1 (center kw).2 default_threshold
  end.

(** Lines 186-196: one frame.  The shape of a multi-channel image is a
    triple and never equals [(height, width)]. *)
Definition integrate_frame (kw : kwargs) (hw : nat * nat) (mask : option (array2 Z))
    (file : string) : M (list Q * list float64) :=
  do fs <- get_files;
  match imread fs file with
  | None => raise none_has_no_shape
  | Some (Color _) => raise (ValueError ("Image size is not match. " +:+ file))
  | Some (Gray img) =>
      if bool_decide (shape img = hw) then ret (average_frame kw mask img)
      else raise (ValueError ("Image size is not match. " +:+ file))
  end.

(** Lines 185-200: the loop on [(r, i_all, headers)]. *)
Fixpoint integrate_frames (kw : kwargs) (hw : nat * nat) (mask : option (array2 Z))
    (files : list string) (acc : list Q * list (list float64) * list string)
    : M (list Q * list (list float64) * list string) :=
  match files with
  | [] => ret acc
  | file :: rest =>
      do ri <- integrate_frame kw hw mask file;
      run when (verbose kw) (bar_emit (BarUpdate 1));
      integrate_frames kw hw mask rest
        (ri.1, acc.1.2 ++ [ri.2], acc.2 ++ [basename file])
  end.

(** Lines 225-232: the name of the flip written to the record. *)
Definition flip_name (flip : string) : string :=
  if contains_char "v" flip && contains_char "h" flip then "vertical and horizontal"
  else if contains_char "v" flip then "vertical"
  else if contains_char "h" flip then "horizontal"
  else "none".

Definition paramfile_of (dst : string) : string :=
  replace ".csv" "_params.json" dst.

Section series.

(** [SpectraSpark.util.basic_calculation.r2q] and
    [SpectraSpark.constants.DETECTER_PX_SIZES] are not among the sources. *)
Variable r2q : list Q → float64 → float64 → float64 → list float64.
Variable DETECTER_PX_SIZES : gmap string float64.

(** Lines 155-161: the pixel size. *)
Definition resolve_px_size (detecter : string) (px_size : float64) : M float64 :=
  match DETECTER_PX_SIZES !! upper detecter with
  | Some known => ret known
  | None =>
      if bool_decide (detecter = "") then
        if isnan px_size
        then raise (ValueError "either `px_size` or `detecter` must be set")
        else ret px_size
      else raise (ValueError ("unrecognized detecter `" +:+ detecter +:+ "`"))
  end.

(** Lines 122-182: everything before the frame loop. *)
Definition series_setup (src : source) (kw : kwargs) : M setup :=
  do fd <- resolve_source src (dst kw);
  let files := fd.1 in
  let dst := fd.2 in
  if bool_decide (length files = 0%nat)
  then raise (FileNotFoundError ("No tif files in " +:+ source_repr src +:+ "."))
  else
    run when (verbose kw) (bar_emit (BarOpen (length files)));
    do fs <- get_files;
    if negb (overwrite kw) && path_exists fs dst
    then raise (FileExistsError (dst +:+ " is already exists."))
    else
      do px <- resolve_px_size (detecter kw) (px_size kw);
      do calibration <- resolve_calibration (camera_length kw) (wave_length kw)
                                             (slope kw) (intercept kw);
      do hw <- first_shape files;
      do m <- resolve_mask (mask kw) (mask_src kw) hw;
      ret (MkSetup files dst px calibration hw m).

(** Lines 202-208: the first column and the headers. *)
Definition q_column (kw : kwargs) (st : setup) (r : list Q) : list float64 :=
  if bool_decide (s_calibration st = "geometry")
  then r2q r (camera_length kw) (wave_length kw) (s_px_size st)
  else if bool_decide (s_calibration st = "linear_regression")
  then (λ x, fadd (intercept kw) (fmul (slope kw) (Fin x))) <$> r
  else (λ x, fmul (Fin x) (s_px_size st)) <$> r.

Definition table_headers (st : setup) (headers : list string) : list string :=
  if bool_decide (s_calibration st = "geometry") then headers
  else if bool_decide (s_calibration st = "linear_regression") then headers
  else <[0%nat := "r[mm]"]> headers.

(** Lines 215-233: the parameter record. *)
Definition series_params (kw : kwargs) (st : setup) : gmap string json :=
  <["flip" := JStr (flip_name (flip kw))]>
    (list_to_map
       [("center_x[px]", JInt (center kw).1);
        ("center_y[px]", JInt (center kw).2);
        ("calibration_type", JStr (s_calibration st));
        ("px_size[mm]", JNum (s_px_size st));
        ("camera_length[mm]", JNum (camera_length kw));
        ("wave_length[AA]", JNum (wave_length kw));
        ("slope[nm^-1/px]", JNum (slope kw));
        ("intercept[nm^-1]", JNum (intercept kw))]).

Definition series_integrate (src : source) (kw : kwargs) : M string :=
  do st <- series_setup src kw;
  do out <- integrate_frames kw (s_shape st) (s_mask st) (s_files st)
                             ([], [], ["q[nm^-1]"]);
  run savetxt (s_dst st) (q_column kw st out.1.1 :: out.1.2)
              (table_headers st out.2);
  run write_json (paramfile_of (s_dst st)) (series_params kw st);
  run when (verbose kw) (bar_emit BarClose);
  ret (s_dst st).

(** [file_integrate]: the call is not returned, so the result is [None]. *)
Definition file_integrate (file : string) (kw : kwargs) : M (option string) :=
  run series_integrate (SrcPath file) (set_verbose false kw);
  ret None.

End series.

(** ** The properties stated of the kernel *)

(** The pixels of a [width] x [height] image, in the order of the loops. *)
Definition pixels (width height : nat) : list (nat * nat) :=
  x ← seq 0 width; y ← seq 0 height; [(x, y)].

(** The pixels of radius bin [k] whose intensity reaches the threshold. *)
Definition contributing (img : array2 Z) (center_x center_y threshold : Z)
    (k : nat) : list (nat * nat) :=
  filter (λ p, threshold ≤ at2 img p.2 p.1 ∧
               bin_index (shape1 img) (shape0 img) center_x center_y p.1 p.2 = k)
         (pixels (shape1 img) (shape0 img)).

(** The pixels of radius bin [k] that the mask keeps and whose intensity
    reaches the threshold. *)
Definition contributing_masked (img mask : array2 Z)
    (center_x center_y threshold : Z) (k : nat) : list (nat * nat) :=
  filter (λ p, at2 mask p.2 p.1 ≠ 0 ∧ threshold ≤ at2 img p.2 p.1 ∧
               bin_index (shape1 img) (shape0 img) center_x center_y p.1 p.2 = k)
         (pixels (shape1 img) (shape0 img)).

Definition intensity_sum (img : array2 Z) (ps : list (nat * nat)) : Z :=
  foldr Z.add 0 ((λ p, at2 img p.2 p.1) <$> ps).

(** The rule of the specification for a masked frame, for one threshold:
    the count and the sum of every bin are those of the pixels with a
    non-zero mask value and an intensity that reaches the threshold. *)
Definition mask_rule_as_stated (img mask : array2 Z)
    (center_x center_y threshold : Z) : Prop :=
  ∀ k, (k < r_range (shape1 img) (shape0 img) center_x center_y)%nat →
    (accumulate (mul2 img mask) center_x center_y threshold).1 !! k
      = Some (Z.of_nat (length (contributing_masked img mask center_x center_y threshold k)))
    ∧ (accumulate (mul2 img mask) center_x center_y threshold).2 !! k
      = Some (intensity_sum img (contributing_masked img mask center_x center_y threshold k)).

(** [d] is the least, respectively the greatest, squared distance from the
    centre to a pixel of the image. *)
Definition is_min_dist_sq (width height : nat) (center_x center_y d : Z) : Prop :=
  (∃ x y, (x < width)%nat ∧ (y < height)%nat ∧ dist_sq center_x center_y x y = d)
  ∧ ∀ x y, (x < width)%nat → (y < height)%nat → d ≤ dist_sq center_x center_y x y.

Definition is_max_dist_sq (width height : nat) (center_x center_y d : Z) : Prop :=
  (∃ x y, (x < width)%nat ∧ (y < height)%nat ∧ dist_sq center_x center_y x y = d)
  ∧ ∀ x y, (x < width)%nat → (y < height)%nat → dist_sq center_x center_y x y ≤ d.






(** A mask as [_readmask] and [Mask.value] produce it: every entry 0 or 1. *)
Definition binary (a : array2 Z) : Prop :=
  Forall (Forall (λ v, v = 0 ∨ v = 1)) a.

(** ** The properties stated of [Mask] *)

(** The entry [a[j, i]], if the array has it. *)
Definition lookup2 {A} (a : array2 A) (j i : nat) : option A :=
  a !! j ≫= λ row, row !! i.

(** Column [i] and row [j] lie in the region [x, x+width) x [y, y+height). *)
Definition in_rectangle (x y width height : Z) (i j : nat) : Prop :=
  x ≤ Z.of_nat i < x + width ∧ y ≤ Z.of_nat j < y + height.

(** The rule of the specification for [add_rectangle]: exactly the pixels of
    the mask inside the region become 0. *)
Definition add_rectangle_as_stated (m : Mask) (x y width height : Z) : Prop :=
  ∀ j i v, lookup2 (mask_array m) j i = Some v →
    lookup2 (mask_array (add_rectangle m x y width height)) j i
    = Some (if decide (in_rectangle x y width height i j) then 0 else v).

(** ** The properties stated of the batch driver *)

(** A computation that leaves the files as they are, whatever it returns
    or raises. *)
Definition keeps_files {A} (m : M A) : Prop := ∀ w, files (m w).2 = files w.

(** A computation that leaves the whole world as it is. *)
Definition reads_only {A} (m : M A) : Prop := ∀ w, (m w).2 = w.

(** The world after an optional call on the progress bar. *)
Definition with_bar (b : bool) (e : bar_event) (w : world) : world :=
  if b then MkWorld (files w) (warned w) (bar w ++ [e]) else w.

(** The dtype of [self.__mask]: every entry is a uint8. *)
Definition Mask_wf (m : Mask) : Prop :=
  Forall (Forall (λ v, 0 ≤ v < 256)) (mask_array m).

(** An image format keeps the binary pattern when a written 0 is read as 0
    and a written positive level as a positive level. *)
Definition keeps_pattern (stored : Z → Z) : Prop :=
  ∀ v, 0 ≤ v < 256 → (v = 0 → stored v = 0) ∧ (0 < v → 0 < stored v).

(** The one-bit PBM format of the default file name [mask.pbm]. *)
Definition pbm_stored (v : Z) : Z := if bool_decide (v = 0) then 0 else 255.

(** A sample of the two missing tables, for running the driver: the pixel
    sizes of the two detectors named in the docstring, and a stand-in for
    [r2q]. *)
Definition sample_px_sizes : gmap string float64 :=
  {[ "PILATUS" := Fin (172 # 1000); "EIGER" := Fin (75 # 1000) ]}.

Definition sample_r2q (r : list Q) (camera_length wave_length px_size : float64)
    : list float64 :=
  (λ x, fmul (Fin x) px_size) <$> r.

(** A world with three 5 x 5 frames of uniform intensity 10 in a directory,
    one frame of another shape, and an earlier output. *)
Definition sample_frame : array2 Z := replicate 5 (replicate 5 10).

Definition sample_world : world :=
  MkWorld
    (list_to_map
       [("run", Directory ["f1.tif"; "f2.tif"; "f3.tif"; "notes.txt"]);
        ("run/f1.tif", ImageFile (Gray sample_frame));
        ("run/f2.tif", ImageFile (Gray sample_frame));
        ("run/f3.tif", ImageFile (Gray sample_frame));
        ("odd.tif", ImageFile (Gray (replicate 4 (replicate 5 10))));
        ("old.csv", TableFile ["q[nm^-1]"] [[]])])
    [] [].

Definition sample_kwargs : kwargs :=
  {| mask_src := ""; mask := []; center := (2, 2);
     camera_length := NaN; wave_length := NaN; px_size := Fin (172 # 1000);
     detecter := ""; slope := NaN; intercept := NaN; flip := "vertical";
     dst := ""; overwrite := false; verbose := true |}.

(** The world in which a run that returns ends: the table written to
    [dst], then the record written to the parameter file, then the bar
    closed. *)
Definition final_world (r2q : list Q → float64 → float64 → float64 → list float64)
    (kw : kwargs) (st : setup)
    (out : list Q * list (list float64) * list string) (w : world) : world :=
  with_bar (verbose kw) BarClose
    (MkWorld
       (<[paramfile_of (s_dst st) := JsonFile (series_params kw st)]>
          (<[s_dst st := TableFile (table_headers st out.2)
                                   (q_column r2q kw st out.1.1 :: out.1.2)]>
             (files w)))
       (warned w) (bar w)).

(** The frame at [f] decodes to a single-channel image of shape [hw]. *)
Definition frame_matches (fs : gmap string file) (hw : nat * nat) (f : string) : Prop :=
  ∃ img, imread fs f = Some (Gray img) ∧ shape img = hw.

(** The frame at [f] decodes to an image whose shape is not [hw]. *)
Definition frame_mismatches (fs : gmap string file) (hw : nat * nat) (f : string)
    : Prop :=
  ∃ data, imread fs f = Some data ∧ raster_shape data ≠ [hw.1; hw.2].

(** Keyword arguments given on top of others. *)
Definition set_dst (d : string) (kw : kwargs) : kwargs :=
  {| mask_src := mask_src kw; mask := mask kw; center := center kw;
     camera_length := camera_length kw; wave_length := wave_length kw;
     px_size := px_size kw; detecter := detecter kw;
     slope := slope kw; intercept := intercept kw; flip := flip kw;
     dst := d; overwrite := overwrite kw; verbose := verbose kw |}.

Definition set_px_size (px : float64) (name : string) (kw : kwargs) : kwargs :=
  {| mask_src := mask_src kw; mask := mask kw; center := center kw;
     camera_length := camera_length kw; wave_length := wave_length kw;
     px_size := px; detecter := name;
     slope := slope kw; intercept := intercept kw; flip := flip kw;
     dst := dst kw; overwrite := overwrite kw; verbose := verbose kw |}.

Definition set_calibration (camera wave sl ic : float64) (kw : kwargs) : kwargs :=
  {| mask_src := mask_src kw; mask := mask kw; center := center kw;
     camera_length := camera; wave_length := wave;
     px_size := px_size kw; detecter := detecter kw;
     slope := sl; intercept := ic; flip := flip kw;
     dst := dst kw; overwrite := overwrite kw; verbose := verbose kw |}.

(** The calibration mode of lines 163-168, without the warning. *)
Definition calibration_of (kw : kwargs) : string :=
  if fpositive (camera_length kw) && fpositive (wave_length kw) then "geometry"
  else if negb (isnan (slope kw)) && negb (isnan (intercept kw))
  then "linear_regression"
  else "none".

(** The calibration mode in the words of the specification: the linear
    regression wants a finite slope and a finite intercept. *)
Definition calibration_as_stated (kw : kwargs) : string :=
  if fpositive (camera_length kw) && fpositive (wave_length kw) then "geometry"
  else if isfinite (slope kw) && isfinite (intercept kw) then "linear_regression"
  else "none".

(** The first column of the table for the radii [r] and the pixel size
    [px], by calibration mode. *)
Definition first_column (r2q : list Q → float64 → float64 → float64 → list float64)
    (kw : kwargs) (px : float64) (r : list Q) : list float64 :=
  if bool_decide (calibration_of kw = "geometry")
  then r2q r (camera_length kw) (wave_length kw) px
  else if bool_decide (calibration_of kw = "linear_regression")
  then (λ x, fadd (intercept kw) (fmul (slope kw) (Fin x))) <$> r
  else (λ x, fmul (Fin x) px) <$> r.

Definition no_calibration_warning : list string :=
  ["no valid calibration parameter given"].

(** ** Further operations and properties *)

(** The sum of a list of counts or of sums. *)
Definition total (l : list Z) : Z := foldr Z.add 0 l.

(** The pixels whose intensity reaches the threshold, whatever their bin. *)
Definition above_threshold (img : array2 Z) (threshold : Z) : list (nat * nat) :=
  filter (λ p, threshold ≤ at2 img p.2 p.1) (pixels (shape1 img) (shape0 img)).

(** Every pixel of the image has the intensity [V]. *)
Definition uniform (img : array2 Z) (V : Z) : Prop :=
  ∀ x y, (x < shape1 img)%nat → (y < shape0 img)%nat → at2 img y x = V.

(** No pixel of the image reaches the threshold. *)
Definition all_below (img : array2 Z) (threshold : Z) : Prop :=
  ∀ x y, (x < shape1 img)%nat → (y < shape0 img)%nat → at2 img y x < threshold.

(** A mask that excludes every pixel. *)
Definition all_zero (a : array2 Z) : Prop := Forall (Forall (λ v, v = 0)) a.

(** The centre is a pixel of the image. *)
Definition on_image (img : array2 Z) (center_x center_y : Z) : Prop :=
  0 ≤ center_x < Z.of_nat (shape1 img) ∧ 0 ≤ center_y < Z.of_nat (shape0 img).

(** [Mask.apply]: [arr * (self.value > 0).astype(arr.dtype)], for an array
    of the shape of the mask. *)
Definition Mask_apply (m : Mask) (arr : array2 Z) : array2 Z :=
  mul2 arr (amap (λ v, if bool_decide (0 < v) then 1 else 0) (Mask_value m)).

(** [Mask.add]: [self.__mask[arr > 0] = 0].  A boolean index that has not
    the shape of the indexed array makes numpy raise an IndexError: [None]. *)
Definition Mask_add (m : Mask) (arr : array2 Z) : option Mask :=
  if bool_decide (shape arr = shape (mask_array m))
  then Some (MkMask (zip_with (zip_with (λ v a, if bool_decide (0 < a) then 0 else v))
                              (mask_array m) arr))
  else None.

(** The mask a run averages with, for frames of shape [hw]: the array given
    in memory when it is not empty, else none when no mask file is named,
    else the normalised content of the mask file. *)
Definition mask_used (kw : kwargs) (fs : gmap string file) (hw : nat * nat)
    (m : option (array2 Z)) : Prop :=
  if bool_decide (0 < size2 (mask kw))%nat
  then m = Some (mask kw) ∧ shape (mask kw) = hw
  else if bool_decide (mask_src kw = "") then m = None
  else ∃ a, imread fs (mask_src kw) = Some (Gray a)
            ∧ m = Some (astype_uint8 (clip_positive a))
            ∧ shape (astype_uint8 (clip_positive a)) = hw.

(** The calls on the progress bar of a run over [n] frames that returns. *)
Definition bar_log (verbose : bool) (n : nat) : list bar_event :=
  if verbose then BarOpen n :: replicate n (BarUpdate 1) ++ [BarClose] else [].

(** [old in s], for strings *)
Fixpoint contains (old s : string) : bool :=
  match s with
  | EmptyString => String.prefix old EmptyString
  | String a s' => String.prefix old s || contains old s'
  end.

(** The number of bins of [Saxs2d.radial_average] *)
Definition saxs_bins (s : Saxs2d) (q_min : Q) (q_max : option Q) : nat :=
  Z.to_nat (saxs_r_max s q_max - saxs_r_min s q_min).

(** A 3 x 3 image with NaN off the diagonals, its centre on the middle
    pixel. *)
Definition sample_saxs : Saxs2d :=
  MkSaxs2d [[Some 1%Q; None; Some 3%Q]; [None; Some 2%Q; None];
            [Some 1%Q; None; Some 3%Q]] (1 # 10) (1, 1).

(** What [cv2.imread] decodes is a numpy array: its rows have one length. *)
Definition decodes_arrays (fs : gmap string file) : Prop :=
  ∀ p a, imread fs p = Some (Gray a) → rectangular a.

(** The number of bins of the kernel on a frame of shape [hw]. *)
Definition profile_length (hw : nat * nat) (center : Z * Z) : nat :=
  r_range hw.2 hw.1 center.1 center.2.

(** The keyword arguments with another [mask] and [mask_src]. *)
Definition set_masks (m : array2 Z) (src : string) (kw : kwargs) : kwargs :=
  {| mask_src := src; mask := m; center := center kw;
     camera_length := camera_length kw; wave_length := wave_length kw;
     px_size := px_size kw; detecter := detecter kw;
     slope := slope kw; intercept := intercept kw; flip := flip kw;
     dst := dst kw; overwrite := overwrite kw; verbose := verbose kw |}.

(** [np.ones((height, width))] *)
Definition ones (height width : nat) : array2 Z := replicate height (replicate width 1).

(** The set-up with its mask replaced. *)
Definition with_mask (st : setup) (m : option (array2 Z)) : setup :=
  MkSetup (s_files st) (s_dst st) (s_px_size st) (s_calibration st) (s_shape st) m.

(** A run raises [e] and leaves the files as they were. *)
Definition raises_clean (call : M string) (w : world) (e : exn) : Prop :=
  ∃ w', call w = (Raises e, w') ∧ files w' = files w.

(** * Properties *)

(** Goals [Forall P l] on a list that is written out, down to the entries. *)
Ltac forall_entries :=
  repeat match goal with
         | |- Forall _ (_ :: _) => apply List.Forall_cons
         | |- Forall _ [] => apply List.Forall_nil
         end.

(** ** Minimum and maximum of the distance mesh *)

Lemma foldl_min_spec (l : list Z) (a : Z) :
  (foldl Z.min a l = a ∨ foldl Z.min a l ∈ l)
  ∧ foldl Z.min a l ≤ a ∧ ∀ v, v ∈ l → foldl Z.min a l ≤ v.
Proof.
  revert a. induction l as [|b l IH]; intros a; simpl.
  - split; [by left|]. split; [lia|]. intros v Hv. by apply elem_of_nil in Hv.
  - destruct (IH (Z.min a b)) as (Hin & Hle & Hall). split; [|split].
    + destruct Hin as [-> | Hin].
      * destruct (Z.min_spec a b) as [[_ ->] | [_ ->]]; [by left | right; left].
      * right. by right.
    + lia.
    + intros v [-> | Hv]%elem_of_cons; [lia | by apply Hall].
Qed.

Lemma foldl_max_spec (l : list Z) (a : Z) :
  (foldl Z.max a l = a ∨ foldl Z.max a l ∈ l)
  ∧ a ≤ foldl Z.max a l ∧ ∀ v, v ∈ l → v ≤ foldl Z.max a l.
Proof.
  revert a. induction l as [|b l IH]; intros a; simpl.
  - split; [by left|]. split; [lia|]. intros v Hv. by apply elem_of_nil in Hv.
  - destruct (IH (Z.max a b)) as (Hin & Hle & Hall). split; [|split].
    + destruct Hin as [-> | Hin].
      * destruct (Z.max_spec a b) as [[_ ->] | [_ ->]]; [right; left | by left].
      * right. by right.
    + lia.
    + intros v [-> | Hv]%elem_of_cons; [lia | by apply Hall].
Qed.

Lemma list_min_spec (l : list Z) :
  l ≠ [] → list_min l ∈ l ∧ ∀ v, v ∈ l → list_min l ≤ v.
Proof.
  destruct l as [|a l]; [done|]. intros _. simpl.
  destruct (foldl_min_spec l a) as (Hin & Hle & Hall). split.
  - destruct Hin as [-> | Hin]; [left | by right].
  - intros v [-> | Hv]%elem_of_cons; [done | by apply Hall].
Qed.

Lemma list_max_spec (l : list Z) :
  l ≠ [] → list_max l ∈ l ∧ ∀ v, v ∈ l → v ≤ list_max l.
Proof.
  destruct l as [|a l]; [done|]. intros _. simpl.
  destruct (foldl_max_spec l a) as (Hin & Hle & Hall). split.
  - destruct Hin as [-> | Hin]; [left | by right].
  - intros v [-> | Hv]%elem_of_cons; [done | by apply Hall].
Qed.

Lemma elem_of_r_mesh (width height : nat) (cx cy v : Z) :
  v ∈ mjoin (r_mesh width height cx cy)
  ↔ ∃ x y, (x < width)%nat ∧ (y < height)%nat ∧ dist_sq cx cy x y = v.
Proof.
  unfold r_mesh. rewrite list_elem_of_join. split.
  - intros (row & Hv & Hrow).
    apply list_elem_of_fmap in Hrow as (y & -> & Hy).
    apply list_elem_of_fmap in Hv as (x & -> & Hx).
    apply elem_of_seq in Hx, Hy. exists x, y. repeat split; lia.
  - intros (x & y & Hx & Hy & <-).
    exists ((λ x, dist_sq cx cy x y) <$> seq 0 width). split.
    + apply list_elem_of_fmap. exists x. split; [done|]. apply elem_of_seq. lia.
    + apply list_elem_of_fmap. exists y. split; [done|]. apply elem_of_seq. lia.
Qed.

Lemma r_mesh_nonempty (width height : nat) (cx cy : Z) :
  (0 < width)%nat → (0 < height)%nat → mjoin (r_mesh width height cx cy) ≠ [].
Proof.
  intros Hw Hh Hnil.
  assert (dist_sq cx cy 0 0 ∈ mjoin (r_mesh width height cx cy)) as Hin.
  { apply elem_of_r_mesh. by exists 0%nat, 0%nat. }
  rewrite Hnil in Hin. by apply elem_of_nil in Hin.
Qed.

Lemma amin_r_mesh (width height : nat) (cx cy : Z) :
  (0 < width)%nat → (0 < height)%nat →
  is_min_dist_sq width height cx cy (amin (r_mesh width height cx cy)).
Proof.
  intros Hw Hh. unfold amin.
  destruct (list_min_spec _ (r_mesh_nonempty width height cx cy Hw Hh)) as [Hin Hall].
  split; [by apply elem_of_r_mesh|].
  intros x y Hx Hy. apply Hall, elem_of_r_mesh. by exists x, y.
Qed.

Lemma amax_r_mesh (width height : nat) (cx cy : Z) :
  (0 < width)%nat → (0 < height)%nat →
  is_max_dist_sq width height cx cy (amax (r_mesh width height cx cy)).
Proof.
  intros Hw Hh. unfold amax.
  destruct (list_max_spec _ (r_mesh_nonempty width height cx cy Hw Hh)) as [Hin Hall].
  split; [by apply elem_of_r_mesh|].
  intros x y Hx Hy. apply Hall, elem_of_r_mesh. by exists x, y.
Qed.

Lemma dist_sq_nonneg (cx cy : Z) (x y : nat) : 0 ≤ dist_sq cx cy x y.
Proof. unfold dist_sq. nia. Qed.

(** Every pixel of the image falls in a bin of the arrays [cnt] and [i];
    the last bin is never reached. *)
Lemma bin_index_in_range (width height : nat) (cx cy : Z) (x y : nat) :
  (x < width)%nat → (y < height)%nat →
  min_r width height cx cy ≤ Z.sqrt (dist_sq cx cy x y)
  ∧ (S (bin_index width height cx cy x y) < r_range width height cx cy)%nat.
Proof.
  intros Hx Hy.
  assert (0 < width)%nat as Hw by lia. assert (0 < height)%nat as Hh by lia.
  destruct (amin_r_mesh width height cx cy Hw Hh) as [_ Hmin].
  destruct (amax_r_mesh width height cx cy Hw Hh) as [_ Hmax].
  pose proof (Z.sqrt_le_mono _ _ (Hmin x y Hx Hy)) as H1.
  pose proof (Z.sqrt_le_mono _ _ (Hmax x y Hx Hy)) as H2.
  unfold bin_index, r_range, max_r, min_r. split; lia.
Qed.

(** ** The pixel loop *)

Lemma accumulate_pixels (img : array2 Z) (cx cy threshold : Z) :
  accumulate img cx cy threshold
  = foldl (λ acc p, bin_pixel img cx cy threshold p.1 p.2 acc)
          (replicate (r_range (shape1 img) (shape0 img) cx cy) 0,
           replicate (r_range (shape1 img) (shape0 img) cx cy) 0)
          (pixels (shape1 img) (shape0 img)).
Proof.
  unfold accumulate, pixels.
  generalize (replicate (r_range (shape1 img) (shape0 img) cx cy) 0,
              replicate (r_range (shape1 img) (shape0 img) cx cy) 0).
  generalize (seq 0 (shape0 img)) as ys.
  generalize (seq 0 (shape1 img)) as xs.
  induction xs as [|x xs IH]; intros ys acc; simpl; [done|].
  rewrite foldl_app, <- IH. f_equal.
  clear IH. revert acc. induction ys as [|y ys IHy]; intros acc; simpl; [done|].
  apply IHy.
Qed.

Lemma bin_pixel_length (img : array2 Z) (cx cy threshold : Z) (x y : nat)
    (acc : list Z * list Z) :
  length (bin_pixel img cx cy threshold x y acc).1 = length acc.1
  ∧ length (bin_pixel img cx cy threshold x y acc).2 = length acc.2.
Proof.
  unfold bin_pixel. case_bool_decide; simpl; [|done].
  by rewrite !length_alter.
Qed.

Lemma accumulate_length (img : array2 Z) (cx cy threshold : Z) :
  length (accumulate img cx cy threshold).1 = r_range (shape1 img) (shape0 img) cx cy
  ∧ length (accumulate img cx cy threshold).2 = r_range (shape1 img) (shape0 img) cx cy.
Proof.
  rewrite accumulate_pixels.
  set (n := r_range _ _ _ _).
  assert (∀ ps (acc : list Z * list Z),
    length acc.1 = n → length acc.2 = n →
    length (foldl (λ acc p, bin_pixel img cx cy threshold p.1 p.2 acc) acc ps).1 = n
    ∧ length (foldl (λ acc p, bin_pixel img cx cy threshold p.1 p.2 acc) acc ps).2 = n)
    as Hfold.
  { induction ps as [|p ps IH]; intros acc H1 H2; simpl; [done|].
    destruct (bin_pixel_length img cx cy threshold p.1 p.2 acc) as [E1 E2].
    apply IH; congruence. }
  apply Hfold; simpl; apply length_replicate.
Qed.

(** The loop adds to bin [k] one count and the intensity of each pixel of
    [ps] that lies in bin [k] and reaches the threshold, and nothing else. *)
Lemma fold_bin_pixel (img : array2 Z) (cx cy threshold : Z) (k : nat)
    (ps : list (nat * nat)) (acc : list Z * list Z) (c s : Z) :
  acc.1 !! k = Some c → acc.2 !! k = Some s →
  let sel := filter (λ p, threshold ≤ at2 img p.2 p.1 ∧
                          bin_index (shape1 img) (shape0 img) cx cy p.1 p.2 = k) ps in
  let acc' := foldl (λ acc p, bin_pixel img cx cy threshold p.1 p.2 acc) acc ps in
  acc'.1 !! k = Some (c + Z.of_nat (length sel))
  ∧ acc'.2 !! k = Some (s + intensity_sum img sel).
Proof.
  revert acc c s. induction ps as [|p ps IH]; intros acc c s Hc Hs; simpl.
  - unfold intensity_sum. simpl. by rewrite !Z.add_0_r.
  - rewrite filter_cons. unfold bin_pixel at 2 4.
    destruct (decide (threshold ≤ at2 img p.2 p.1)) as [Hge|Hlt].
    + rewrite (bool_decide_eq_true_2 _ Hge).
      destruct (decide (bin_index (shape1 img) (shape0 img) cx cy p.1 p.2 = k))
        as [Hk|Hk].
      * rewrite decide_True by done.
        edestruct (IH (alter Z.succ (bin_index (shape1 img) (shape0 img) cx cy p.1 p.2) acc.1,
                        alter (λ s0, s0 + at2 img p.2 p.1)
                              (bin_index (shape1 img) (shape0 img) cx cy p.1 p.2) acc.2))
          as [E1 E2].
        { simpl. rewrite Hk, list_lookup_alter_eq, Hc. done. }
        { simpl. rewrite Hk, list_lookup_alter_eq, Hs. done. }
        simpl in E1, E2. rewrite E1, E2. unfold intensity_sum.
        rewrite fmap_cons, length_cons. simpl foldr.
        split; apply (f_equal Some); lia.
      * rewrite decide_False by tauto.
        apply IH; simpl; by rewrite list_lookup_alter_ne.
    + rewrite (bool_decide_eq_false_2 _ Hlt), decide_False by tauto.
      by apply IH.
Qed.

Lemma accumulate_spec (img : array2 Z) (cx cy threshold : Z) (k : nat) :
  (k < r_range (shape1 img) (shape0 img) cx cy)%nat →
  (accumulate img cx cy threshold).1 !! k
    = Some (Z.of_nat (length (contributing img cx cy threshold k)))
  ∧ (accumulate img cx cy threshold).2 !! k
    = Some (intensity_sum img (contributing img cx cy threshold k)).
Proof.
  intros Hk. rewrite accumulate_pixels.
  apply (fold_bin_pixel img cx cy threshold k _ (_, _) 0 0);
    simpl; by apply lookup_replicate_2.
Qed.

(** ** The radius bins *)

Lemma radial_average_radii (img : array2 Z) (cx cy threshold : Z) :
  (_radial_average img cx cy threshold).1
  = bin_centers (min_r (shape1 img) (shape0 img) cx cy)
                (r_range (shape1 img) (shape0 img) cx cy).
Proof.
  unfold _radial_average.
  destruct (accumulate_length img cx cy threshold) as [Hlen _].
  destruct (accumulate img cx cy threshold) as [cnt i]. simpl in *.
  by rewrite Hlen.
Qed.

Lemma bin_centers_lookup (lo : Z) (n k : nat) :
  (k < n)%nat →
  bin_centers lo n !! k = Some (inject_Z lo + (1 # 2) + inject_Z (Z.of_nat k))%Q.
Proof.
  intros Hk. unfold bin_centers.
  by rewrite list_lookup_fmap, lookup_seq_lt.
Qed.

Lemma bin_centers_length (lo : Z) (n : nat) : length (bin_centers lo n) = n.
Proof. unfold bin_centers. by rewrite length_fmap, length_seq. Qed.


Lemma mul2_shape (img mask : array2 Z) :
  shape mask = shape img → shape (mul2 img mask) = shape img.
Proof.
  unfold shape, shape0, shape1, mul2. intros [= H0 H1].
  destruct img as [|row img], mask as [|mrow mask]; simpl in *; try done.
  rewrite !length_zip_with. f_equal; lia.
Qed.

(** ** The kernel at a rational centre *)





















(** ** The centre on the pixel grid *)

Lemma dist_sq_Q_inject (cx cy : Z) (x y : nat) :
  dist_sq_Q (inject_Z cx) (inject_Z cy) x y = inject_Z (dist_sq cx cy x y).
Proof.
  unfold dist_sq_Q, dist_sq, Qminus.
  rewrite <- !inject_Z_opp, <- !inject_Z_plus, <- !inject_Z_mult, <- inject_Z_plus.
  f_equal. rewrite !Z.pow_2_r. lia.
Qed.

Lemma Qmin_inject (a b : Z) : Qmin (inject_Z a) (inject_Z b) = inject_Z (Z.min a b).
Proof.
  unfold Qmin, GenericMinMax.gmin, Z.min, Qcompare. simpl.
  rewrite !Z.mul_1_r. by destruct (a ?= b).
Qed.

Lemma Qmax_inject (a b : Z) : Qmax (inject_Z a) (inject_Z b) = inject_Z (Z.max a b).
Proof.
  unfold Qmax, GenericMinMax.gmax, Z.max, Qcompare. simpl.
  rewrite !Z.mul_1_r. by destruct (a ?= b).
Qed.

Lemma list_min_Q_inject (l : list Z) :
  list_min_Q (inject_Z <$> l) = inject_Z (list_min l).
Proof.
  destruct l as [|a l]; [done|]. simpl. revert a.
  induction l as [|b l IH]; intros a; [done|].
  simpl. by rewrite Qmin_inject, IH.
Qed.

Lemma list_max_Q_inject (l : list Z) :
  list_max_Q (inject_Z <$> l) = inject_Z (list_max l).
Proof.
  destruct l as [|a l]; [done|]. simpl. revert a.
  induction l as [|b l IH]; intros a; [done|].
  simpl. by rewrite Qmax_inject, IH.
Qed.

Lemma r_mesh_Q_inject (width height : nat) (cx cy : Z) :
  mjoin (r_mesh_Q width height (inject_Z cx) (inject_Z cy))
  = inject_Z <$> mjoin (r_mesh width height cx cy).
Proof.
  unfold r_mesh_Q, r_mesh.
  induction (seq 0 height) as [|y ys IH]; [done|].
  rewrite !fmap_cons. simpl. rewrite fmap_app, IH. f_equal.
  rewrite <- list_fmap_compose. apply list_fmap_ext.
  intros i x _. simpl. apply dist_sq_Q_inject.
Qed.

Lemma min_r_Q_inject (width height : nat) (cx cy : Z) :
  min_r_Q width height (inject_Z cx) (inject_Z cy) = min_r width height cx cy.
Proof.
  unfold min_r_Q, min_r, amin, int_sqrt.
  by rewrite r_mesh_Q_inject, list_min_Q_inject, Qfloor_Z.
Qed.

Lemma max_r_Q_inject (width height : nat) (cx cy : Z) :
  max_r_Q width height (inject_Z cx) (inject_Z cy) = max_r width height cx cy.
Proof.
  unfold max_r_Q, max_r, amax, int_sqrt.
  by rewrite r_mesh_Q_inject, list_max_Q_inject, Qfloor_Z.
Qed.

Lemma bin_pixel_Q_inject (img : array2 Z) (cx cy threshold : Z) (x y : nat)
    (acc : list Z * list Z) :
  bin_pixel_Q img (inject_Z cx) (inject_Z cy) threshold x y acc
  = bin_pixel img cx cy threshold x y acc.
Proof.
  unfold bin_pixel_Q, bin_pixel, bin_index_Q, bin_index, int_sqrt.
  by rewrite min_r_Q_inject, dist_sq_Q_inject, Qfloor_Z.
Qed.

Lemma foldl_ext_all {A B} (f g : A → B → A) (l : list B) (a : A) :
  (∀ a b, f a b = g a b) → foldl f a l = foldl g a l.
Proof.
  intros Hfg. revert a. induction l as [|b l IH]; intros a; simpl; [done|].
  by rewrite Hfg, IH.
Qed.

(** At a centre on the pixel grid the kernel is the kernel of integer
    centres. *)
Lemma radial_average_Q_inject (img : array2 Z) (cx cy threshold : Z) :
  _radial_average_Q img (inject_Z cx) (inject_Z cy) threshold
  = _radial_average img cx cy threshold.
Proof.
  assert (accumulate_Q img (inject_Z cx) (inject_Z cy) threshold
          = accumulate img cx cy threshold) as Hacc.
  { unfold accumulate_Q, accumulate, r_range_Q, r_range.
    rewrite min_r_Q_inject, max_r_Q_inject.
    apply foldl_ext_all. intros acc x.
    apply foldl_ext_all. intros acc' y. apply bin_pixel_Q_inject. }
  unfold _radial_average_Q, _radial_average.
  by rewrite Hacc, min_r_Q_inject.
Qed.

(** ** Which pixels contribute *)

Lemma filter_ext_elem {A} (P Q : A → Prop) `{!∀ x, Decision (P x)}
    `{!∀ x, Decision (Q x)} (l : list A) :
  (∀ x, x ∈ l → P x ↔ Q x) → filter P l = filter Q l.
Proof.
  induction l as [|a l IH]; intros Hext; [done|].
  rewrite !filter_cons.
  assert (P a ↔ Q a) as Ha by (apply Hext; left).
  rewrite IH by (intros x Hx; apply Hext; by right).
  destruct (decide (P a)), (decide (Q a)); tauto.
Qed.

Lemma elem_of_pixels (width height : nat) (p : nat * nat) :
  p ∈ pixels width height ↔ (p.1 < width)%nat ∧ (p.2 < height)%nat.
Proof.
  unfold pixels. rewrite list_elem_of_bind. split.
  - intros (x & Hp & Hx). apply list_elem_of_bind in Hp as (y & Hp & Hy).
    apply list_elem_of_singleton in Hp as ->.
    apply elem_of_seq in Hx, Hy. simpl. lia.
  - intros [Hx Hy]. exists p.1. split; [|apply elem_of_seq; lia].
    apply list_elem_of_bind. exists p.2. split; [|apply elem_of_seq; lia].
    destruct p. by apply list_elem_of_singleton.
Qed.

Lemma rectangular_lookup {A} (a : array2 A) (y x : nat) :
  rectangular a → (y < shape0 a)%nat → (x < shape1 a)%nat →
  ∃ row v, a !! y = Some row ∧ row !! x = Some v.
Proof.
  intros Hrect Hy Hx.
  destruct (lookup_lt_is_Some_2 a y Hy) as [row Hrow].
  pose proof (Forall_lookup_1 _ _ _ _ Hrect Hrow) as Hlen. simpl in Hlen.
  destruct (lookup_lt_is_Some_2 row x) as [v Hv]; [lia|].
  by exists row, v.
Qed.

Lemma at2_mul2 (img mask : array2 Z) (y x : nat) :
  rectangular img → rectangular mask → shape mask = shape img →
  (y < shape0 img)%nat → (x < shape1 img)%nat →
  at2 (mul2 img mask) y x = at2 img y x * at2 mask y x.
Proof.
  intros Himg Hmask [= H0 H1] Hy Hx.
  destruct (rectangular_lookup img y x Himg Hy Hx) as (row & v & Hrow & Hv).
  destruct (rectangular_lookup mask y x Hmask) as (mrow & m & Hmrow & Hm); [lia..|].
  unfold at2, mul2. rewrite lookup_zip_with, Hrow, Hmrow. simpl.
  by rewrite lookup_zip_with, Hv, Hm.
Qed.

Lemma binary_at2 (mask : array2 Z) (y x : nat) :
  binary mask → at2 mask y x = 0 ∨ at2 mask y x = 1.
Proof.
  intros Hbin. unfold at2.
  destruct (mask !! y) as [row|] eqn:Hrow; simpl; [|by left].
  destruct (row !! x) as [v|] eqn:Hv; simpl; [|by left].
  pose proof (Forall_lookup_1 _ _ _ _ Hbin Hrow) as Hr.
  exact (Forall_lookup_1 _ _ _ _ Hr Hv).
Qed.

Lemma intensity_sum_ext (a b : array2 Z) (ps : list (nat * nat)) :
  Forall (λ p, at2 a p.2 p.1 = at2 b p.2 p.1) ps →
  intensity_sum a ps = intensity_sum b ps.
Proof.
  unfold intensity_sum. induction 1 as [|p ps Hp _ IH]; [done|].
  rewrite !fmap_cons. simpl foldr. rewrite Hp. f_equal. exact IH.
Qed.

(** C2 (as the code has it): a pixel adds one to the count of its radius bin
    and its intensity to the sum of that bin if and only if its intensity
    is at least the threshold, and otherwise changes neither.  With a mask
    the intensity tested and summed is the product of pixel and mask value:
    for a mask of zeros and ones and a positive threshold, the pixels that
    contribute are those with a non-zero mask value and an intensity of at
    least the threshold. *)
Theorem kernel_contribution_rule (img : array2 Z) (cx cy threshold : Z) (k : nat) :
  (k < r_range (shape1 img) (shape0 img) cx cy)%nat →
  ((accumulate img cx cy threshold).1 !! k
     = Some (Z.of_nat (length (contributing img cx cy threshold k)))
   ∧ (accumulate img cx cy threshold).2 !! k
     = Some (intensity_sum img (contributing img cx cy threshold k)))
  ∧ ∀ mask,
      rectangular img → rectangular mask → shape mask = shape img →
      binary mask → 0 < threshold →
      (accumulate (mul2 img mask) cx cy threshold).1 !! k
        = Some (Z.of_nat (length (contributing_masked img mask cx cy threshold k)))
      ∧ (accumulate (mul2 img mask) cx cy threshold).2 !! k
        = Some (intensity_sum img (contributing_masked img mask cx cy threshold k)).
Proof.
  intros Hk. split; [by apply accumulate_spec|].
  intros mask Himg Hmask Hshape Hbin Hpos.
  pose proof (mul2_shape img mask Hshape) as [= S0 S1].
  assert (contributing (mul2 img mask) cx cy threshold k
          = contributing_masked img mask cx cy threshold k) as Hsel.
  { unfold contributing, contributing_masked. rewrite S0, S1.
    apply filter_ext_elem. intros p [Hx Hy]%elem_of_pixels.
    rewrite (at2_mul2 img mask p.2 p.1) by done.
    destruct (binary_at2 mask p.2 p.1 Hbin) as [-> | ->].
    - rewrite Z.mul_0_r. split; [lia | tauto].
    - rewrite Z.mul_1_r. split; [intros []; by repeat split | tauto]. }
  destruct (accumulate_spec (mul2 img mask) cx cy threshold k) as [Hcnt Hsum].
  { by rewrite S0, S1. }
  rewrite Hcnt, Hsum, Hsel. split; [done|]. f_equal.
  apply intensity_sum_ext, Forall_forall. intros p Hp.
  unfold contributing_masked in Hp.
  apply list_elem_of_filter in Hp as [(Hm & _ & _) [Hx Hy]%elem_of_pixels].
  rewrite (at2_mul2 img mask p.2 p.1) by done.
  destruct (binary_at2 mask p.2 p.1 Hbin) as [H0 | H1]; [done|].
  rewrite H1. lia.
Qed.

Lemma kernel_contribution_rule_witness :
  (accumulate (mul2 [[1; 2; 3]; [4; 5; 6]] [[1; 0; 1]; [1; 1; 0]]) 1 1 2).1 !! 1%nat
  = Some (Z.of_nat (length (contributing_masked [[1; 2; 3]; [4; 5; 6]]
                              [[1; 0; 1]; [1; 1; 0]] 1 1 2 1))).
Proof.
  destruct (kernel_contribution_rule [[1; 2; 3]; [4; 5; 6]] 1 1 2 1) as [_ H].
  - vm_compute. lia.
  - destruct (H [[1; 0; 1]; [1; 1; 0]]) as [Hcnt _].
    + unfold rectangular. by forall_entries.
    + unfold rectangular. by forall_entries.
    + reflexivity.
    + unfold binary. forall_entries; auto.
    + lia.
    + exact Hcnt.
Defined.

(** C2 (as stated) fails for a threshold that is not positive: a masked
    pixel has the product 0, which reaches the threshold 0, and is counted. *)
Lemma mask_rule_counterexample : ¬ mask_rule_as_stated [[5]] [[0]] 0 0 0.
Proof.
  intros H.
  assert (0 < r_range (shape1 [[5]]) (shape0 [[5]]) 0 0)%nat as Hk
    by (vm_compute; lia).
  destruct (H 0%nat Hk) as [Hcnt _]. vm_compute in Hcnt. discriminate.
Qed.

(** ** Empty bins *)

Lemma radial_average_means (img : array2 Z) (cx cy threshold : Z) :
  (_radial_average img cx cy threshold).2
  = zip_with bin_mean (accumulate img cx cy threshold).1
                      (accumulate img cx cy threshold).2.
Proof. unfold _radial_average. by destruct (accumulate img cx cy threshold). Qed.

Lemma histogram_lookup (r_bin : list Z) (px : list (option Z * option Q))
    (k : nat) (c : Z) :
  histogram r_bin px !! k = Some c →
  histogram_bins r_bin !! k = Some k
  ∧ c = Z.of_nat (length (filter (λ p, in_bin r_bin k p.1 = true) px)).
Proof.
  unfold histogram. rewrite list_lookup_fmap. intros Hk.
  destruct (histogram_bins r_bin !! k) as [k'|] eqn:Hbin; [|done].
  unfold histogram_bins in Hbin.
  apply lookup_seq in Hbin as [-> _]. simpl in Hk. by injection Hk as <-.
Qed.

(** C6: in the pixel kernel a bin without contributing pixels is kept in
    the output and has the mean 0; in [Saxs2d.radial_average] a bin without
    pixels has the mean NaN; the two values differ. *)
Theorem empty_bin_means :
  (∀ (img : array2 Z) (cx cy threshold : Z),
     length (_radial_average img cx cy threshold).1
       = r_range (shape1 img) (shape0 img) cx cy
     ∧ length (_radial_average img cx cy threshold).2
       = r_range (shape1 img) (shape0 img) cx cy
     ∧ ∀ k, (k < r_range (shape1 img) (shape0 img) cx cy)%nat →
         contributing img cx cy threshold k = [] →
         (accumulate img cx cy threshold).1 !! k = Some 0
         ∧ (_radial_average img cx cy threshold).2 !! k = Some (Fin 0%Q))
  ∧ (∀ (s : Saxs2d) (q_min : Q) (q_max : option Q) (k : nat),
       saxs_cnt s q_min q_max !! k = Some 0 →
       (Saxs2d_radial_average s q_min q_max).1 !! k = Some NaN)
  ∧ Fin 0%Q ≠ NaN.
Proof.
  split; [|split; [|done]].
  - intros img cx cy threshold.
    destruct (accumulate_length img cx cy threshold) as [L1 L2].
    split; [by rewrite radial_average_radii, bin_centers_length|].
    split; [rewrite radial_average_means, length_zip_with; lia|].
    intros k Hk Hnone.
    destruct (accumulate_spec img cx cy threshold k Hk) as [Hcnt Hsum].
    rewrite Hnone in Hcnt, Hsum. simpl in Hcnt, Hsum.
    split; [done|].
    by rewrite radial_average_means, lookup_zip_with, Hcnt, Hsum.
  - intros s q_min q_max k Hcnt. unfold saxs_cnt in Hcnt.
    apply histogram_lookup in Hcnt as [Hbin Hlen].
    assert (filter (λ p, in_bin (saxs_r_bin s q_min q_max) k p.1 = true)
                   (saxs_pixels s) = []) as Hnone.
    { apply length_zero_iff_nil. lia. }
    unfold Saxs2d_radial_average. simpl.
    rewrite lookup_zip_with. unfold saxs_i_sum, weighted_histogram, saxs_cnt, histogram.
    rewrite !list_lookup_fmap, Hbin. simpl. by rewrite Hnone.
Qed.

Lemma empty_bin_means_witness :
  (_radial_average [[1; 2; 3]; [4; 5; 6]] 1 1 2).2 !! 2%nat = Some (Fin 0%Q)
  ∧ (Saxs2d_radial_average
       (MkSaxs2d [[Some 1%Q; None; Some 3%Q]; [None; None; None];
                  [Some 1%Q; None; Some 3%Q]] 1%Q (1, 1)) 0%Q None).1 !! 0%nat
    = Some NaN.
Proof.
  destruct empty_bin_means as (Hkernel & Hsaxs & _). split.
  - destruct (Hkernel [[1; 2; 3]; [4; 5; 6]] 1 1 2) as (_ & _ & Hempty).
    apply Hempty; [vm_compute; lia | reflexivity].
  - apply Hsaxs. reflexivity.
Defined.

(** ** Rectangles of a mask *)

Lemma slice_update_lookup {A} (start stop : Z) (f : A → A) (l : list A)
    (k : nat) (a : A) :
  0 ≤ start → 0 ≤ stop → l !! k = Some a →
  slice_update start stop f l !! k
  = Some (if decide (start ≤ Z.of_nat k < stop) then f a else a).
Proof.
  intros Hstart Hstop Hk. pose proof (lookup_lt_Some _ _ _ Hk) as Hlt.
  unfold slice_update. rewrite list_lookup_imap, Hk. simpl. f_equal.
  unfold adjust_index.
  rewrite (bool_decide_eq_false_2 (start < 0)) by lia.
  rewrite (bool_decide_eq_false_2 (stop < 0)) by lia.
  case_bool_decide; case_decide; (done || lia).
Qed.

Lemma slice_update_lookup_None {A} (start stop : Z) (f : A → A) (l : list A)
    (k : nat) :
  l !! k = None → slice_update start stop f l !! k = None.
Proof.
  intros Hk. unfold slice_update. by rewrite list_lookup_imap, Hk.
Qed.

Lemma slice_update_length {A} (start stop : Z) (f : A → A) (l : list A) :
  length (slice_update start stop f l) = length l.
Proof. unfold slice_update. apply length_imap. Qed.

Lemma assign_block_lookup {A} (y0 y1 x0 x1 : Z) (c : A) (a : array2 A)
    (j i : nat) (v : A) :
  0 ≤ y0 → 0 ≤ y1 → 0 ≤ x0 → 0 ≤ x1 →
  lookup2 a j i = Some v →
  lookup2 (assign_block y0 y1 x0 x1 c a) j i
  = Some (if decide (x0 ≤ Z.of_nat i < x1 ∧ y0 ≤ Z.of_nat j < y1) then c else v).
Proof.
  intros Hy0 Hy1 Hx0 Hx1. unfold lookup2, assign_block.
  destruct (a !! j) as [row|] eqn:Hrow; simpl; [|done]. intros Hv.
  rewrite (slice_update_lookup y0 y1 _ a j row) by done. simpl.
  destruct (decide (y0 ≤ Z.of_nat j < y1)) as [Hj|Hj].
  - rewrite (slice_update_lookup x0 x1 _ row i v) by done. f_equal.
    repeat case_decide; (done || tauto).
  - rewrite Hv. f_equal. case_decide; (done || tauto).
Qed.

Lemma assign_block_lookup_None {A} (y0 y1 x0 x1 : Z) (c : A) (a : array2 A)
    (j i : nat) :
  lookup2 a j i = None → lookup2 (assign_block y0 y1 x0 x1 c a) j i = None.
Proof.
  unfold lookup2, assign_block, slice_update at 1.
  rewrite list_lookup_imap.
  destruct (a !! j) as [row|] eqn:Hrow; simpl; [|done]. intros Hv.
  case_bool_decide; [by apply slice_update_lookup_None | done].
Qed.

(** C8 (as the code has it): when neither bound of the two slices is
    negative ([x], [y], [x + width] and [y + height] all at least 0),
    [add_rectangle] sets exactly the pixels of the mask inside
    [x, x+width) x [y, y+height) to 0 and [remove_rectangle] sets exactly
    those to 1; every other pixel keeps its value and no pixel is added or
    removed, whatever part of the region lies outside the mask. *)
Theorem rectangle_rule (m : Mask) (x y width height : Z) :
  0 ≤ x → 0 ≤ y → 0 ≤ x + width → 0 ≤ y + height →
  ∀ j i,
    match lookup2 (mask_array m) j i with
    | Some v =>
        lookup2 (mask_array (add_rectangle m x y width height)) j i
          = Some (if decide (in_rectangle x y width height i j) then 0 else v)
        ∧ lookup2 (mask_array (remove_rectangle m x y width height)) j i
          = Some (if decide (in_rectangle x y width height i j) then 1 else v)
    | None =>
        lookup2 (mask_array (add_rectangle m x y width height)) j i = None
        ∧ lookup2 (mask_array (remove_rectangle m x y width height)) j i = None
    end.
Proof.
  intros Hx Hy Hxw Hyh j i. unfold add_rectangle, remove_rectangle. simpl.
  destruct (lookup2 (mask_array m) j i) as [v|] eqn:Hv.
  - split; by apply assign_block_lookup.
  - split; by apply assign_block_lookup_None.
Qed.

Lemma rectangle_rule_witness :
  lookup2 (mask_array (add_rectangle (MkMask [[1; 1; 1]; [1; 1; 1]]) 1 0 5 1)) 0 2
  = Some 0.
Proof.
  pose proof (rectangle_rule (MkMask [[1; 1; 1]; [1; 1; 1]]) 1 0 5 1
                ltac:(lia) ltac:(lia) ltac:(lia) ltac:(lia) 0%nat 2%nat) as H.
  simpl in H. destruct H as [H _]. exact H.
Defined.

(** C8 (as stated) fails for a negative bound, which a slice counts from
    the far edge: [add_rectangle(-1, 0, 3, 1)] on a row of five pixels
    assigns the empty slice [4:2] and leaves column 0 valid. *)
Lemma add_rectangle_counterexample :
  ¬ add_rectangle_as_stated (MkMask [[1; 1; 1; 1; 1]]) (-1) 0 3 1.
Proof.
  intros H. specialize (H 0%nat 0%nat 1 eq_refl).
  vm_compute in H. discriminate.
Qed.

(** ** Computations on the world *)

Lemma bind_Returns {A B} (m : M A) (k : A → M B) (w w' : world) (b : B) :
  bind m k w = (Returns b, w')
  ↔ ∃ a w1, m w = (Returns a, w1) ∧ k a w1 = (Returns b, w').
Proof.
  unfold bind. destruct (m w) as [[a|e] w1]; split.
  - intros H. by exists a, w1.
  - by intros (a' & w1' & [= -> ->] & H).
  - done.
  - by intros (a' & w1' & [=] & _).
Qed.

Lemma bind_Raises {A B} (m : M A) (k : A → M B) (w w' : world) (e : exn) :
  bind m k w = (Raises e, w')
  ↔ m w = (Raises e, w') ∨ ∃ a w1, m w = (Returns a, w1) ∧ k a w1 = (Raises e, w').
Proof.
  unfold bind. destruct (m w) as [[a|e1] w1]; split.
  - intros H. right. by exists a, w1.
  - intros [Hm | (a' & w1' & Hm & H)]; [discriminate Hm|].
    injection Hm as <- <-. exact H.
  - intros [= -> ->]. by left.
  - intros [H | (a' & w1' & Hm & _)]; [by injection H as <- <- | discriminate Hm].
Qed.

Lemma when_bar_emit (b : bool) (e : bar_event) (w : world) :
  when b (bar_emit e) w = (Returns tt, with_bar b e w).
Proof. by destruct b. Qed.

Lemma files_with_bar (b : bool) (e : bar_event) (w : world) :
  files (with_bar b e w) = files w.
Proof. by destruct b. Qed.

Lemma warned_with_bar (b : bool) (e : bar_event) (w : world) :
  warned (with_bar b e w) = warned w.
Proof. by destruct b. Qed.

(** *** Computations that only read *)

Lemma reads_only_ret {A} (a : A) : reads_only (ret a).
Proof. done. Qed.

Lemma reads_only_raise {A} (e : exn) : reads_only (raise (A:=A) e).
Proof. done. Qed.

Lemma reads_only_get_files : reads_only get_files.
Proof. done. Qed.

Lemma reads_only_bind {A B} (m : M A) (k : A → M B) :
  reads_only m → (∀ a, reads_only (k a)) → reads_only (bind m k).
Proof.
  intros Hm Hk w. unfold bind. specialize (Hm w).
  destruct (m w) as [[a|e] w1]; simpl in *; subst; [apply Hk | done].
Qed.

Create HintDb reads discriminated.
#[local] Hint Resolve reads_only_ret reads_only_raise reads_only_get_files : reads.

(** Splits a computation along its binds and its case distinctions. *)
Ltac reads_only_steps :=
  repeat first
    [ apply reads_only_bind; [|intros ?]
    | solve [auto with reads]
    | case_match ].

Lemma reads_only_readmask (src : string) : reads_only (_readmask src).
Proof. unfold _readmask. reads_only_steps. Qed.
#[local] Hint Resolve reads_only_readmask : reads.

Lemma reads_only_resolve_source (src : source) (dst : string) :
  reads_only (resolve_source src dst).
Proof. unfold resolve_source. reads_only_steps. Qed.

Lemma reads_only_first_shape (fl : list string) : reads_only (first_shape fl).
Proof. unfold first_shape. reads_only_steps. Qed.

Lemma reads_only_resolve_mask (mask : array2 Z) (mask_src : string) (hw : nat * nat) :
  reads_only (resolve_mask mask mask_src hw).
Proof. unfold resolve_mask. reads_only_steps. Qed.

Lemma reads_only_integrate_frame (kw : kwargs) (hw : nat * nat)
    (mask : option (array2 Z)) (file : string) :
  reads_only (integrate_frame kw hw mask file).
Proof. unfold integrate_frame. reads_only_steps. Qed.

Lemma reads_only_resolve_px_size (table : gmap string float64) (detecter : string)
    (px : float64) :
  reads_only (resolve_px_size table detecter px).
Proof. unfold resolve_px_size. reads_only_steps. Qed.

#[local] Hint Resolve reads_only_resolve_source reads_only_first_shape
  reads_only_resolve_mask reads_only_integrate_frame reads_only_resolve_px_size
  : reads.

(** A step that returns hands on the world it was given. *)
Lemma reads_only_world {A} (m : M A) (w w' : world) (o : outcome A) :
  reads_only m → m w = (o, w') → w' = w.
Proof. intros Hm Hrun. specialize (Hm w). by rewrite Hrun in Hm. Qed.

(** *** Computations that keep the files *)

Lemma keeps_files_reads_only {A} (m : M A) : reads_only m → keeps_files m.
Proof. intros Hm w. by rewrite Hm. Qed.

Lemma keeps_files_bind {A B} (m : M A) (k : A → M B) :
  keeps_files m → (∀ a, keeps_files (k a)) → keeps_files (bind m k).
Proof.
  intros Hm Hk w. unfold bind. specialize (Hm w).
  destruct (m w) as [[a|e] w1]; simpl in *; [by rewrite Hk | done].
Qed.

Lemma keeps_files_warn (msg : string) : keeps_files (warn msg).
Proof. done. Qed.

Lemma keeps_files_when_bar (b : bool) (e : bar_event) :
  keeps_files (when b (bar_emit e)).
Proof. intros w. rewrite when_bar_emit. simpl. apply files_with_bar. Qed.

Lemma keeps_files_resolve_calibration (cl wl sl ic : float64) :
  keeps_files (resolve_calibration cl wl sl ic).
Proof. intros w. unfold resolve_calibration. by repeat case_match. Qed.

Lemma keeps_files_integrate_frames (kw : kwargs) (hw : nat * nat)
    (mask : option (array2 Z)) (fl : list string)
    (acc : list Q * list (list float64) * list string) :
  keeps_files (integrate_frames kw hw mask fl acc).
Proof.
  revert acc. induction fl as [|f fl IH]; intros acc; simpl.
  - by apply keeps_files_reads_only.
  - apply keeps_files_bind; [apply keeps_files_reads_only; auto with reads|].
    intros ri. apply keeps_files_bind; [apply keeps_files_when_bar|].
    intros _. apply IH.
Qed.

Lemma keeps_files_series_setup (table : gmap string float64) (src : source)
    (kw : kwargs) :
  keeps_files (series_setup table src kw).
Proof.
  unfold series_setup.
  apply keeps_files_bind; [apply keeps_files_reads_only; auto with reads|].
  intros fd. case_match; [by apply keeps_files_reads_only|].
  apply keeps_files_bind; [apply keeps_files_when_bar|]. intros _.
  apply keeps_files_bind; [by apply keeps_files_reads_only|]. intros fs.
  case_match; [by apply keeps_files_reads_only|].
  apply keeps_files_bind; [apply keeps_files_reads_only; auto with reads|].
  intros px.
  apply keeps_files_bind; [apply keeps_files_resolve_calibration|]. intros cal.
  apply keeps_files_bind; [apply keeps_files_reads_only; auto with reads|].
  intros hw.
  apply keeps_files_bind; [apply keeps_files_reads_only; auto with reads|].
  intros m. by apply keeps_files_reads_only.
Qed.

(** ** The frame loop *)

Lemma integrate_frame_matches (kw : kwargs) (hw : nat * nat)
    (mask : option (array2 Z)) (f : string) (w : world) :
  frame_matches (files w) hw f →
  ∃ img, imread (files w) f = Some (Gray img) ∧ shape img = hw
    ∧ integrate_frame kw hw mask f w = (Returns (average_frame kw mask img), w).
Proof.
  intros (img & Hread & Hshape). exists img. split; [done|]. split; [done|].
  unfold integrate_frame, bind, get_files. rewrite Hread.
  by rewrite bool_decide_eq_true_2.
Qed.

Lemma integrate_frame_mismatches (kw : kwargs) (hw : nat * nat)
    (mask : option (array2 Z)) (f : string) (w : world) :
  frame_mismatches (files w) hw f →
  integrate_frame kw hw mask f w
  = (Raises (ValueError ("Image size is not match. " +:+ f)), w).
Proof.
  intros (data & Hread & Hshape).
  unfold integrate_frame, bind, get_files. rewrite Hread.
  destruct data as [img|img]; [|done].
  rewrite bool_decide_eq_false_2; [done|].
  intros <-. by apply Hshape.
Qed.

Lemma integrate_frame_Returns (kw : kwargs) (hw : nat * nat)
    (mask : option (array2 Z)) (f : string) (w w' : world)
    (ri : list Q * list float64) :
  integrate_frame kw hw mask f w = (Returns ri, w') →
  w' = w ∧ ∃ img, imread (files w) f = Some (Gray img) ∧ shape img = hw
                  ∧ ri = average_frame kw mask img.
Proof.
  unfold integrate_frame, bind, get_files.
  destruct (imread (files w) f) as [[img|img]|] eqn:Hread; try done.
  case_bool_decide as Hshape; [|done].
  intros [= <- <-]. split; [done|]. by exists img.
Qed.

(** The loop stops at the first frame whose shape differs and names it. *)
Lemma integrate_frames_mismatch (kw : kwargs) (hw : nat * nat)
    (mask : option (array2 Z)) (pre post : list string) (f : string)
    (acc : list Q * list (list float64) * list string) (w : world) :
  Forall (frame_matches (files w) hw) pre →
  frame_mismatches (files w) hw f →
  ∃ w', integrate_frames kw hw mask (pre ++ f :: post) acc w
        = (Raises (ValueError ("Image size is not match. " +:+ f)), w')
        ∧ files w' = files w.
Proof.
  revert acc w. induction pre as [|g pre IH]; intros acc w Hpre Hf; simpl.
  - exists w. split; [|done].
    unfold bind. by rewrite integrate_frame_mismatches.
  - apply Forall_cons in Hpre as [Hg Hpre].
    destruct (integrate_frame_matches kw hw mask g w Hg) as (img & _ & _ & Hrun).
    unfold bind at 1. rewrite Hrun.
    unfold bind at 1. rewrite when_bar_emit.
    edestruct (IH ((average_frame kw mask img).1,
                   acc.1.2 ++ [(average_frame kw mask img).2],
                   acc.2 ++ [basename g]))
      as (w' & Hrest & Hfiles).
    + by rewrite files_with_bar.
    + by rewrite files_with_bar.
    + exists w'. split; [exact Hrest|]. by rewrite Hfiles, files_with_bar.
Qed.

(** What the loop hands back when it returns: the radii of the last frame,
    one intensity column and one header per frame. *)
Lemma integrate_frames_Returns (kw : kwargs) (hw : nat * nat)
    (mask : option (array2 Z)) (fl : list string)
    (acc out : list Q * list (list float64) * list string) (w w' : world) :
  integrate_frames kw hw mask fl acc w = (Returns out, w') →
  Forall (frame_matches (files w) hw) fl
  ∧ out.2 = acc.2 ++ (basename <$> fl)
  ∧ length out.1.2 = (length acc.1.2 + length fl)%nat
  ∧ warned w' = warned w
  ∧ match last fl with
    | None => out.1.1 = acc.1.1
    | Some f => ∃ img, imread (files w) f = Some (Gray img) ∧ shape img = hw
                       ∧ out.1.1 = (average_frame kw mask img).1
    end.
Proof.
  revert acc w. induction fl as [|f fl IH]; intros acc w; simpl.
  - intros [= <- <-]. rewrite app_nil_r. repeat split; (done || lia).
  - intros H. apply bind_Returns in H as (ri & w1 & Hframe & H).
    apply integrate_frame_Returns in Hframe as (-> & img & Hread & Hshape & ->).
    apply bind_Returns in H as ([] & w2 & Hbar & H).
    rewrite when_bar_emit in Hbar. injection Hbar as <-.
    apply IH in H as (Hall & Hhdr & Hlen & Hwarn & Hlast). simpl in *.
    rewrite files_with_bar in Hall, Hlast. rewrite warned_with_bar in Hwarn.
    split; [apply Forall_cons; split; [by exists img | done]|].
    split; [by rewrite Hhdr, <- app_assoc|].
    split; [rewrite Hlen, length_app; simpl; lia|].
    split; [done|].
    destruct fl as [|g fl]; [by exists img|].
    change (last (f :: g :: fl)) with (last (g :: fl)).
    destruct (last (g :: fl)) eqn:Hg; [exact Hlast|].
    by apply last_None in Hg.
Qed.

(** ** The run of [series_integrate] *)

Section series_run.

Variable r2q : list Q → float64 → float64 → float64 → list float64.
Variable DETECTER_PX_SIZES : gmap string float64.

(** A run returns after the set-up and the frame loop have returned, and
    then writes the table and the record, in this order. *)
Lemma series_integrate_Returns (src : source) (kw : kwargs) (w w' : world)
    (d : string) :
  series_integrate r2q DETECTER_PX_SIZES src kw w = (Returns d, w')
  ↔ ∃ st w1 out w2,
      series_setup DETECTER_PX_SIZES src kw w = (Returns st, w1)
      ∧ integrate_frames kw (s_shape st) (s_mask st) (s_files st)
          ([], [], ["q[nm^-1]"]) w1 = (Returns out, w2)
      ∧ d = s_dst st
      ∧ w' = final_world r2q kw st out w2.
Proof.
  unfold series_integrate.
  rewrite bind_Returns. split.
  - intros (st & w1 & Hsetup & Hrest).
    apply bind_Returns in Hrest as (out & w2 & Hframes & Hrest).
    exists st, w1, out, w2. split; [done|]. split; [done|].
    unfold bind, savetxt, write_json, write_file in Hrest. simpl in Hrest.
    rewrite when_bar_emit in Hrest. unfold ret in Hrest.
    by injection Hrest as <- <-.
  - intros (st & w1 & out & w2 & Hsetup & Hframes & -> & ->).
    exists st, w1. split; [done|].
    apply bind_Returns. exists out, w2. split; [done|].
    unfold bind, savetxt, write_json, write_file. simpl.
    by rewrite when_bar_emit.
Qed.

(** A run raises only in the set-up or in the frame loop. *)
Lemma series_integrate_Raises (src : source) (kw : kwargs) (w w' : world)
    (e : exn) :
  series_integrate r2q DETECTER_PX_SIZES src kw w = (Raises e, w')
  ↔ series_setup DETECTER_PX_SIZES src kw w = (Raises e, w')
    ∨ ∃ st w1,
        series_setup DETECTER_PX_SIZES src kw w = (Returns st, w1)
        ∧ integrate_frames kw (s_shape st) (s_mask st) (s_files st)
            ([], [], ["q[nm^-1]"]) w1 = (Raises e, w').
Proof.
  unfold series_integrate.
  rewrite bind_Raises. split.
  - intros [Hsetup | (st & w1 & Hsetup & Hrest)]; [by left|]. right.
    exists st, w1. split; [done|].
    apply bind_Raises in Hrest as [Hframes | (out & w2 & Hframes & Hrest)];
      [done|].
    unfold bind, savetxt, write_json, write_file in Hrest. simpl in Hrest.
    rewrite when_bar_emit in Hrest. discriminate Hrest.
  - intros [Hsetup | (st & w1 & Hsetup & Hframes)]; [by left|]. right.
    exists st, w1. split; [done|]. apply bind_Raises. by left.
Qed.

(** Whatever a run raises, it leaves the files as they were. *)
Lemma series_integrate_Raises_files (src : source) (kw : kwargs) (w w' : world)
    (e : exn) :
  series_integrate r2q DETECTER_PX_SIZES src kw w = (Raises e, w') → files w' = files w.
Proof.
  intros [Hsetup | (st & w1 & Hsetup & Hframes)]%series_integrate_Raises.
  - pose proof (keeps_files_series_setup DETECTER_PX_SIZES src kw w) as H.
    by rewrite Hsetup in H.
  - pose proof (keeps_files_series_setup DETECTER_PX_SIZES src kw w) as H1.
    pose proof (keeps_files_integrate_frames kw (s_shape st) (s_mask st)
                  (s_files st) ([], [], ["q[nm^-1]"]) w1) as H2.
    rewrite Hsetup in H1. rewrite Hframes in H2. simpl in *. congruence.
Qed.

(** What a set-up that returns has passed. *)
Lemma series_setup_Returns (src : source) (kw : kwargs) (w w1 : world)
    (st : setup) :
  series_setup DETECTER_PX_SIZES src kw w = (Returns st, w1) →
  let wb := with_bar (verbose kw) (BarOpen (length (s_files st))) w in
  resolve_source src (dst kw) w = (Returns (s_files st, s_dst st), w)
  ∧ s_files st ≠ []
  ∧ (overwrite kw = true ∨ files w !! s_dst st = None)
  ∧ resolve_px_size DETECTER_PX_SIZES (detecter kw) (px_size kw) wb = (Returns (s_px_size st), wb)
  ∧ resolve_calibration (camera_length kw) (wave_length kw) (slope kw)
      (intercept kw) wb = (Returns (s_calibration st), w1)
  ∧ first_shape (s_files st) w1 = (Returns (s_shape st), w1)
  ∧ resolve_mask (mask kw) (mask_src kw) (s_shape st) w1 = (Returns (s_mask st), w1).
Proof.
  unfold series_setup. intros H.
  apply bind_Returns in H as ([fl d] & w0 & Hsrc & H). simpl in H.
  pose proof (reads_only_world _ _ _ _ (reads_only_resolve_source _ _) Hsrc) as ->.
  case_bool_decide as Hlen; [done|].
  apply bind_Returns in H as ([] & wb & Hbar & H).
  rewrite when_bar_emit in Hbar. injection Hbar as <-.
  apply bind_Returns in H as (fs & wb' & Hfs & H).
  injection Hfs as <- <-.
  destruct (negb (overwrite kw) && path_exists _ d) eqn:Hfree; [done|].
  apply bind_Returns in H as (px & w2 & Hpx & H).
  pose proof (reads_only_world _ _ _ _ (reads_only_resolve_px_size _ _ _) Hpx) as ->.
  apply bind_Returns in H as (cal & w3 & Hcal & H).
  apply bind_Returns in H as (hw & w4 & Hhw & H).
  pose proof (reads_only_world _ _ _ _ (reads_only_first_shape _) Hhw) as ->.
  apply bind_Returns in H as (m & w5 & Hm & H).
  pose proof (reads_only_world _ _ _ _ (reads_only_resolve_mask _ _ _) Hm) as ->.
  injection H as <- <-. simpl.
  repeat split; try done.
  - intros ->. by apply Hlen.
  - rewrite files_with_bar in Hfree.
    apply andb_false_iff in Hfree as [Hover | Hfree].
    + left. by destruct (overwrite kw).
    + right. unfold path_exists in Hfree.
      apply bool_decide_eq_false_1 in Hfree.
      destruct (files w !! d) eqn:E; [|done]. exfalso. apply Hfree. eauto.
Qed.

Lemma first_shape_Returns (fl : list string) (hw : nat * nat) (w w' : world) :
  first_shape fl w = (Returns hw, w') →
  ∃ img, imread (files w) (default "" (head fl)) = Some (Gray img) ∧ hw = shape img.
Proof.
  unfold first_shape, bind, get_files.
  destruct (imread (files w) (default "" (head fl))) as [[img|img]|]; try done.
  intros [= <- <-]. by exists img.
Qed.

(** C5 (code at the failing input): when the frames resolve and [dst]
    exists with [overwrite] false, the run raises [FileExistsError] with
    only the progress bar opened, before any frame is read; when a frame's
    shape differs from that of the first frame, the run raises the
    [ValueError] that names the first such file; whatever a run raises,
    the files are left as they were, so neither the table nor the record
    is written.  A run that returns has written the record to the
    parameter file, and has left the table at [dst] only when the
    parameter file is another path; when it is [dst] itself the record has
    replaced the table.  With [dst = "profile.txt"] this happens: the run
    returns, "profile.txt" holds the record, no other path has changed,
    and the batch has produced one artifact, not both and not none. *)
Theorem batch_failures (src : source) (kw : kwargs) (w : world) :
  (∀ fl d,
     (resolve_source src (dst kw) w).1 = Returns (fl, d) → fl ≠ [] →
     overwrite kw = false → is_Some (files w !! d) →
     series_integrate r2q DETECTER_PX_SIZES src kw w
     = (Raises (FileExistsError (d +:+ " is already exists.")),
        with_bar (verbose kw) (BarOpen (length fl)) w))
  ∧ (∀ st w1,
       series_setup DETECTER_PX_SIZES src kw w = (Returns st, w1) →
       (∃ first img, head (s_files st) = Some first
                     ∧ imread (files w) first = Some (Gray img)
                     ∧ s_shape st = shape img)
       ∧ ∀ pre f post,
           s_files st = pre ++ f :: post →
           Forall (frame_matches (files w) (s_shape st)) pre →
           frame_mismatches (files w) (s_shape st) f →
           ∃ w', series_integrate r2q DETECTER_PX_SIZES src kw w
                 = (Raises (ValueError ("Image size is not match. " +:+ f)), w')
                 ∧ files w' = files w)
  ∧ (∀ e w', series_integrate r2q DETECTER_PX_SIZES src kw w = (Raises e, w') →
             files w' = files w)
  ∧ (∀ d w', series_integrate r2q DETECTER_PX_SIZES src kw w = (Returns d, w') →
             ∃ header columns params,
               files w' !! paramfile_of d = Some (JsonFile params)
               ∧ (paramfile_of d ≠ d →
                  files w' !! d = Some (TableFile header columns))
               ∧ (paramfile_of d = d →
                  files w' !! d = Some (JsonFile params))
               ∧ ∀ p, p ≠ d → p ≠ paramfile_of d → files w' !! p = files w !! p)
  ∧ paramfile_of "profile.txt" = "profile.txt"
  ∧ ∃ w',
      series_integrate sample_r2q sample_px_sizes (SrcPath "run")
        (set_dst "profile.txt" sample_kwargs) sample_world
      = (Returns "profile.txt", w')
      ∧ (∃ params, files w' !! "profile.txt" = Some (JsonFile params))
      ∧ delete "profile.txt" (files w') = files sample_world.
Proof.
  split; [|split; [|split; [|split; [|split]]]].
  - intros fl d Hsrc Hfl Hover [old Hold].
    destruct (resolve_source src (dst kw) w) as [o w0] eqn:Hrun.
    pose proof (reads_only_world _ _ _ _ (reads_only_resolve_source _ _) Hrun) as ->.
    simpl in Hsrc. subst o.
    unfold series_integrate, series_setup, bind at 1 2. rewrite Hrun. simpl.
    rewrite bool_decide_eq_false_2 by (by destruct fl).
    unfold bind at 1. rewrite when_bar_emit.
    unfold bind at 1, get_files. simpl. rewrite files_with_bar.
    unfold path_exists. rewrite Hover, bool_decide_eq_true_2 by eauto. done.
  - intros st w1 Hsetup.
    pose proof (keeps_files_series_setup DETECTER_PX_SIZES src kw w) as Hkeep.
    rewrite Hsetup in Hkeep. simpl in Hkeep.
    destruct (series_setup_Returns src kw w w1 st Hsetup)
      as (_ & Hne & _ & _ & _ & Hfirst & _).
    split.
    + apply first_shape_Returns in Hfirst as (img & Hread & Hshape).
      destruct (s_files st) as [|first fl]; [done|].
      exists first, img. simpl in Hread. rewrite Hkeep in Hread. done.
    + intros pre f post Hfiles Hpre Hf.
      destruct (integrate_frames_mismatch kw (s_shape st) (s_mask st) pre post f
                  ([], [], ["q[nm^-1]"]) w1) as (w' & Hloop & Hkeep').
      { by rewrite Hkeep. }
      { by rewrite Hkeep. }
      exists w'. split; [|congruence].
      apply series_integrate_Raises. right. exists st, w1.
      split; [done|]. by rewrite Hfiles.
  - intros e w' Hrun. by apply (series_integrate_Raises_files src kw w w' e).
  - intros d w' (st & w1 & out & w2 & Hsetup & Hloop & -> & ->)%series_integrate_Returns.
    pose proof (keeps_files_series_setup DETECTER_PX_SIZES src kw w) as H1.
    pose proof (keeps_files_integrate_frames kw (s_shape st) (s_mask st)
                  (s_files st) ([], [], ["q[nm^-1]"]) w1) as H2.
    rewrite Hsetup in H1. rewrite Hloop in H2. simpl in H1, H2.
    exists (table_headers st out.2), (q_column r2q kw st out.1.1 :: out.1.2),
           (series_params kw st).
    unfold final_world. rewrite files_with_bar. simpl. rewrite H2, H1.
    split; [apply lookup_insert_eq|].
    split; [intros Hne; rewrite lookup_insert_ne by done; apply lookup_insert_eq|].
    split; [intros Heq; rewrite Heq; apply lookup_insert_eq|].
    intros p Hp1 Hp2. by rewrite !lookup_insert_ne.
  - reflexivity.
  - eexists. split; [vm_compute; reflexivity|]. split.
    + eexists. vm_compute. reflexivity.
    + vm_compute. reflexivity.
Qed.

End series_run.

Lemma batch_failures_witness :
  (series_integrate sample_r2q sample_px_sizes
     (SrcList ["run/f1.tif"; "odd.tif"; "run/f2.tif"])
     (set_dst "old.csv" sample_kwargs) sample_world).1
  = Raises (FileExistsError "old.csv is already exists.")
  ∧ (∃ w', series_integrate sample_r2q sample_px_sizes
             (SrcList ["run/f1.tif"; "odd.tif"; "run/f2.tif"])
             (set_dst "new.csv" sample_kwargs) sample_world
           = (Raises (ValueError "Image size is not match. odd.tif"), w')
           ∧ files w' = files sample_world)
  ∧ ∃ w' header columns params,
      series_integrate sample_r2q sample_px_sizes (SrcPath "run")
        sample_kwargs sample_world = (Returns "run.csv", w')
      ∧ files w' !! "run.csv" = Some (TableFile header columns)
      ∧ files w' !! "run_params.json" = Some (JsonFile params).
Proof.
  split; [|split].
  - destruct (batch_failures sample_r2q sample_px_sizes
                (SrcList ["run/f1.tif"; "odd.tif"; "run/f2.tif"])
                (set_dst "old.csv" sample_kwargs) sample_world) as (Hexists & _).
    rewrite (Hexists ["run/f1.tif"; "odd.tif"; "run/f2.tif"] "old.csv");
      [reflexivity | reflexivity | done | reflexivity | vm_compute; eauto].
  - destruct (batch_failures sample_r2q sample_px_sizes
                (SrcList ["run/f1.tif"; "odd.tif"; "run/f2.tif"])
                (set_dst "new.csv" sample_kwargs) sample_world) as (_ & Hshape & _).
    edestruct Hshape as [_ Hmismatch]; [vm_compute; reflexivity|].
    apply (Hmismatch ["run/f1.tif"] "odd.tif" ["run/f2.tif"]).
    + reflexivity.
    + forall_entries. exists sample_frame. split; reflexivity.
    + exists (Gray (replicate 4 (replicate 5 10))). split; [reflexivity|].
      vm_compute. discriminate.
  - destruct (series_integrate sample_r2q sample_px_sizes (SrcPath "run")
                sample_kwargs sample_world) as [o w'] eqn:Hrun.
    assert (o = Returns "run.csv") as ->
      by (by vm_compute in Hrun; injection Hrun as <- _).
    destruct (batch_failures sample_r2q sample_px_sizes (SrcPath "run")
                sample_kwargs sample_world) as (_ & _ & _ & Hreturns & _).
    destruct (Hreturns "run.csv" w' Hrun)
      as (header & columns & params & Hrecord & Htable & _).
    exists w', header, columns, params. split; [done|].
    split; [by apply Htable | exact Hrecord].
Defined.

(** ** Calibration *)

Lemma resolve_calibration_run (kw : kwargs) (w : world) :
  resolve_calibration (camera_length kw) (wave_length kw) (slope kw) (intercept kw) w
  = (Returns (calibration_of kw),
     MkWorld (files w)
             (warned w ++ if bool_decide (calibration_of kw = "none")
                          then no_calibration_warning else [])
             (bar w)).
Proof.
  unfold resolve_calibration, calibration_of.
  destruct w as [fs wn br]. simpl.
  destruct (fpositive (camera_length kw) && fpositive (wave_length kw));
    [by rewrite app_nil_r|].
  destruct (negb (isnan (slope kw)) && negb (isnan (intercept kw)));
    [by rewrite app_nil_r|].
  done.
Qed.

Section calibration.

Variable r2q : list Q → float64 → float64 → float64 → list float64.
Variable DETECTER_PX_SIZES : gmap string float64.

(** C3 (as the code has it): the mode is 'geometry' iff camera_length > 0
    and wave_length > 0; otherwise 'linear_regression' iff neither slope
    nor intercept is NaN (an infinite value is accepted), with
    q = intercept + slope * r; otherwise 'none'.  Exactly one mode is
    chosen, and a run that returns has written it to the record.  In the
    mode 'none' the run still returns, has issued exactly one warning, and
    the first column is r * px_size under the header "r[mm]"; in the two
    other modes no warning is issued and the header is "q[nm^-1]". *)
Theorem calibration_modes (src : source) (kw : kwargs) (w : world) :
  (calibration_of kw = "geometry"
     ↔ fpositive (camera_length kw) = true ∧ fpositive (wave_length kw) = true)
  ∧ (calibration_of kw = "linear_regression"
     ↔ calibration_of kw ≠ "geometry"
       ∧ isnan (slope kw) = false ∧ isnan (intercept kw) = false)
  ∧ (calibration_of kw = "none"
     ↔ calibration_of kw ≠ "geometry" ∧ calibration_of kw ≠ "linear_regression")
  ∧ ∀ d w',
      series_integrate r2q DETECTER_PX_SIZES src kw w = (Returns d, w') →
      ∃ px r header columns params,
        files w' = <[paramfile_of d := JsonFile params]>
                     (<[d := TableFile header (first_column r2q kw px r :: columns)]>
                        (files w))
        ∧ params !! "calibration_type" = Some (JStr (calibration_of kw))
        ∧ params !! "px_size[mm]" = Some (JNum px)
        ∧ warned w' = warned w ++ (if bool_decide (calibration_of kw = "none")
                                   then no_calibration_warning else [])
        ∧ head header = Some (if bool_decide (calibration_of kw = "none")
                              then "r[mm]" else "q[nm^-1]")
        ∧ ∃ f img m, imread (files w) f = Some (Gray img)
                     ∧ r = (average_frame kw m img).1.
Proof.
  split; [|split; [|split]].
  - unfold calibration_of.
    destruct (fpositive (camera_length kw)), (fpositive (wave_length kw));
      simpl; repeat case_match; split; (done || by intros []).
  - unfold calibration_of.
    destruct (fpositive (camera_length kw) && fpositive (wave_length kw));
      [split; [done | by intros []]|].
    destruct (isnan (slope kw)), (isnan (intercept kw)); simpl;
      split; (done || by intros (_ & ? & ?)).
  - unfold calibration_of. repeat case_match; split; (done || by intros []).
  - intros d w' (st & w1 & out & w2 & Hsetup & Hloop & -> & ->)%series_integrate_Returns.
    pose proof (keeps_files_series_setup DETECTER_PX_SIZES src kw w) as H1.
    rewrite Hsetup in H1. simpl in H1.
    destruct (series_setup_Returns DETECTER_PX_SIZES src kw w w1 st Hsetup)
      as (_ & Hne & _ & _ & Hcal & _ & _).
    rewrite resolve_calibration_run in Hcal. injection Hcal as Hmode Hw1.
    pose proof (keeps_files_integrate_frames kw (s_shape st) (s_mask st)
                  (s_files st) ([], [], ["q[nm^-1]"]) w1) as H2.
    rewrite Hloop in H2. simpl in H2.
    apply integrate_frames_Returns in Hloop as (_ & Hhdr & _ & Hwarn & Hlast).
    exists (s_px_size st), out.1.1, (table_headers st out.2), out.1.2,
           (series_params kw st).
    split; [|split; [|split; [|split; [|split]]]].
    + unfold final_world. rewrite files_with_bar. simpl.
      rewrite H2, H1. do 3 f_equal.
      unfold q_column, first_column. by rewrite Hmode.
    + by rewrite Hmode.
    + done.
    + unfold final_world. rewrite warned_with_bar. simpl.
      rewrite Hwarn, <- Hw1. simpl. by rewrite warned_with_bar.
    + unfold table_headers. rewrite <- Hmode, Hhdr. simpl.
      unfold calibration_of. by repeat case_match.
    + destruct (last (s_files st)) as [f|] eqn:Hf.
      * destruct Hlast as (img & Hread & _ & Hr).
        exists f, img, (s_mask st). by rewrite <- H1.
      * by apply last_None in Hf.
Qed.

End calibration.

Lemma calibration_modes_witness :
  ∃ w' header columns,
    series_integrate sample_r2q sample_px_sizes (SrcPath "run") sample_kwargs sample_world
    = (Returns "run.csv", w')
    ∧ files w' !! "run.csv" = Some (TableFile header columns)
    ∧ head header = Some "r[mm]"
    ∧ warned w' = no_calibration_warning.
Proof.
  destruct (calibration_modes sample_r2q sample_px_sizes (SrcPath "run")
              sample_kwargs sample_world) as (_ & _ & _ & Hrun).
  edestruct (Hrun "run.csv")
    as (px & r & header & columns & params & Hfiles & _ & _ & Hwarn & Hhead & _);
    [vm_compute; reflexivity|].
  eexists _, header, _. split; [vm_compute; reflexivity|].
  split; [|split].
  - rewrite Hfiles. by rewrite lookup_insert_ne, lookup_insert_eq.
  - exact Hhead.
  - exact Hwarn.
Defined.

(** C3 (as stated) fails for an infinite slope: it is not NaN, so the mode
    is 'linear_regression', where the stated rule gives 'none'; no warning
    is issued and the header stays "q[nm^-1]". *)
Lemma calibration_counterexample :
  isfinite (slope (set_calibration NaN NaN PInf (Fin 0) sample_kwargs)) = false
  ∧ calibration_as_stated (set_calibration NaN NaN PInf (Fin 0) sample_kwargs) = "none"
  ∧ ∃ w' params header columns,
      series_integrate sample_r2q sample_px_sizes (SrcPath "run")
        (set_calibration NaN NaN PInf (Fin 0) sample_kwargs) sample_world
      = (Returns "run.csv", w')
      ∧ files w' !! "run_params.json" = Some (JsonFile params)
      ∧ params !! "calibration_type" = Some (JStr "linear_regression")
      ∧ files w' !! "run.csv" = Some (TableFile header columns)
      ∧ head header = Some "q[nm^-1]"
      ∧ warned w' = [].
Proof.
  split; [done|]. split; [done|].
  eexists _, _, _, _. split; [vm_compute; reflexivity|].
  split; [vm_compute; reflexivity|].
  split; [vm_compute; reflexivity|].
  split; [vm_compute; reflexivity|]. done.
Qed.

(** ** Pixel size *)

Section pixel_size.

Variable r2q : list Q → float64 → float64 → float64 → list float64.
Variable DETECTER_PX_SIZES : gmap string float64.

(** A run whose frames resolve and whose destination is free raises what
    the pixel size resolution raises, with only the bar opened. *)
Lemma series_integrate_px_raises (src : source) (kw : kwargs) (w : world)
    (fl : list string) (d : string) (e : exn) :
  (resolve_source src (dst kw) w).1 = Returns (fl, d) → fl ≠ [] →
  overwrite kw = true ∨ files w !! d = None →
  (resolve_px_size DETECTER_PX_SIZES (detecter kw) (px_size kw)
     (with_bar (verbose kw) (BarOpen (length fl)) w)).1 = Raises e →
  series_integrate r2q DETECTER_PX_SIZES src kw w
  = (Raises e, with_bar (verbose kw) (BarOpen (length fl)) w).
Proof.
  intros Hsrc Hfl Hfree Hpx.
  destruct (resolve_source src (dst kw) w) as [o w0] eqn:Hrun.
  pose proof (reads_only_world _ _ _ _ (reads_only_resolve_source _ _) Hrun) as ->.
  simpl in Hsrc. subst o.
  destruct (resolve_px_size _ _ _ _) as [o wb] eqn:Hrun_px.
  pose proof (reads_only_world _ _ _ _ (reads_only_resolve_px_size _ _ _) Hrun_px)
    as ->.
  simpl in Hpx. subst o.
  unfold series_integrate, series_setup, bind at 1 2. rewrite Hrun. simpl.
  rewrite bool_decide_eq_false_2 by (by destruct fl).
  unfold bind at 1. rewrite when_bar_emit.
  unfold bind at 1, get_files. simpl. rewrite files_with_bar.
  assert (negb (overwrite kw) && path_exists (files w) d = false) as ->.
  { destruct Hfree as [-> | Hnone]; [done|].
    unfold path_exists. rewrite Hnone, bool_decide_eq_false_2; [|by intros []].
    apply andb_false_r. }
  unfold bind at 1. by rewrite Hrun_px.
Qed.

(** C4 (as the code has it): a detector name recognized after upper-casing
    overrides any explicit px_size with its known pixel size; with an
    empty name the call fails only when px_size is NaN (a pixel size that
    is zero, negative or infinite is accepted); a non-empty name that is
    not recognized fails with the error that names it. *)
Theorem px_size_resolution (src : source) (kw : kwargs) (w : world) :
  (∀ fl d,
     (resolve_source src (dst kw) w).1 = Returns (fl, d) → fl ≠ [] →
     overwrite kw = true ∨ files w !! d = None →
     DETECTER_PX_SIZES !! upper (detecter kw) = None →
     (detecter kw = "" → isnan (px_size kw) = true →
      series_integrate r2q DETECTER_PX_SIZES src kw w
      = (Raises (ValueError "either `px_size` or `detecter` must be set"),
         with_bar (verbose kw) (BarOpen (length fl)) w))
     ∧ (detecter kw ≠ "" →
        series_integrate r2q DETECTER_PX_SIZES src kw w
        = (Raises (ValueError ("unrecognized detecter `" +:+ detecter kw +:+ "`")),
           with_bar (verbose kw) (BarOpen (length fl)) w)))
  ∧ (∀ d w',
       series_integrate r2q DETECTER_PX_SIZES src kw w = (Returns d, w') →
       ∃ params px,
         files w' !! paramfile_of d = Some (JsonFile params)
         ∧ params !! "px_size[mm]" = Some (JNum px)
         ∧ match DETECTER_PX_SIZES !! upper (detecter kw) with
           | Some known => px = known
           | None => detecter kw = "" ∧ isnan (px_size kw) = false
                     ∧ px = px_size kw
           end).
Proof.
  split.
  - intros fl d Hsrc Hfl Hfree Hnone. split.
    + intros Hempty Hnan.
      apply (series_integrate_px_raises src kw w fl d); try done.
      unfold resolve_px_size. rewrite Hnone, Hempty, Hnan. done.
    + intros Hname.
      apply (series_integrate_px_raises src kw w fl d); try done.
      unfold resolve_px_size. rewrite Hnone.
      by rewrite bool_decide_eq_false_2.
  - intros d w' (st & w1 & out & w2 & Hsetup & Hloop & -> & ->)%series_integrate_Returns.
    destruct (series_setup_Returns DETECTER_PX_SIZES src kw w w1 st Hsetup)
      as (_ & _ & _ & Hpx & _).
    exists (series_params kw st), (s_px_size st).
    split; [|split; [done|]].
    + unfold final_world. rewrite files_with_bar. simpl.
      apply lookup_insert_eq.
    + unfold resolve_px_size in Hpx.
      destruct (DETECTER_PX_SIZES !! upper (detecter kw)) as [known|].
      * by injection Hpx as <-.
      * case_bool_decide; [|done].
        destruct (isnan (px_size kw)); [done|]. by injection Hpx as <-.
Qed.

End pixel_size.

Lemma px_size_resolution_witness :
  (series_integrate sample_r2q sample_px_sizes (SrcPath "run")
     (set_px_size (Fin 1) "Eiger9M" sample_kwargs) sample_world).1
  = Raises (ValueError "unrecognized detecter `Eiger9M`")
  ∧ (series_integrate sample_r2q sample_px_sizes (SrcPath "run")
       (set_px_size NaN "" sample_kwargs) sample_world).1
    = Raises (ValueError "either `px_size` or `detecter` must be set")
  ∧ ∃ w' params,
      series_integrate sample_r2q sample_px_sizes (SrcPath "run")
        (set_px_size (Fin 1) "pilatus" sample_kwargs) sample_world
      = (Returns "run.csv", w')
      ∧ files w' !! "run_params.json" = Some (JsonFile params)
      ∧ params !! "px_size[mm]" = Some (JNum (Fin (172 # 1000))).
Proof.
  split; [|split].
  - destruct (px_size_resolution sample_r2q sample_px_sizes (SrcPath "run")
                (set_px_size (Fin 1) "Eiger9M" sample_kwargs) sample_world)
      as [Hraise _].
    edestruct (Hraise ["run/f1.tif"; "run/f2.tif"; "run/f3.tif"] "run.csv")
      as [_ Hname]; [reflexivity | done | by right | reflexivity |].
    by rewrite Hname.
  - destruct (px_size_resolution sample_r2q sample_px_sizes (SrcPath "run")
                (set_px_size NaN "" sample_kwargs) sample_world)
      as [Hraise _].
    edestruct (Hraise ["run/f1.tif"; "run/f2.tif"; "run/f3.tif"] "run.csv")
      as [Hnan _]; [reflexivity | done | by right | reflexivity |].
    by rewrite Hnan.
  - destruct (px_size_resolution sample_r2q sample_px_sizes (SrcPath "run")
                (set_px_size (Fin 1) "pilatus" sample_kwargs) sample_world)
      as [_ Hret].
    edestruct (Hret "run.csv") as (params & px & Hfile & Hpx & Hknown);
      [vm_compute; reflexivity|].
    eexists _, params. split; [vm_compute; reflexivity|].
    split; [exact Hfile|].
    rewrite Hpx. f_equal. f_equal. exact Hknown.
Defined.

(** C4 (as stated) fails for a pixel size that is set but not positive:
    with an empty detector name and px_size = -1 the run returns and
    records the negative pixel size. *)
Lemma px_size_counterexample :
  fpositive (Fin (-1)) = false
  ∧ ∃ w' params,
      series_integrate sample_r2q sample_px_sizes (SrcPath "run")
        (set_px_size (Fin (-1)) "" sample_kwargs) sample_world
      = (Returns "run.csv", w')
      ∧ files w' !! "run_params.json" = Some (JsonFile params)
      ∧ params !! "px_size[mm]" = Some (JNum (Fin (-1))).
Proof.
  split; [done|].
  eexists _, _. split; [vm_compute; reflexivity|].
  split; vm_compute; reflexivity.
Qed.

(** ** Saving and reading a mask *)

Lemma amap_amap {A B C} (f : A → B) (g : B → C) (a : array2 A) :
  amap g (amap f a) = amap (g ∘ f) a.
Proof.
  unfold amap. rewrite <- list_fmap_compose. apply list_fmap_ext.
  intros _ row _. simpl. by rewrite <- list_fmap_compose.
Qed.

Lemma amap_ext_Forall {A B} (P : A → Prop) (f g : A → B) (a : array2 A) :
  Forall (Forall P) a → (∀ v, P v → f v = g v) → amap f a = amap g a.
Proof.
  intros Ha Hfg. unfold amap.
  induction Ha as [|row a Hrow _ IH]; [done|].
  rewrite !fmap_cons, IH. f_equal.
  induction Hrow as [|v row Hv _ IHrow]; [done|].
  by rewrite !fmap_cons, IHrow, Hfg.
Qed.

(** The constructor establishes the dtype of the private array. *)
Lemma Mask_init_wf (shape : Z * Z) (value : option (array2 Z)) (m : Mask) :
  Mask_init shape value = inr m → Mask_wf m.
Proof.
  unfold Mask_init, Mask_wf. destruct value as [v|].
  - intros [= <-]. simpl. unfold astype_uint8, amap.
    apply Forall_fmap, Forall_forall. intros row _.
    apply Forall_fmap, Forall_forall. intros x _. simpl.
    apply Z.mod_pos_bound. lia.
  - case_bool_decide; [done|]. intros [= <-]. simpl.
    apply Forall_replicate, Forall_replicate. lia.
Qed.

(** C9: for every mask and every file name, when the image format keeps
    zero and non-zero levels apart, [Mask.save] followed by [Mask.read] of
    the same file returns a mask with the same binary pattern; the array
    read back holds 1 where the saved level was positive and 0 elsewhere. *)
Theorem mask_round_trip (stored : Z → Z) (m : Mask) (file : string) (w : world) :
  keeps_pattern stored → Mask_wf m →
  ∃ m' w',
    (run Mask_save stored m file; Mask_read file) w = (Returns m', w')
    ∧ Mask_value m' = Mask_value m
    ∧ mask_array m' = Mask_value m.
Proof.
  intros Hstored Hwf.
  eexists _, _. split.
  - unfold bind, Mask_save, write_file, Mask_read, _readmask, bind, get_files,
      path_exists, imread. simpl.
    rewrite lookup_insert_eq, bool_decide_eq_true_2 by eauto. simpl.
    reflexivity.
  - assert (astype_uint8 (astype_uint8 (clip_positive (amap stored (mask_array m))))
            = Mask_value m) as Hread.
    { unfold astype_uint8, clip_positive, Mask_value. rewrite !amap_amap.
      apply (amap_ext_Forall _ _ _ _ Hwf). intros v Hv. simpl.
      destruct (Hstored v Hv) as [Hzero Hpos].
      destruct (decide (v = 0)) as [->|Hne].
      - rewrite Hzero by done. done.
      - rewrite !bool_decide_eq_true_2 by lia. done. }
    simpl. rewrite Hread. split; [|done].
    unfold Mask_value. simpl. rewrite amap_amap.
    apply (amap_ext_Forall (λ _, True)).
    + apply Forall_forall. intros row _. by apply Forall_forall.
    + intros v _. simpl. by repeat case_bool_decide.
Qed.

Lemma mask_round_trip_witness :
  ∃ m' w',
    (run Mask_save pbm_stored (MkMask [[1; 0; 7]; [0; 255; 1]]) "mask.pbm";
     Mask_read "mask.pbm") sample_world = (Returns m', w')
    ∧ Mask_value m' = [[1; 0; 1]; [0; 1; 1]].
Proof.
  destruct (mask_round_trip pbm_stored (MkMask [[1; 0; 7]; [0; 255; 1]])
              "mask.pbm" sample_world) as (m' & w' & Hrun & Hvalue & _).
  - intros v Hv. unfold pbm_stored. case_bool_decide; split; (done || lia).
  - unfold Mask_wf. simpl. forall_entries; lia.
  - exists m', w'. split; [exact Hrun|]. rewrite Hvalue. reflexivity.
Defined.

(** ** The parameter record and the wrapper *)

Section record.

Variable r2q : list Q → float64 → float64 → float64 → list float64.
Variable DETECTER_PX_SIZES : gmap string float64.

(** A run that returns has written the record last, with these fields,
    in every calibration mode. *)
Lemma parameter_record_written (src : source) (kw : kwargs) (w w' : world)
    (d : string) :
  series_integrate r2q DETECTER_PX_SIZES src kw w = (Returns d, w') →
  ∃ params mode px,
    files w' !! paramfile_of d = Some (JsonFile params)
    ∧ params !! "center_x[px]" = Some (JInt (center kw).1)
    ∧ params !! "center_y[px]" = Some (JInt (center kw).2)
    ∧ params !! "calibration_type" = Some (JStr mode)
    ∧ params !! "px_size[mm]" = Some (JNum px)
    ∧ params !! "camera_length[mm]" = Some (JNum (camera_length kw))
    ∧ params !! "wave_length[AA]" = Some (JNum (wave_length kw))
    ∧ params !! "slope[nm^-1/px]" = Some (JNum (slope kw))
    ∧ params !! "intercept[nm^-1]" = Some (JNum (intercept kw))
    ∧ params !! "flip" = Some (JStr (flip_name (flip kw))).
Proof.
  intros (st & w1 & out & w2 & _ & _ & -> & ->)%series_integrate_Returns.
  exists (series_params kw st), (s_calibration st), (s_px_size st).
  split; [|by repeat split].
  unfold final_world. rewrite files_with_bar. simpl. apply lookup_insert_eq.
Qed.

(** When the parameter file is the destination itself, the record
    replaces the table that was just written. *)
Lemma colliding_parameter_file (src : source) (kw : kwargs) (w w' : world)
    (d : string) :
  series_integrate r2q DETECTER_PX_SIZES src kw w = (Returns d, w') →
  paramfile_of d = d →
  ∃ params, files w' = <[d := JsonFile params]> (files w).
Proof.
  intros Hrun Hsame.
  pose proof (keeps_files_series_setup DETECTER_PX_SIZES src kw w) as H1.
  apply series_integrate_Returns in Hrun
    as (st & w1 & out & w2 & Hsetup & Hloop & -> & ->).
  pose proof (keeps_files_integrate_frames kw (s_shape st) (s_mask st)
                (s_files st) ([], [], ["q[nm^-1]"]) w1) as H2.
  rewrite Hsetup in H1. rewrite Hloop in H2. simpl in H1, H2.
  exists (series_params kw st).
  unfold final_world. rewrite files_with_bar. simpl.
  by rewrite Hsame, insert_insert_eq, H2, H1.
Qed.

(** [file_integrate] runs [series_integrate] on the one file with the
    progress bar off, in the same world, and drops what it returns. *)
Lemma file_integrate_run (file : string) (kw : kwargs) (w : world) :
  file_integrate r2q DETECTER_PX_SIZES file kw w
  = (match (series_integrate r2q DETECTER_PX_SIZES (SrcPath file)
               (set_verbose false kw) w).1 with
     | Returns _ => Returns None
     | Raises e => Raises e
     end,
     (series_integrate r2q DETECTER_PX_SIZES (SrcPath file)
        (set_verbose false kw) w).2).
Proof.
  unfold file_integrate, bind.
  by destruct (series_integrate _ _ _ _ w) as [[d|e] w'].
Qed.

End record.

(** C7 (code at the failing input): with [dst = "profile.txt"] the
    parameter file is "profile.txt" itself; the run returns, and afterwards
    "profile.txt" holds the record and no other file has changed, so the
    table is nowhere. *)
Theorem parameter_record_replaces_table :
  paramfile_of "profile.txt" = "profile.txt"
  ∧ ∃ w',
      series_integrate sample_r2q sample_px_sizes (SrcPath "run")
        (set_dst "profile.txt" sample_kwargs) sample_world
      = (Returns "profile.txt", w')
      ∧ (∃ params, files w' !! "profile.txt" = Some (JsonFile params)
                   ∧ params !! "calibration_type" = Some (JStr "none"))
      ∧ delete "profile.txt" (files w') = files sample_world.
Proof.
  split; [reflexivity|].
  eexists. split; [vm_compute; reflexivity|]. split.
  - eexists. split; vm_compute; reflexivity.
  - vm_compute. reflexivity.
Qed.

(** C10 (code at the failing input): on the single frame "run/f1.tif"
    [series_integrate] with the bar off returns the output path
    "run/f1.csv", and [file_integrate] leaves the same world and
    returns [None]. *)
Theorem file_integrate_returns_none :
  (series_integrate sample_r2q sample_px_sizes (SrcPath "run/f1.tif")
     (set_verbose false sample_kwargs) sample_world).1 = Returns "run/f1.csv"
  ∧ (file_integrate sample_r2q sample_px_sizes "run/f1.tif" sample_kwargs
       sample_world).1 = Returns None
  ∧ (file_integrate sample_r2q sample_px_sizes "run/f1.tif" sample_kwargs
       sample_world).2
    = (series_integrate sample_r2q sample_px_sizes (SrcPath "run/f1.tif")
         (set_verbose false sample_kwargs) sample_world).2.
Proof.
  split; [by vm_compute|]. split; [by vm_compute|].
  by rewrite file_integrate_run.
Qed.

(** * Further properties of the kernel *)

Lemma total_alter (f : Z → Z) (l : list Z) (i : nat) (x : Z) :
  l !! i = Some x → total (alter f i l) = total l - x + f x.
Proof.
  unfold total. revert i. induction l as [|a l IH]; intros i Hi; [done|].
  destruct i as [|i].
  - injection Hi as ->. simpl. lia.
  - change (alter f (S i) (a :: l)) with (a :: alter f i l).
    simpl foldr. rewrite (IH i Hi). lia.
Qed.

Lemma total_replicate_0 (n : nat) : total (replicate n 0) = 0.
Proof. unfold total. induction n as [|n IH]; simpl; [done | by rewrite IH]. Qed.

(** The loop on any pixels of the image adds one count and the intensity of
    each pixel that reaches the threshold to the totals over all bins. *)
Lemma fold_bin_pixel_total (img : array2 Z) (cx cy threshold : Z)
    (ps : list (nat * nat)) (acc : list Z * list Z) :
  length acc.1 = r_range (shape1 img) (shape0 img) cx cy →
  length acc.2 = r_range (shape1 img) (shape0 img) cx cy →
  Forall (λ p, (p.1 < shape1 img)%nat ∧ (p.2 < shape0 img)%nat) ps →
  let sel := filter (λ p, threshold ≤ at2 img p.2 p.1) ps in
  let acc' := foldl (λ acc p, bin_pixel img cx cy threshold p.1 p.2 acc) acc ps in
  total acc'.1 = total acc.1 + Z.of_nat (length sel)
  ∧ total acc'.2 = total acc.2 + intensity_sum img sel.
Proof.
  intros H1 H2 Hps. revert acc H1 H2.
  induction Hps as [|p ps [Hx Hy] _ IH]; intros acc H1 H2; simpl.
  - unfold intensity_sum. simpl. lia.
  - rewrite filter_cons.
    destruct (bin_pixel_length img cx cy threshold p.1 p.2 acc) as [L1 L2].
    destruct (IH (bin_pixel img cx cy threshold p.1 p.2 acc)) as [E1 E2];
      [congruence..|].
    rewrite E1, E2. unfold bin_pixel.
    destruct (decide (threshold ≤ at2 img p.2 p.1)) as [Hge|Hlt].
    + rewrite (bool_decide_eq_true_2 _ Hge). cbn [fst snd].
      destruct (bin_index_in_range (shape1 img) (shape0 img) cx cy p.1 p.2 Hx Hy)
        as [_ Hidx].
      destruct (lookup_lt_is_Some_2 acc.1
                  (bin_index (shape1 img) (shape0 img) cx cy p.1 p.2)) as [c Hc];
        [lia|].
      destruct (lookup_lt_is_Some_2 acc.2
                  (bin_index (shape1 img) (shape0 img) cx cy p.1 p.2)) as [s Hs];
        [lia|].
      rewrite (total_alter _ _ _ _ Hc), (total_alter _ _ _ _ Hs).
      unfold intensity_sum. rewrite fmap_cons, length_cons. simpl foldr.
      split; lia.
    + rewrite (bool_decide_eq_false_2 _ Hlt). done.
Qed.

(** X1: every pixel whose intensity reaches the threshold is counted in
    exactly one bin and no other pixel is: over all bins the counts add up
    to the number of such pixels and the sums to their total intensity. *)
Theorem kernel_counts_every_pixel (img : array2 Z) (cx cy threshold : Z) :
  total (accumulate img cx cy threshold).1
    = Z.of_nat (length (above_threshold img threshold))
  ∧ total (accumulate img cx cy threshold).2
    = intensity_sum img (above_threshold img threshold).
Proof.
  rewrite accumulate_pixels.
  edestruct (fold_bin_pixel_total img cx cy threshold
               (pixels (shape1 img) (shape0 img))
               (replicate (r_range (shape1 img) (shape0 img) cx cy) 0,
                replicate (r_range (shape1 img) (shape0 img) cx cy) 0))
    as [E1 E2];
    [| |apply Forall_forall; intros p Hp; by apply elem_of_pixels in Hp|].
  - simpl. apply length_replicate.
  - simpl. apply length_replicate.
  - rewrite E1, E2. simpl. rewrite !total_replicate_0. done.
Qed.

Lemma filter_none {A} (P : A → Prop) `{!∀ x, Decision (P x)} (l : list A) :
  (∀ x, x ∈ l → ¬ P x) → filter P l = [].
Proof.
  intros Hnone. destruct (filter P l) as [|a l'] eqn:Hf; [done|].
  assert (a ∈ filter P l) as Ha by (rewrite Hf; left).
  apply list_elem_of_filter in Ha as [HP Hin]. by destruct (Hnone a Hin).
Qed.

Lemma intensity_sum_uniform (img : array2 Z) (V : Z) (ps : list (nat * nat)) :
  Forall (λ p, at2 img p.2 p.1 = V) ps →
  intensity_sum img ps = V * Z.of_nat (length ps).
Proof.
  unfold intensity_sum. induction 1 as [|p ps Hp _ IH]; [simpl; lia|].
  rewrite fmap_cons, length_cons. simpl foldr. rewrite Hp, IH. lia.
Qed.

Lemma mean_of_equal (V : Z) (n : nat) :
  (0 < n)%nat →
  (inject_Z (V * Z.of_nat n) / inject_Z (Z.of_nat n) == inject_Z V)%Q.
Proof.
  intros Hn. destruct n as [|n]; [lia|].
  rewrite inject_Z_mult. field.
  change 0%Q with (inject_Z 0). rewrite inject_Z_injective. lia.
Qed.

(** X2: on an image of uniform intensity V that reaches the threshold,
    every bin that holds a pixel has the mean V. *)
Theorem uniform_image_means (img : array2 Z) (cx cy threshold V : Z) (k : nat) :
  uniform img V → threshold ≤ V →
  (k < r_range (shape1 img) (shape0 img) cx cy)%nat →
  contributing img cx cy threshold k ≠ [] →
  ∃ q, (_radial_average img cx cy threshold).2 !! k = Some (Fin q)
       ∧ (q == inject_Z V)%Q.
Proof.
  intros Huni Hge Hk Hsome.
  destruct (accumulate_spec img cx cy threshold k Hk) as [Hcnt Hsum].
  assert (0 < length (contributing img cx cy threshold k))%nat as Hlen.
  { destruct (contributing img cx cy threshold k); [done | simpl; lia]. }
  rewrite (intensity_sum_uniform img V) in Hsum.
  - eexists. split.
    + rewrite radial_average_means, lookup_zip_with, Hcnt, Hsum. simpl.
      unfold bin_mean. rewrite bool_decide_eq_true_2 by lia. reflexivity.
    + by apply mean_of_equal.
  - apply Forall_forall. intros p Hp. unfold contributing in Hp.
    apply list_elem_of_filter in Hp as [_ [Hx Hy]%elem_of_pixels].
    by apply Huni.
Qed.

Lemma uniform_image_means_witness :
  ∃ q, (_radial_average (replicate 3 (replicate 3 10)) 1 1 2).2 !! 1%nat = Some (Fin q)
       ∧ (q == inject_Z 10)%Q.
Proof.
  apply (uniform_image_means (replicate 3 (replicate 3 10)) 1 1 2 10 1).
  - intros x y Hx Hy. simpl in Hx, Hy.
    destruct y as [|[|[|y]]]; [| | |lia];
      (destruct x as [|[|[|x]]]; [reflexivity..|lia]).
  - lia.
  - vm_compute. lia.
  - vm_compute. discriminate.
Defined.

(** X3: when no pixel reaches the threshold every bin has the count 0 and
    the mean 0; in particular, under a positive threshold, a mask of zeros
    over the whole frame gives the mean 0 in every bin. *)
Theorem nothing_above_threshold (img : array2 Z) (cx cy threshold : Z) :
  (all_below img threshold →
   (accumulate img cx cy threshold).1
     = replicate (r_range (shape1 img) (shape0 img) cx cy) 0
   ∧ (_radial_average img cx cy threshold).2
     = replicate (r_range (shape1 img) (shape0 img) cx cy) (Fin 0%Q))
  ∧ ∀ mask,
      rectangular img → rectangular mask → shape mask = shape img →
      all_zero mask → 0 < threshold →
      (_mask_and_average img mask cx cy threshold).2
      = replicate (r_range (shape1 img) (shape0 img) cx cy) (Fin 0%Q).
Proof.
  assert (∀ a : array2 Z, all_below a threshold →
            (accumulate a cx cy threshold).1
              = replicate (r_range (shape1 a) (shape0 a) cx cy) 0
            ∧ (_radial_average a cx cy threshold).2
              = replicate (r_range (shape1 a) (shape0 a) cx cy) (Fin 0%Q)) as Hbelow.
  { intros a Ha.
    destruct (accumulate_length a cx cy threshold) as [L1 L2].
    assert (∀ k, (k < r_range (shape1 a) (shape0 a) cx cy)%nat →
              (accumulate a cx cy threshold).1 !! k = Some 0
              ∧ (accumulate a cx cy threshold).2 !! k = Some 0) as Hbins.
    { intros k Hk.
      destruct (accumulate_spec a cx cy threshold k Hk) as [Hcnt Hsum].
      assert (contributing a cx cy threshold k = []) as Hnone.
      { unfold contributing. apply filter_none.
        intros p [Hx Hy]%elem_of_pixels [Hge _].
        specialize (Ha p.1 p.2 Hx Hy). lia. }
      by rewrite Hnone in Hcnt, Hsum. }
    split.
    - apply list_eq. intros k.
      destruct (decide (k < r_range (shape1 a) (shape0 a) cx cy)%nat) as [Hk|Hk].
      + rewrite lookup_replicate_2 by done. by apply Hbins.
      + rewrite (lookup_ge_None_2 (accumulate a cx cy threshold).1) by lia.
        symmetry. apply lookup_replicate_None. lia.
    - apply list_eq. intros k. rewrite radial_average_means, lookup_zip_with.
      destruct (decide (k < r_range (shape1 a) (shape0 a) cx cy)%nat) as [Hk|Hk].
      + destruct (Hbins k Hk) as [-> ->]. by rewrite lookup_replicate_2.
      + rewrite (lookup_ge_None_2 (accumulate a cx cy threshold).1) by lia.
        symmetry. apply lookup_replicate_None. lia. }
  split; [apply Hbelow|].
  intros mask Himg Hmask Hshape Hzero Hpos.
  pose proof (mul2_shape img mask Hshape) as [= S0 S1].
  unfold _mask_and_average.
  destruct (Hbelow (mul2 img mask)) as [_ Hmeans]; [|by rewrite Hmeans, S0, S1].
  intros x y Hx Hy. rewrite S1 in Hx. rewrite S0 in Hy.
  rewrite at2_mul2 by done.
  assert (at2 mask y x = 0) as ->; [|lia].
  unfold at2.
  destruct (mask !! y) as [row|] eqn:Hrow; simpl; [|done].
  destruct (row !! x) as [v|] eqn:Hv; simpl; [|done].
  pose proof (Forall_lookup_1 _ _ _ _ Hzero Hrow) as Hr.
  exact (Forall_lookup_1 _ _ _ _ Hr Hv).
Qed.

Lemma nothing_above_threshold_witness :
  (_mask_and_average [[5; 6]; [7; 8]] [[0; 0]; [0; 0]] 0 0 2).2
  = [Fin 0%Q; Fin 0%Q; Fin 0%Q].
Proof.
  destruct (nothing_above_threshold [[5; 6]; [7; 8]] 0 0 2) as [_ H].
  rewrite (H [[0; 0]; [0; 0]]).
  - reflexivity.
  - unfold rectangular. by forall_entries.
  - unfold rectangular. by forall_entries.
  - reflexivity.
  - unfold all_zero. by forall_entries.
  - lia.
Defined.

Lemma r_range_ge_2 (width height : nat) (cx cy : Z) :
  (0 < width)%nat → (0 < height)%nat → (2 ≤ r_range width height cx cy)%nat.
Proof.
  intros Hw Hh.
  destruct (amin_r_mesh width height cx cy Hw Hh) as [_ Hmin].
  destruct (amax_r_mesh width height cx cy Hw Hh) as [(x & y & Hx & Hy & Hat) _].
  pose proof (Z.sqrt_le_mono _ _ (Hmin x y Hx Hy)) as Hle. rewrite Hat in Hle.
  unfold r_range, max_r, min_r. lia.
Qed.

(** X4: on every non-empty image the kernel returns at least two bins, and
    the last bin is never reached by a pixel: its count and its mean are 0
    for every centre and every threshold. *)
Theorem last_bin_is_empty (img : array2 Z) (cx cy threshold : Z) :
  (0 < size2 img)%nat →
  (2 ≤ r_range (shape1 img) (shape0 img) cx cy)%nat
  ∧ (accumulate img cx cy threshold).1
      !! (r_range (shape1 img) (shape0 img) cx cy - 1)%nat = Some 0
  ∧ (_radial_average img cx cy threshold).2
      !! (r_range (shape1 img) (shape0 img) cx cy - 1)%nat = Some (Fin 0%Q).
Proof.
  intros Hsize. unfold size2 in Hsize.
  assert (0 < shape1 img)%nat as Hw by nia.
  assert (0 < shape0 img)%nat as Hh by nia.
  pose proof (r_range_ge_2 (shape1 img) (shape0 img) cx cy Hw Hh) as Hn.
  split; [done|].
  destruct (accumulate_spec img cx cy threshold
              (r_range (shape1 img) (shape0 img) cx cy - 1)) as [Hcnt Hsum]; [lia|].
  assert (contributing img cx cy threshold
            (r_range (shape1 img) (shape0 img) cx cy - 1) = []) as Hnone.
  { unfold contributing. apply filter_none.
    intros p [Hx Hy]%elem_of_pixels [_ Hbin].
    destruct (bin_index_in_range (shape1 img) (shape0 img) cx cy p.1 p.2 Hx Hy)
      as [_ Hlt]. lia. }
  rewrite Hnone in Hcnt, Hsum. split; [done|].
  by rewrite radial_average_means, lookup_zip_with, Hcnt, Hsum.
Qed.

Lemma last_bin_is_empty_witness :
  (_radial_average [[1; 2; 3]; [4; 5; 6]] 1 1 2).2 !! 2%nat = Some (Fin 0%Q).
Proof.
  destruct (last_bin_is_empty [[1; 2; 3]; [4; 5; 6]] 1 1 2) as (_ & _ & H).
  - vm_compute. lia.
  - exact H.
Defined.

(** X5: when the beam centre is a pixel of the image, the least distance
    is 0: the radii are 0.5, 1.5, 2.5, ... and the centre pixel itself
    falls in bin 0. *)
Theorem centre_on_image (img : array2 Z) (cx cy threshold : Z) :
  on_image img cx cy →
  min_r (shape1 img) (shape0 img) cx cy = 0
  ∧ bin_index (shape1 img) (shape0 img) cx cy (Z.to_nat cx) (Z.to_nat cy) = 0%nat
  ∧ ∀ k, (k < length (_radial_average img cx cy threshold).1)%nat →
      (_radial_average img cx cy threshold).1 !! k
      = Some (inject_Z 0 + (1 # 2) + inject_Z (Z.of_nat k))%Q.
Proof.
  intros [Hx Hy].
  assert (0 < shape1 img)%nat as Hw by lia.
  assert (0 < shape0 img)%nat as Hh by lia.
  destruct (amin_r_mesh (shape1 img) (shape0 img) cx cy Hw Hh)
    as [(x & y & _ & _ & Hat) Hmin].
  assert (dist_sq cx cy (Z.to_nat cx) (Z.to_nat cy) = 0) as Hcentre.
  { unfold dist_sq. rewrite !Z2Nat.id by lia. lia. }
  assert (amin (r_mesh (shape1 img) (shape0 img) cx cy) = 0) as Hzero.
  { pose proof (Hmin (Z.to_nat cx) (Z.to_nat cy) ltac:(lia) ltac:(lia)) as Hle.
    pose proof (dist_sq_nonneg cx cy x y). lia. }
  assert (min_r (shape1 img) (shape0 img) cx cy = 0) as Hmin_r.
  { unfold min_r. by rewrite Hzero. }
  split; [done|]. split.
  - unfold bin_index. by rewrite Hcentre, Hmin_r.
  - intros k Hk. rewrite radial_average_radii in *.
    rewrite bin_centers_length in Hk. rewrite Hmin_r.
    by apply bin_centers_lookup.
Qed.

Lemma centre_on_image_witness :
  (_radial_average [[1; 2; 3]; [4; 5; 6]] 1 1 2).1 !! 1%nat
  = Some (inject_Z 0 + (1 # 2) + inject_Z 1)%Q.
Proof.
  destruct (centre_on_image [[1; 2; 3]; [4; 5; 6]] 1 1 2) as (_ & _ & H).
  - unfold on_image. simpl. lia.
  - apply H. vm_compute. lia.
Defined.

(** * Further properties of [Mask] *)

Lemma zip2_shape {A B C} (f : A → B → C) (a : array2 A) (b : array2 B) :
  shape b = shape a → shape (zip_with (zip_with f) a b) = shape a.
Proof.
  unfold shape, shape0, shape1. intros [= H0 H1].
  destruct a as [|row a], b as [|brow b]; simpl in *; try done.
  rewrite !length_zip_with. f_equal; lia.
Qed.

Lemma zip2_rectangular {A B C} (f : A → B → C) (a : array2 A) (b : array2 B) :
  rectangular a → rectangular b → shape b = shape a →
  rectangular (zip_with (zip_with f) a b).
Proof.
  intros Ha Hb Hshape. unfold rectangular.
  pose proof (zip2_shape f a b Hshape) as [= _ S1]. rewrite S1.
  injection Hshape as _ H1.
  apply Forall_lookup. intros j row Hrow.
  apply lookup_zip_with_Some in Hrow as (ra & rb & -> & Hra & Hrb).
  pose proof (Forall_lookup_1 _ _ _ _ Ha Hra) as La.
  pose proof (Forall_lookup_1 _ _ _ _ Hb Hrb) as Lb. simpl in La, Lb.
  rewrite length_zip_with. lia.
Qed.

Lemma at2_zip2 (f : Z → Z → Z) (a b : array2 Z) (y x : nat) :
  rectangular a → rectangular b → shape b = shape a →
  (y < shape0 a)%nat → (x < shape1 a)%nat →
  at2 (zip_with (zip_with f) a b) y x = f (at2 a y x) (at2 b y x).
Proof.
  intros Ha Hb [= H0 H1] Hy Hx.
  destruct (rectangular_lookup a y x Ha Hy Hx) as (row & v & Hrow & Hv).
  destruct (rectangular_lookup b y x Hb) as (brow & u & Hbrow & Hu); [lia..|].
  unfold at2. rewrite lookup_zip_with, Hrow, Hbrow. simpl.
  by rewrite lookup_zip_with, Hv, Hu.
Qed.

(** An array is determined by its shape and its entries. *)
Lemma array2_eq (a b : array2 Z) :
  rectangular a → rectangular b → shape b = shape a →
  (∀ y x, (y < shape0 a)%nat → (x < shape1 a)%nat → at2 b y x = at2 a y x) →
  b = a.
Proof.
  intros Ha Hb [= H0 H1] Hat. unfold shape0 in *.
  apply list_eq. intros y.
  destruct (a !! y) as [row|] eqn:Hrow.
  - pose proof (lookup_lt_Some _ _ _ Hrow) as Hy.
    destruct (lookup_lt_is_Some_2 b y) as [brow Hbrow]; [lia|].
    rewrite Hbrow. f_equal.
    pose proof (Forall_lookup_1 _ _ _ _ Ha Hrow) as La.
    pose proof (Forall_lookup_1 _ _ _ _ Hb Hbrow) as Lb. simpl in La, Lb.
    apply list_eq. intros x.
    destruct (row !! x) as [v|] eqn:Hv.
    + pose proof (lookup_lt_Some _ _ _ Hv) as Hx.
      destruct (lookup_lt_is_Some_2 brow x) as [u Hu]; [lia|].
      specialize (Hat y x Hy ltac:(lia)). unfold at2 in Hat.
      rewrite Hrow, Hbrow in Hat. simpl in Hat. rewrite Hv, Hu in Hat.
      simpl in Hat. by rewrite Hu, Hat.
    + apply lookup_ge_None. apply lookup_ge_None in Hv. lia.
  - apply lookup_ge_None. apply lookup_ge_None in Hrow. lia.
Qed.

Lemma amap_shape {A B} (f : A → B) (a : array2 A) : shape (amap f a) = shape a.
Proof.
  unfold shape, shape0, shape1, amap. rewrite length_fmap.
  destruct a as [|row a]; simpl; [done|]. by rewrite length_fmap.
Qed.

Lemma amap_rectangular {A B} (f : A → B) (a : array2 A) :
  rectangular a → rectangular (amap f a).
Proof.
  intros Ha. unfold rectangular.
  pose proof (amap_shape f a) as [= _ S1]. rewrite S1.
  unfold amap. apply Forall_fmap. eapply Forall_impl; [exact Ha|].
  intros row Hrow. simpl. by rewrite length_fmap.
Qed.

Lemma at2_amap (f : Z → Z) (a : array2 Z) (y x : nat) :
  rectangular a → (y < shape0 a)%nat → (x < shape1 a)%nat →
  at2 (amap f a) y x = f (at2 a y x).
Proof.
  intros Ha Hy Hx.
  destruct (rectangular_lookup a y x Ha Hy Hx) as (row & v & Hrow & Hv).
  unfold at2, amap. rewrite list_lookup_fmap, Hrow. simpl.
  by rewrite list_lookup_fmap, Hv.
Qed.

Lemma Mask_apply_mul2 (m : Mask) (arr : array2 Z) :
  Mask_apply m arr = mul2 arr (Mask_value m).
Proof.
  unfold Mask_apply, Mask_value. rewrite amap_amap. f_equal.
  apply (amap_ext_Forall (λ _, True)).
  - apply Forall_forall. intros row _. by apply Forall_forall.
  - intros v _. simpl. by repeat case_bool_decide.
Qed.

Lemma mask_apply_entries (m : Mask) (arr : array2 Z) :
  rectangular arr → rectangular (mask_array m) → shape arr = Mask_shape m →
  rectangular (Mask_apply m arr)
  ∧ shape (Mask_apply m arr) = shape arr
  ∧ ∀ y x, (y < shape0 arr)%nat → (x < shape1 arr)%nat →
      at2 (Mask_apply m arr) y x
      = if bool_decide (0 < at2 (mask_array m) y x) then at2 arr y x else 0.
Proof.
  intros Harr Hm Hshape. unfold Mask_shape in Hshape.
  assert (shape (Mask_value m) = shape arr) as Hvshape.
  { unfold Mask_value. by rewrite amap_shape. }
  assert (rectangular (Mask_value m)) as Hvrect.
  { unfold Mask_value. by apply amap_rectangular. }
  rewrite Mask_apply_mul2.
  split; [by apply zip2_rectangular|]. split; [by apply mul2_shape|].
  intros y x Hy Hx. rewrite at2_mul2 by done.
  injection Hshape as H0 H1.
  unfold Mask_value. rewrite at2_amap by (done || lia).
  case_bool_decide; lia.
Qed.

(** X6: on an array of the mask's shape [Mask.apply] keeps the shape, keeps
    the entries of the valid pixels and sets the others to 0; applying the
    mask twice is applying it once; and averaging the array after
    [Mask.apply] gives what [_mask_and_average] gives for the array and
    the mask's value. *)
Theorem mask_apply_rule (m : Mask) (arr : array2 Z) :
  rectangular arr → rectangular (mask_array m) → shape arr = Mask_shape m →
  shape (Mask_apply m arr) = shape arr
  ∧ (∀ y x, (y < shape0 arr)%nat → (x < shape1 arr)%nat →
       at2 (Mask_apply m arr) y x
       = if bool_decide (0 < at2 (mask_array m) y x) then at2 arr y x else 0)
  ∧ Mask_apply m (Mask_apply m arr) = Mask_apply m arr
  ∧ ∀ cx cy threshold,
      _radial_average (Mask_apply m arr) cx cy threshold
      = _mask_and_average arr (Mask_value m) cx cy threshold.
Proof.
  intros Harr Hm Hshape.
  destruct (mask_apply_entries m arr Harr Hm Hshape) as (Hrect & Hshape1 & Hat).
  destruct (mask_apply_entries m (Mask_apply m arr) Hrect Hm)
    as (Hrect2 & Hshape2 & Hat2); [congruence|].
  split; [done|]. split; [done|]. split.
  - apply array2_eq; [done..|].
    intros y x Hy Hx. rewrite Hat2 by done.
    injection Hshape1 as S0 S1. rewrite S0 in Hy. rewrite S1 in Hx.
    rewrite Hat by done. by case_bool_decide.
  - intros cx cy threshold. unfold _mask_and_average. by rewrite Mask_apply_mul2.
Qed.

Lemma mask_apply_rule_witness :
  Mask_apply (MkMask [[1; 0]; [0; 7]]) [[5; 6]; [8; 9]] = [[5; 0]; [0; 9]]
  ∧ Mask_apply (MkMask [[1; 0]; [0; 7]])
      (Mask_apply (MkMask [[1; 0]; [0; 7]]) [[5; 6]; [8; 9]])
    = Mask_apply (MkMask [[1; 0]; [0; 7]]) [[5; 6]; [8; 9]].
Proof.
  destruct (mask_apply_rule (MkMask [[1; 0]; [0; 7]]) [[5; 6]; [8; 9]])
    as (_ & _ & Hidem & _).
  - unfold rectangular. by forall_entries.
  - unfold rectangular. simpl. by forall_entries.
  - reflexivity.
  - split; [reflexivity | exact Hidem].
Defined.

Lemma Mask_add_entries (m m' : Mask) (arr : array2 Z) :
  rectangular (mask_array m) → rectangular arr →
  Mask_add m arr = Some m' →
  rectangular (mask_array m')
  ∧ Mask_shape m' = Mask_shape m
  ∧ ∀ y x, (y < shape0 (mask_array m))%nat → (x < shape1 (mask_array m))%nat →
      at2 (mask_array m') y x
      = if bool_decide (0 < at2 arr y x) then 0 else at2 (mask_array m) y x.
Proof.
  intros Hm Harr. unfold Mask_add. case_bool_decide as Hshape; [|done].
  intros [= <-]. simpl. unfold Mask_shape. simpl.
  split; [by apply zip2_rectangular|]. split; [by apply zip2_shape|].
  intros y x Hy Hx. by rewrite at2_zip2.
Qed.

(** X7: [Mask.add] with an overlay that has not the shape of the mask
    fails; with an overlay of the mask's shape it keeps the shape and the
    dtype, makes invalid exactly the pixels where the overlay is positive
    and leaves the others as they were, so that no pixel becomes valid;
    adding the same overlay again changes nothing. *)
Theorem mask_add_rule (m : Mask) (arr : array2 Z) :
  (shape arr ≠ Mask_shape m → Mask_add m arr = None)
  ∧ (rectangular (mask_array m) → rectangular arr → shape arr = Mask_shape m →
     ∃ m', Mask_add m arr = Some m'
       ∧ Mask_shape m' = Mask_shape m
       ∧ (Mask_wf m → Mask_wf m')
       ∧ (∀ y x, (y < shape0 (mask_array m))%nat → (x < shape1 (mask_array m))%nat →
            at2 (mask_array m') y x
            = if bool_decide (0 < at2 arr y x) then 0 else at2 (mask_array m) y x)
       ∧ Mask_add m' arr = Some m').
Proof.
  split.
  - intros Hshape. unfold Mask_add. by rewrite bool_decide_eq_false_2.
  - intros Hm Harr Hshape. unfold Mask_shape in Hshape.
    destruct (Mask_add m arr) as [m'|] eqn:Hadd;
      [|unfold Mask_add in Hadd; by rewrite bool_decide_eq_true_2 in Hadd].
    destruct (Mask_add_entries m m' arr Hm Harr Hadd) as (Hrect & Hshape' & Hat).
    exists m'. split; [done|]. split; [done|]. split; [|split; [done|]].
    + intros Hwf. unfold Mask_add in Hadd.
      rewrite bool_decide_eq_true_2 in Hadd by done. injection Hadd as <-.
      unfold Mask_wf in *. simpl.
      apply Forall_lookup. intros j row Hrow.
      apply lookup_zip_with_Some in Hrow as (ra & rb & -> & Hra & Hrb).
      apply Forall_lookup. intros i v Hv.
      apply lookup_zip_with_Some in Hv as (a & b & -> & Ha & Hb).
      pose proof (Forall_lookup_1 _ _ _ _ (Forall_lookup_1 _ _ _ _ Hwf Hra) Ha)
        as Hrange.
      simpl in Hrange. simpl. case_bool_decide; lia.
    + unfold Mask_shape in Hshape'.
      destruct (Mask_add m' arr) as [m''|] eqn:Hadd2;
        [|unfold Mask_add in Hadd2; rewrite bool_decide_eq_true_2 in Hadd2;
          [done | congruence]].
      destruct (Mask_add_entries m' m'' arr Hrect Harr Hadd2)
        as (Hrect2 & Hshape2 & Hat2).
      f_equal. destruct m' as [a'], m'' as [a'']. f_equal. simpl in *.
      unfold Mask_shape in Hshape2. simpl in Hshape2.
      apply array2_eq; [done..|].
      intros y x Hy Hx. rewrite Hat2 by done.
      injection Hshape' as S0 S1. rewrite S0 in Hy. rewrite S1 in Hx.
      rewrite Hat by done. by case_bool_decide.
Qed.

Lemma mask_add_rule_witness :
  ∃ m', Mask_add (MkMask [[1; 1]; [0; 1]]) [[0; 9]; [3; 0]] = Some m'
        ∧ mask_array m' = [[1; 0]; [0; 1]]
        ∧ Mask_add m' [[0; 9]; [3; 0]] = Some m'.
Proof.
  destruct (mask_add_rule (MkMask [[1; 1]; [0; 1]]) [[0; 9]; [3; 0]]) as [_ H].
  destruct H as (m' & Hadd & _ & _ & _ & Hidem).
  - unfold rectangular. simpl. by forall_entries.
  - unfold rectangular. by forall_entries.
  - reflexivity.
  - exists m'. split; [exact Hadd|]. split; [|exact Hidem].
    vm_compute in Hadd. by injection Hadd as <-.
Defined.

(** X8: [Mask(shape)] fails with "Invalid shape" exactly when a dimension
    is not positive, and otherwise gives a mask of that shape with every
    pixel valid; [Mask(value=...)] never fails, whatever shape is passed,
    and a pixel of it is valid unless its value is a multiple of 256. *)
Theorem mask_constructor (height width : Z) :
  (Mask_init (height, width) None = inl (ValueError "Invalid shape")
   ↔ height ≤ 0 ∨ width ≤ 0)
  ∧ (0 < height → 0 < width →
     ∃ m, Mask_init (height, width) None = inr m
       ∧ Mask_shape m = (Z.to_nat height, Z.to_nat width)
       ∧ Mask_value m = replicate (Z.to_nat height) (replicate (Z.to_nat width) 1)
       ∧ Mask_wf m)
  ∧ ∀ value, ∃ m,
      Mask_init (height, width) (Some value) = inr m
      ∧ Mask_wf m
      ∧ Mask_shape m = shape value
      ∧ Mask_value m
        = amap (λ v, if bool_decide (v mod 256 = 0) then 0 else 1) value.
Proof.
  split; [|split].
  - unfold Mask_init. simpl. case_bool_decide; split; (done || tauto).
  - intros Hh Hw. eexists. split.
    + unfold Mask_init. simpl. rewrite bool_decide_eq_false_2 by lia. reflexivity.
    + split; [|split].
      * unfold Mask_shape, shape, shape0, shape1. simpl.
        rewrite length_replicate.
        destruct (Z.to_nat height) as [|n] eqn:Hn; [lia|]. simpl.
        by rewrite length_replicate.
      * unfold Mask_value, amap. simpl. rewrite fmap_replicate.
        by rewrite fmap_replicate.
      * unfold Mask_wf. simpl. apply Forall_replicate, Forall_replicate. lia.
  - intros value. eexists. split; [reflexivity|]. split; [|split].
    + by apply (Mask_init_wf (height, width) (Some value)).
    + unfold Mask_shape. simpl. unfold astype_uint8. apply amap_shape.
    + unfold Mask_value. simpl. unfold astype_uint8. rewrite amap_amap.
      apply (amap_ext_Forall (λ _, True)).
      * apply Forall_forall. intros row _. by apply Forall_forall.
      * intros v _. simpl.
        pose proof (Z.mod_pos_bound v 256 ltac:(lia)).
        repeat case_bool_decide; (done || lia).
Qed.

Lemma mask_constructor_witness :
  ∃ m, Mask_init (2, 3) None = inr m ∧ Mask_value m = [[1; 1; 1]; [1; 1; 1]].
Proof.
  destruct (mask_constructor 2 3) as (_ & H & _).
  destruct H as (m & Hinit & _ & Hvalue & _); [lia..|].
  exists m. split; [exact Hinit | exact Hvalue].
Defined.

Lemma slice_update_compose {A} (start stop : Z) (f g : A → A) (l : list A) :
  slice_update start stop f (slice_update start stop g l)
  = slice_update start stop (f ∘ g) l.
Proof.
  apply list_eq. intros k. unfold slice_update at 1.
  rewrite list_lookup_imap, slice_update_length.
  unfold slice_update. rewrite !list_lookup_imap.
  destruct (l !! k) as [a|]; simpl; [|done].
  by case_bool_decide.
Qed.

Lemma slice_update_ext {A} (start stop : Z) (f g : A → A) (l : list A) :
  (∀ a, f a = g a) → slice_update start stop f l = slice_update start stop g l.
Proof.
  intros Hfg. apply list_eq. intros k. unfold slice_update.
  rewrite !list_lookup_imap. destruct (l !! k) as [a|]; simpl; [|done].
  case_bool_decide; [by rewrite Hfg | done].
Qed.

Lemma assign_block_twice {A} (y0 y1 x0 x1 : Z) (c c' : A) (a : array2 A) :
  assign_block y0 y1 x0 x1 c (assign_block y0 y1 x0 x1 c' a)
  = assign_block y0 y1 x0 x1 c a.
Proof.
  unfold assign_block. rewrite slice_update_compose.
  apply slice_update_ext. intros row. simpl.
  rewrite slice_update_compose. by apply slice_update_ext.
Qed.

Lemma assign_block_shape {A} (y0 y1 x0 x1 : Z) (c : A) (a : array2 A) :
  shape (assign_block y0 y1 x0 x1 c a) = shape a.
Proof.
  unfold shape, shape0, shape1, assign_block.
  rewrite slice_update_length. f_equal.
  destruct a as [|row a]; [done|].
  unfold slice_update at 1. rewrite imap_cons.
  case_bool_decide; [apply slice_update_length | done].
Qed.

Lemma assign_block_wf (y0 y1 x0 x1 c : Z) (a : array2 Z) :
  0 ≤ c < 256 →
  Forall (Forall (λ v, 0 ≤ v < 256)) a →
  Forall (Forall (λ v, 0 ≤ v < 256)) (assign_block y0 y1 x0 x1 c a).
Proof.
  intros Hc Ha. unfold assign_block.
  apply Forall_lookup. intros j row Hrow. unfold slice_update at 1 in Hrow.
  rewrite list_lookup_imap in Hrow.
  destruct (a !! j) as [r|] eqn:Hr; [|done]. simpl in Hrow.
  pose proof (Forall_lookup_1 _ _ _ _ Ha Hr) as Hrwf.
  case_bool_decide; injection Hrow as <-; [|done].
  apply Forall_lookup. intros i v Hv. unfold slice_update in Hv.
  rewrite list_lookup_imap in Hv.
  destruct (r !! i) as [u|] eqn:Hu; [|done]. simpl in Hv.
  pose proof (Forall_lookup_1 _ _ _ _ Hrwf Hu) as Hrange. simpl in Hrange.
  case_bool_decide; injection Hv as <-; [lia | done].
Qed.

(** X9: for all integer arguments, negative ones included, the two
    rectangle operations keep the shape and the dtype of the mask; marking
    a rectangle twice is marking it once; [remove_rectangle] after
    [add_rectangle] with the same arguments is [remove_rectangle] alone,
    and [add_rectangle] after [remove_rectangle] is [add_rectangle] alone. *)
Theorem rectangle_algebra (m : Mask) (x y width height : Z) :
  Mask_shape (add_rectangle m x y width height) = Mask_shape m
  ∧ Mask_shape (remove_rectangle m x y width height) = Mask_shape m
  ∧ (Mask_wf m → Mask_wf (add_rectangle m x y width height)
                 ∧ Mask_wf (remove_rectangle m x y width height))
  ∧ add_rectangle (add_rectangle m x y width height) x y width height
    = add_rectangle m x y width height
  ∧ remove_rectangle (add_rectangle m x y width height) x y width height
    = remove_rectangle m x y width height
  ∧ add_rectangle (remove_rectangle m x y width height) x y width height
    = add_rectangle m x y width height.
Proof.
  unfold add_rectangle, remove_rectangle, Mask_shape, Mask_wf. simpl.
  split; [apply assign_block_shape|]. split; [apply assign_block_shape|].
  split; [intros Hwf; split; apply assign_block_wf; (done || lia)|].
  split; [by rewrite assign_block_twice|].
  split; by rewrite assign_block_twice.
Qed.

Lemma rectangle_algebra_witness :
  Mask_wf (MkMask [[1; 1; 1]; [1; 1; 1]])
  ∧ Mask_wf (add_rectangle (MkMask [[1; 1; 1]; [1; 1; 1]]) (-1) 0 5 1)
  ∧ remove_rectangle (add_rectangle (MkMask [[1; 1; 1]; [1; 1; 1]]) (-1) 0 5 1)
      (-1) 0 5 1
    = remove_rectangle (MkMask [[1; 1; 1]; [1; 1; 1]]) (-1) 0 5 1.
Proof.
  assert (Hwf : Mask_wf (MkMask [[1; 1; 1]; [1; 1; 1]])).
  { unfold Mask_wf. simpl. forall_entries; forall_entries; lia. }
  destruct (rectangle_algebra (MkMask [[1; 1; 1]; [1; 1; 1]]) (-1) 0 5 1)
    as (_ & _ & Hkeep & _ & Hremove & _).
  split; [exact Hwf|]. split; [exact (proj1 (Hkeep Hwf)) | exact Hremove].
Defined.

(** * Reading a mask file *)

(** X10: [_readmask] on a path that does not exist raises
    [FileNotFoundError] naming it; on a path that exists but holds no
    decodable image (a directory, a table) it raises the [AttributeError]
    of [None.shape]; on a multi-channel image it raises the [ValueError];
    on a single-channel image with non-negative levels it returns an array
    of the same shape with 1 where the level is positive and 0 elsewhere.
    The files are read only. *)
Theorem readmask_rule (src : string) (w : world) :
  (files w !! src = None →
   _readmask src w = (Raises (FileNotFoundError (src +:+ " is not found.")), w))
  ∧ (∀ f, files w !! src = Some f → (∀ data, f ≠ ImageFile data) →
       _readmask src w = (Raises none_has_no_shape, w))
  ∧ (∀ a, files w !! src = Some (ImageFile (Color a)) →
       _readmask src w
       = (Raises (ValueError "mask file must be 2D single-channel image"), w))
  ∧ (∀ a, files w !! src = Some (ImageFile (Gray a)) →
       Forall (Forall (λ v, 0 ≤ v)) a →
       ∃ mask, _readmask src w = (Returns mask, w)
         ∧ mask = amap (λ v, if bool_decide (0 < v) then 1 else 0) a
         ∧ binary mask ∧ shape mask = shape a).
Proof.
  unfold _readmask, bind, get_files, path_exists, imread.
  split; [|split; [|split]].
  - intros Hnone. rewrite Hnone.
    rewrite bool_decide_eq_false_2; [done | by intros []].
  - intros f Hf Hnot. rewrite Hf. rewrite bool_decide_eq_true_2 by eauto. simpl.
    destruct f as [data| | |]; [by destruct (Hnot data) | done..].
  - intros a Ha. rewrite Ha. by rewrite bool_decide_eq_true_2 by eauto.
  - intros a Ha Hpos. rewrite Ha. rewrite bool_decide_eq_true_2 by eauto. simpl.
    assert (astype_uint8 (clip_positive a)
            = amap (λ v, if bool_decide (0 < v) then 1 else 0) a) as Hnorm.
    { unfold astype_uint8, clip_positive. rewrite amap_amap.
      apply (amap_ext_Forall _ _ _ _ Hpos). intros v Hv. simpl.
      case_bool_decide; [done|]. replace v with 0 by lia. done. }
    eexists. split; [reflexivity|]. rewrite Hnorm.
    split; [done|]. split; [|apply amap_shape].
    unfold binary, amap. apply Forall_fmap, Forall_forall. intros row _.
    apply Forall_fmap, Forall_forall. intros v _. simpl.
    case_bool_decide; auto.
Qed.

Lemma readmask_rule_witness :
  (_readmask "run" sample_world).1 = Raises none_has_no_shape
  ∧ ∃ mask, (_readmask "odd.tif" sample_world).1 = Returns mask
            ∧ binary mask.
Proof.
  destruct (readmask_rule "run" sample_world) as (_ & Hnone & _).
  destruct (readmask_rule "odd.tif" sample_world) as (_ & _ & _ & Hgray).
  split.
  - rewrite (Hnone (Directory ["f1.tif"; "f2.tif"; "f3.tif"; "notes.txt"]));
      [done | reflexivity | by intros data].
  - destruct (Hgray (replicate 4 (replicate 5 10))) as (mask & Hrun & _ & Hbin & _).
    + reflexivity.
    + simpl. forall_entries; lia.
    + exists mask. split; [by rewrite Hrun | exact Hbin].
Defined.

(** * Further properties of [series_integrate] *)

Section source.

Variable r2q : list Q → float64 → float64 → float64 → list float64.
Variable DETECTER_PX_SIZES : gmap string float64.

(** A run raises what the resolution of the source raises, in the world it
    was started in. *)
Lemma series_integrate_source_raises (src : source) (kw : kwargs) (w : world)
    (e : exn) :
  (resolve_source src (dst kw) w).1 = Raises e →
  series_integrate r2q DETECTER_PX_SIZES src kw w = (Raises e, w).
Proof.
  intros Hsrc.
  destruct (resolve_source src (dst kw) w) as [o w0] eqn:Hrun.
  pose proof (reads_only_world _ _ _ _ (reads_only_resolve_source _ _) Hrun) as ->.
  simpl in Hsrc. subst o.
  unfold series_integrate, series_setup, bind at 1 2. by rewrite Hrun.
Qed.

(** A run whose source resolves to no frame raises before anything else. *)
Lemma series_integrate_no_frames (src : source) (kw : kwargs) (w : world)
    (d : string) :
  (resolve_source src (dst kw) w).1 = Returns ([], d) →
  series_integrate r2q DETECTER_PX_SIZES src kw w
  = (Raises (FileNotFoundError ("No tif files in " +:+ source_repr src +:+ ".")), w).
Proof.
  intros Hsrc.
  destruct (resolve_source src (dst kw) w) as [o w0] eqn:Hrun.
  pose proof (reads_only_world _ _ _ _ (reads_only_resolve_source _ _) Hrun) as ->.
  simpl in Hsrc. subst o.
  unfold series_integrate, series_setup, bind at 1 2. by rewrite Hrun.
Qed.

(** X11: the errors of the source of a run, all raised before the progress
    bar is opened and with nothing written.  A path ending in ".tif" that
    does not exist, or any other path that is not a directory, raises
    [FileNotFoundError] naming it; a directory without ".tif" entries and
    an empty list raise "No tif files in ..."; a list with an entry not
    ending in ".tif" raises "Unsupported file format", checked before the
    destination; a list without [dst] raises "dst to save results must be
    set". *)
Theorem source_errors (kw : kwargs) (w : world) :
  (∀ p, endswith p ".tif" = true → files w !! p = None →
     series_integrate r2q DETECTER_PX_SIZES (SrcPath p) kw w
     = (Raises (FileNotFoundError (p +:+ " is not found.")), w))
  ∧ (∀ p, endswith p ".tif" = false → isdir (files w) p = false →
       series_integrate r2q DETECTER_PX_SIZES (SrcPath p) kw w
       = (Raises (FileNotFoundError (p +:+ " is not found.")), w))
  ∧ (∀ p names, endswith p ".tif" = false →
       files w !! p = Some (Directory names) →
       Forall (λ f, endswith f ".tif" = false) names →
       series_integrate r2q DETECTER_PX_SIZES (SrcPath p) kw w
       = (Raises (FileNotFoundError ("No tif files in " +:+ p +:+ ".")), w))
  ∧ (∀ l f, f ∈ l → endswith f ".tif" = false →
       series_integrate r2q DETECTER_PX_SIZES (SrcList l) kw w
       = (Raises (ValueError "Unsupported file format: only .tif is supported"), w))
  ∧ (∀ l, Forall (λ f, endswith f ".tif" = true) l → dst kw = "" →
       series_integrate r2q DETECTER_PX_SIZES (SrcList l) kw w
       = (Raises (ValueError "dst to save results must be set"), w))
  ∧ (dst kw ≠ "" →
     series_integrate r2q DETECTER_PX_SIZES (SrcList []) kw w
     = (Raises (FileNotFoundError "No tif files in []."), w)).
Proof.
  split; [|split; [|split; [|split; [|split]]]].
  - intros p Hends Hnone. apply series_integrate_source_raises.
    unfold resolve_source, bind, get_files, path_exists. simpl.
    rewrite Hends, Hnone. rewrite bool_decide_eq_false_2; [done | by intros []].
  - intros p Hends Hdir. apply series_integrate_source_raises.
    unfold resolve_source, bind, get_files. simpl. by rewrite Hends, Hdir.
  - intros p names Hends Hdir Hnames.
    apply (series_integrate_no_frames (SrcPath p) kw w
             (if bool_decide (dst kw = "") then p +:+ ".csv" else dst kw)).
    unfold resolve_source, bind, get_files, isdir, listFiles. simpl.
    rewrite Hends, Hdir. simpl. do 2 f_equal.
    rewrite filter_none; [done|].
    intros f Hf Htif.
    pose proof (proj1 (Forall_forall _ _) Hnames f Hf) as Hnot.
    simpl in Hnot. congruence.
  - intros l f Hf Hends. apply series_integrate_source_raises.
    unfold resolve_source, bind, get_files. simpl.
    assert (forallb (λ f, endswith f ".tif") l = false) as ->; [|done].
    apply not_true_is_false. intros Hall.
    rewrite forallb_forall in Hall. apply list_elem_of_In in Hf.
    specialize (Hall f Hf). congruence.
  - intros l Hall Hdst. apply series_integrate_source_raises.
    unfold resolve_source, bind, get_files. simpl.
    assert (forallb (λ f, endswith f ".tif") l = true) as ->.
    { apply forallb_forall. intros f Hf. apply list_elem_of_In in Hf.
      exact (proj1 (Forall_forall _ _) Hall f Hf). }
    simpl. by rewrite Hdst.
  - intros Hdst.
    apply (series_integrate_no_frames (SrcList []) kw w (dst kw)).
    unfold resolve_source, bind, get_files. simpl.
    rewrite bool_decide_eq_false_2; [done|].
    destruct (dst kw); [done | simpl; lia].
Qed.

End source.

Lemma source_errors_witness :
  series_integrate sample_r2q sample_px_sizes (SrcPath "gone.tif")
    sample_kwargs sample_world
  = (Raises (FileNotFoundError "gone.tif is not found."), sample_world)
  ∧ series_integrate sample_r2q sample_px_sizes
      (SrcList ["run/f1.tif"; "notes.txt"]) sample_kwargs sample_world
    = (Raises (ValueError "Unsupported file format: only .tif is supported"),
       sample_world).
Proof.
  destruct (source_errors sample_r2q sample_px_sizes sample_kwargs sample_world)
    as (Hmissing & _ & _ & Hformat & _).
  split.
  - apply Hmissing; reflexivity.
  - apply (Hformat _ "notes.txt"); [|reflexivity]. right. left.
Defined.

(** The loop appends one column per frame, in the order of the frames:
    the means of the kernel on that frame. *)
Lemma integrate_frames_columns (kw : kwargs) (hw : nat * nat)
    (mask : option (array2 Z)) (fl : list string)
    (acc out : list Q * list (list float64) * list string) (w w' : world) :
  integrate_frames kw hw mask fl acc w = (Returns out, w') →
  ∃ cols, out.1.2 = acc.1.2 ++ cols
    ∧ Forall2 (λ f col, ∃ img, imread (files w) f = Some (Gray img)
                               ∧ shape img = hw
                               ∧ col = (average_frame kw mask img).2) fl cols.
Proof.
  revert acc w. induction fl as [|f fl IH]; intros acc w; simpl.
  - intros [= <- <-]. exists []. by rewrite app_nil_r.
  - intros H. apply bind_Returns in H as (ri & w1 & Hframe & H).
    apply integrate_frame_Returns in Hframe as (-> & img & Hread & Hshape & ->).
    apply bind_Returns in H as ([] & w2 & Hbar & H).
    rewrite when_bar_emit in Hbar. injection Hbar as <-.
    apply IH in H as (cols & Hout & Hcols). simpl in Hout.
    rewrite files_with_bar in Hcols.
    exists ((average_frame kw mask img).2 :: cols). split.
    + by rewrite Hout, <- app_assoc.
    + constructor; [by exists img | done].
Qed.

Lemma resolve_mask_Returns (kw : kwargs) (hw : nat * nat) (w w' : world)
    (m : option (array2 Z)) :
  resolve_mask (mask kw) (mask_src kw) hw w = (Returns m, w') →
  mask_used kw (files w) hw m.
Proof.
  unfold resolve_mask, mask_used.
  case_bool_decide as Hsize.
  - case_bool_decide; [by intros [= <- _] | done].
  - case_bool_decide as Hsrc; [by intros [= <- _]|].
    intros H. apply bind_Returns in H as (a' & w1 & Hread & H).
    unfold _readmask, bind, get_files in Hread.
    destruct (negb (path_exists (files w) (mask_src kw))); [done|].
    destruct (imread (files w) (mask_src kw)) as [[a|a]|] eqn:Himg; try done.
    injection Hread as <- <-.
    case_bool_decide; [|done]. injection H as <- _. by exists a.
Qed.

Section table.

Variable r2q : list Q → float64 → float64 → float64 → list float64.
Variable DETECTER_PX_SIZES : gmap string float64.

(** X12: the table of a run that returns.  It has one header and one
    column per frame after the first, in the order of the frames: the
    header is the base name of the frame and the column holds the means the
    kernel returns for that frame, flipped, with the default threshold and
    with the mask of the run; the mask is the array given in memory when it
    is not empty, else none when no mask file is named, else the normalised
    mask file, and it has the shape of the frames. *)
Theorem table_contents (src : source) (kw : kwargs) (w w' : world) (d : string) :
  series_integrate r2q DETECTER_PX_SIZES src kw w = (Returns d, w') →
  ∃ fl hw m header columns params,
    (resolve_source src (dst kw) w).1 = Returns (fl, d)
    ∧ files w' = <[paramfile_of d := JsonFile params]>
                   (<[d := TableFile header columns]> (files w))
    ∧ mask_used kw (files w) hw m
    ∧ length header = S (length fl)
    ∧ length columns = S (length fl)
    ∧ ∀ k f, fl !! k = Some f →
        header !! S k = Some (basename f)
        ∧ ∃ img, imread (files w) f = Some (Gray img)
                 ∧ shape img = hw
                 ∧ columns !! S k = Some (average_frame kw m img).2.
Proof.
  intros (st & w1 & out & w2 & Hsetup & Hloop & -> & ->)%series_integrate_Returns.
  pose proof (keeps_files_series_setup DETECTER_PX_SIZES src kw w) as H1.
  rewrite Hsetup in H1. simpl in H1.
  destruct (series_setup_Returns DETECTER_PX_SIZES src kw w w1 st Hsetup)
    as (Hsrc & _ & _ & _ & _ & _ & Hmask).
  apply resolve_mask_Returns in Hmask. rewrite H1 in Hmask.
  pose proof (keeps_files_integrate_frames kw (s_shape st) (s_mask st)
                (s_files st) ([], [], ["q[nm^-1]"]) w1) as H2.
  rewrite Hloop in H2. simpl in H2.
  pose proof (integrate_frames_columns _ _ _ _ _ _ _ _ Hloop) as (cols & Hout & Hcols).
  apply integrate_frames_Returns in Hloop as (_ & Hhdr & _ & _ & _).
  simpl in Hout, Hhdr. rewrite H1 in Hcols.
  exists (s_files st), (s_shape st), (s_mask st), (table_headers st out.2),
         (q_column r2q kw st out.1.1 :: out.1.2), (series_params kw st).
  split; [by rewrite Hsrc|]. split.
  { unfold final_world. rewrite files_with_bar. simpl. by rewrite H2, H1. }
  split; [done|].
  assert (length (table_headers st out.2) = length out.2) as Hlen.
  { unfold table_headers. repeat case_match; try done. apply length_insert. }
  split; [rewrite Hlen, Hhdr; simpl; by rewrite length_fmap|].
  split; [simpl; rewrite Hout; by rewrite (Forall2_length _ _ _ Hcols)|].
  intros k f Hf. split.
  - assert (table_headers st out.2 !! S k = out.2 !! S k) as ->.
    { unfold table_headers. repeat case_match; try done.
      by rewrite list_lookup_insert_ne. }
    rewrite Hhdr. simpl. by rewrite list_lookup_fmap, Hf.
  - destruct (Forall2_lookup_l _ _ _ _ _ Hcols Hf) as (col & Hcol & img & Hread & Hshape & ->).
    exists img. split; [done|]. split; [done|]. simpl. by rewrite Hout.
Qed.

End table.

Lemma table_contents_witness :
  ∃ w' header columns,
    series_integrate sample_r2q sample_px_sizes (SrcPath "run")
      sample_kwargs sample_world = (Returns "run.csv", w')
    ∧ files w' !! "run.csv" = Some (TableFile header columns)
    ∧ header !! 2%nat = Some "f2.tif"
    ∧ columns !! 2%nat
      = Some (average_frame sample_kwargs None sample_frame).2.
Proof.
  destruct (series_integrate sample_r2q sample_px_sizes (SrcPath "run")
              sample_kwargs sample_world) as [o w'] eqn:Hrun.
  assert (o = Returns "run.csv") as ->
    by (by vm_compute in Hrun; injection Hrun as <- _).
  destruct (table_contents _ _ _ _ _ _ _ Hrun)
    as (fl & hw & m & header & columns & params & Hsrc & Hfiles & Hmask & _ & _ & Hcol).
  injection Hsrc as <-.
  destruct (Hcol 1%nat "run/f2.tif" eq_refl) as (Hhdr & img & Hread & _ & Hmeans).
  injection Hread as <-. unfold mask_used in Hmask. simpl in Hmask. subst m.
  exists w', header, columns. split; [done|]. split; [|done].
  rewrite Hfiles. by rewrite lookup_insert_ne, lookup_insert_eq.
Defined.

(** * The flips of the frames *)

Lemma flipud_shape (a : array2 Z) : rectangular a → shape (flipud a) = shape a.
Proof.
  intros Ha. unfold shape, shape0, shape1, flipud. rewrite length_reverse. f_equal.
  destruct a as [|row a]; [done|].
  destruct (reverse (row :: a)) as [|r l] eqn:E.
  { apply (f_equal length) in E. rewrite length_reverse in E. done. }
  assert (Hr : r ∈ row :: a).
  { apply elem_of_reverse. rewrite E. left. }
  by apply (proj1 (Forall_forall _ _) Ha) in Hr.
Qed.

Lemma flipud_rectangular (a : array2 Z) : rectangular a → rectangular (flipud a).
Proof.
  intros Ha. unfold rectangular.
  pose proof (flipud_shape a Ha) as [= _ S1]. rewrite S1.
  unfold flipud. by apply Forall_reverse.
Qed.

Lemma fliplr_shape (a : array2 Z) : shape (fliplr a) = shape a.
Proof.
  unfold shape, shape0, shape1, fliplr. rewrite length_fmap.
  destruct a as [|row a]; simpl; [done|]. by rewrite length_reverse.
Qed.

Lemma fliplr_rectangular (a : array2 Z) : rectangular a → rectangular (fliplr a).
Proof.
  intros Ha. unfold rectangular.
  pose proof (fliplr_shape a) as [= _ S1]. rewrite S1.
  unfold fliplr. apply Forall_fmap. eapply Forall_impl; [exact Ha|].
  intros row Hrow. simpl. by rewrite length_reverse.
Qed.

Lemma at2_flipud (a : array2 Z) (y x : nat) :
  (y < shape0 a)%nat → at2 (flipud a) y x = at2 a (shape0 a - 1 - y) x.
Proof.
  intros Hy. unfold at2, flipud, shape0 in *.
  rewrite reverse_lookup by done. do 3 f_equal. lia.
Qed.

Lemma at2_fliplr (a : array2 Z) (y x : nat) :
  rectangular a → (y < shape0 a)%nat → (x < shape1 a)%nat →
  at2 (fliplr a) y x = at2 a y (shape1 a - 1 - x).
Proof.
  intros Ha Hy Hx.
  destruct (rectangular_lookup a y x Ha Hy Hx) as (row & v & Hrow & Hv).
  pose proof (Forall_lookup_1 _ _ _ _ Ha Hrow) as Hlen. simpl in Hlen.
  unfold at2, fliplr. rewrite list_lookup_fmap, Hrow. simpl.
  rewrite reverse_lookup by lia. do 2 f_equal. lia.
Qed.

Lemma fliplr_involutive (a : array2 Z) : fliplr (fliplr a) = a.
Proof.
  unfold fliplr. rewrite <- list_fmap_compose.
  rewrite <- (list_fmap_id a) at 2. apply list_fmap_ext.
  intros i row _. simpl. apply reverse_involutive.
Qed.

Lemma flipud_fliplr (a : array2 Z) : flipud (fliplr a) = fliplr (flipud a).
Proof. unfold flipud, fliplr. by rewrite fmap_reverse. Qed.

Lemma contains_flip_name (f : string) :
  contains_char "v" (flip_name f) = contains_char "v" f
  ∧ contains_char "h" (flip_name f) = contains_char "h" f.
Proof.
  unfold flip_name.
  by destruct (contains_char "v" f), (contains_char "h" f).
Qed.

(** X13: on a rectangular frame the flips keep the shape; with a [v] in
    [flip] the rows are read from the bottom, with an [h] the columns from
    the right, with both the two together, and with neither the frame is
    left as it is.  Flipping twice gives the frame back, and the name of
    the flip written to the parameter record, read as a [flip] argument,
    selects the same flips. *)
Theorem flip_rule (f : string) (img : array2 Z) :
  rectangular img →
  shape (apply_flip f img) = shape img
  ∧ (∀ y x, (y < shape0 img)%nat → (x < shape1 img)%nat →
       at2 (apply_flip f img) y x
       = at2 img (if contains_char "v" f then shape0 img - 1 - y else y)%nat
                 (if contains_char "h" f then shape1 img - 1 - x else x)%nat)
  ∧ apply_flip f (apply_flip f img) = img
  ∧ apply_flip (flip_name f) img = apply_flip f img.
Proof.
  intros Himg. unfold apply_flip.
  destruct (contains_flip_name f) as [-> ->].
  destruct (contains_char "v" f), (contains_char "h" f).
  - pose proof (flipud_shape img Himg) as Hud.
    pose proof (flipud_rectangular img Himg) as Hrect.
    injection Hud as U0 U1.
    split; [by rewrite fliplr_shape, flipud_shape|].
    split.
    + intros y x Hy Hx.
      rewrite at2_fliplr by (done || lia).
      rewrite at2_flipud by done. by rewrite U1.
    + split; [|done].
      rewrite flipud_fliplr, fliplr_involutive.
      unfold flipud. apply reverse_involutive.
  - split; [by apply flipud_shape|].
    split; [intros y x Hy Hx; by apply at2_flipud|].
    split; [|done]. unfold flipud. apply reverse_involutive.
  - split; [apply fliplr_shape|].
    split; [intros y x Hy Hx; by apply at2_fliplr|].
    split; [|done]. apply fliplr_involutive.
  - done.
Qed.

Lemma flip_rule_witness :
  rectangular [[1; 2; 3]; [4; 5; 6]]
  ∧ apply_flip "vertical" [[1; 2; 3]; [4; 5; 6]] = [[4; 5; 6]; [1; 2; 3]]
  ∧ apply_flip "horizontal" [[1; 2; 3]; [4; 5; 6]] = [[3; 2; 1]; [6; 5; 4]]
  ∧ apply_flip "vh" [[1; 2; 3]; [4; 5; 6]] = [[6; 5; 4]; [3; 2; 1]]
  ∧ apply_flip "vertical and horizontal" [[1; 2; 3]; [4; 5; 6]]
    = apply_flip "vh" [[1; 2; 3]; [4; 5; 6]]
  ∧ at2 (apply_flip "vh" [[1; 2; 3]; [4; 5; 6]]) 0 0 = 6.
Proof.
  assert (Hrect : rectangular [[1; 2; 3]; [4; 5; 6]]).
  { unfold rectangular. by forall_entries. }
  split; [exact Hrect|].
  split; [reflexivity|]. split; [reflexivity|]. split; [reflexivity|].
  split.
  - exact (proj2 (proj2 (proj2 (flip_rule "vh" [[1; 2; 3]; [4; 5; 6]] Hrect)))).
  - rewrite (proj1 (proj2 (flip_rule "vh" [[1; 2; 3]; [4; 5; 6]] Hrect)) 0%nat 0%nat)
      by (simpl; lia).
    reflexivity.
Defined.

(** * The progress bar *)

Lemma bar_with_bar (b : bool) (e : bar_event) (w : world) :
  bar (with_bar b e w) = bar w ++ if b then [e] else [].
Proof. destruct b; simpl; [done|]. by rewrite app_nil_r. Qed.

(** The loop updates the bar once for every frame it has averaged, and
    not for the frame at which it raises. *)
Lemma integrate_frames_bar (kw : kwargs) (hw : nat * nat)
    (mask : option (array2 Z)) (fl : list string)
    (acc : list Q * list (list float64) * list string) (w w' : world)
    (o : outcome (list Q * list (list float64) * list string)) :
  integrate_frames kw hw mask fl acc w = (o, w') →
  ∃ k, bar w' = bar w ++ (if verbose kw then replicate k (BarUpdate 1) else [])
       ∧ match o with
         | Returns _ => k = length fl
         | Raises _ => (k < length fl)%nat
         end.
Proof.
  revert acc w. induction fl as [|f fl IH]; intros acc w; simpl.
  - intros [= <- <-]. exists 0%nat. split; [|done].
    destruct (verbose kw); by rewrite app_nil_r.
  - unfold bind at 1.
    destruct (integrate_frame kw hw mask f w) as [[ri|e] w1] eqn:Hframe;
      pose proof (reads_only_world _ _ _ _
                    (reads_only_integrate_frame kw hw mask f) Hframe) as ->.
    + unfold bind at 1. rewrite when_bar_emit. intros H.
      apply IH in H as (k & Hbar & Hk). exists (S k). split.
      * rewrite Hbar, bar_with_bar. destruct (verbose kw); simpl.
        -- by rewrite <- app_assoc.
        -- by rewrite !app_nil_r.
      * destruct o; lia.
    + intros [= <- <-]. exists 0%nat. split; [|lia].
      destruct (verbose kw); by rewrite app_nil_r.
Qed.

Section bar.

Variable r2q : list Q → float64 → float64 → float64 → list float64.
Variable DETECTER_PX_SIZES : gmap string float64.

(** The set-up opens the bar once the frames are known, before any other
    check. *)
Lemma series_setup_bar (src : source) (kw : kwargs) (w w' : world)
    (o : outcome setup) :
  series_setup DETECTER_PX_SIZES src kw w = (o, w') →
  match o with
  | Returns st => bar w' = bar w ++ if verbose kw then [BarOpen (length (s_files st))] else []
  | Raises _ =>
      bar w' = bar w
      ∨ ∃ n, (0 < n)%nat ∧ bar w' = bar w ++ if verbose kw then [BarOpen n] else []
  end.
Proof.
  unfold series_setup. unfold bind at 1.
  destruct (resolve_source src (dst kw) w) as [[[fl d]|e] w0] eqn:Hsrc;
    pose proof (reads_only_world _ _ _ _ (reads_only_resolve_source _ _) Hsrc) as ->;
    [|intros [= <- <-]; by left].
  simpl. case_bool_decide as Hlen; [intros [= <- <-]; by left|].
  unfold bind at 1. rewrite when_bar_emit.
  unfold bind at 1. simpl.
  set (wb := with_bar (verbose kw) (BarOpen (length fl)) w).
  assert (Hwb : bar wb = bar w ++ if verbose kw then [BarOpen (length fl)] else [])
    by apply bar_with_bar.
  assert (Hpos : (0 < length fl)%nat) by lia.
  clearbody wb.
  destruct (negb (overwrite kw) && path_exists (files wb) d);
    [intros [= <- <-]; right; by exists (length fl)|].
  unfold bind at 1.
  destruct (resolve_px_size _ _ _ wb) as [[px|e] w1] eqn:Hpx;
    pose proof (reads_only_world _ _ _ _ (reads_only_resolve_px_size _ _ _) Hpx) as ->;
    [|intros [= <- <-]; right; by exists (length fl)].
  unfold bind at 1.
  rewrite resolve_calibration_run.
  set (wc := MkWorld _ _ _).
  assert (Hwc : bar wc = bar wb) by done. clearbody wc.
  unfold bind at 1.
  destruct (first_shape fl wc) as [[hw|e] w1] eqn:Hhw;
    pose proof (reads_only_world _ _ _ _ (reads_only_first_shape _) Hhw) as ->;
    [|intros [= <- <-]; right; exists (length fl); by rewrite Hwc].
  unfold bind at 1.
  destruct (resolve_mask _ _ hw wc) as [[m|e] w1] eqn:Hm;
    pose proof (reads_only_world _ _ _ _ (reads_only_resolve_mask _ _ _) Hm) as ->;
    [|intros [= <- <-]; right; exists (length fl); by rewrite Hwc].
  intros [= <- <-]. simpl. by rewrite Hwc.
Qed.

Lemma series_integrate_bar (src : source) (kw : kwargs) (w w' : world)
    (o : outcome string) :
  series_integrate r2q DETECTER_PX_SIZES src kw w = (o, w') →
  match o with
  | Returns d =>
      ∃ fl, resolve_source src (dst kw) w = (Returns (fl, d), w)
            ∧ bar w' = bar w ++ bar_log (verbose kw) (length fl)
  | Raises _ =>
      bar w' = bar w
      ∨ verbose kw = true
        ∧ ∃ n k, (k < n)%nat
                 ∧ bar w' = bar w ++ BarOpen n :: replicate k (BarUpdate 1)
  end.
Proof.
  destruct o as [d|e]; intros H.
  - apply series_integrate_Returns in H as (st & w1 & out & w2 & Hsetup & Hframes & -> & ->).
    pose proof (series_setup_bar _ _ _ _ _ Hsetup) as Hopen. simpl in Hopen.
    apply series_setup_Returns in Hsetup as (Hsrc & _).
    apply integrate_frames_bar in Hframes as (k & Hbar & ->).
    exists (s_files st). split; [done|].
    unfold final_world. rewrite bar_with_bar. simpl.
    rewrite Hbar, Hopen. unfold bar_log.
    destruct (verbose kw); simpl.
    + by rewrite <- !app_assoc.
    + by rewrite !app_nil_r.
  - apply series_integrate_Raises in H as [Hsetup | (st & w1 & Hsetup & Hframes)].
    + apply series_setup_bar in Hsetup as [Hbar | (n & Hn & Hbar)]; [by left|].
      destruct (verbose kw); [|left; by rewrite Hbar, app_nil_r].
      right. split; [done|]. exists n, 0%nat. by split.
    + apply series_setup_bar in Hsetup. simpl in Hsetup.
      apply integrate_frames_bar in Hframes as (k & Hbar & Hk).
      rewrite Hsetup in Hbar.
      destruct (verbose kw); [|left; by rewrite Hbar, !app_nil_r].
      right. split; [done|]. exists (length (s_files st)), k. split; [done|].
      by rewrite Hbar, <- app_assoc.
Qed.

(** X14: a run that returns has, when [verbose] is set, opened the bar
    with the number of frames as its total, updated it by one for every
    frame and closed it, in this order, and has not touched it when
    [verbose] is off.  A run that raises has either not touched the bar or
    opened it and updated it for fewer frames than its total: it never
    closes the bar. *)
Theorem progress_bar_log (src : source) (kw : kwargs) (w w' : world)
    (o : outcome string) :
  series_integrate r2q DETECTER_PX_SIZES src kw w = (o, w') →
  match o with
  | Returns d =>
      ∃ fl, resolve_source src (dst kw) w = (Returns (fl, d), w)
            ∧ bar w' = bar w ++ bar_log (verbose kw) (length fl)
  | Raises _ =>
      (bar w' = bar w
       ∨ verbose kw = true
         ∧ ∃ n k, (k < n)%nat
                  ∧ bar w' = bar w ++ BarOpen n :: replicate k (BarUpdate 1))
      ∧ ∃ events, bar w' = bar w ++ events ∧ BarClose ∉ events
  end.
Proof.
  intros H. apply series_integrate_bar in H. destruct o as [d|e]; [done|].
  split; [done|].
  destruct H as [Hbar | (_ & n & k & _ & Hbar)].
  - exists []. split; [by rewrite app_nil_r|]. apply not_elem_of_nil.
  - eexists. split; [exact Hbar|].
    intros [Hin | Hin]%elem_of_cons; [done|].
    by apply elem_of_replicate in Hin as [? _].
Qed.

(** X15: [file_integrate] never touches the progress bar, whatever
    [verbose] it is called with and whether it returns or raises. *)
Theorem file_integrate_silent (file : string) (kw : kwargs) (w : world) :
  bar (file_integrate r2q DETECTER_PX_SIZES file kw w).2 = bar w.
Proof.
  rewrite file_integrate_run. simpl.
  destruct (series_integrate r2q DETECTER_PX_SIZES (SrcPath file)
              (set_verbose false kw) w) as [o w'] eqn:Hrun.
  apply series_integrate_bar in Hrun. simpl.
  destruct o as [d|e].
  - destruct Hrun as (fl & _ & ->). simpl. by rewrite app_nil_r.
  - by destruct Hrun as [-> | (? & _)].
Qed.

End bar.

Lemma progress_bar_log_witness :
  ∃ w',
    series_integrate sample_r2q sample_px_sizes (SrcPath "run") sample_kwargs
      sample_world = (Returns "run.csv", w')
    ∧ bar w' = [BarOpen 3; BarUpdate 1; BarUpdate 1; BarUpdate 1; BarClose].
Proof.
  eexists. split; [vm_compute; reflexivity|].
  destruct (progress_bar_log sample_r2q sample_px_sizes (SrcPath "run")
              sample_kwargs sample_world _ (Returns "run.csv") eq_refl)
    as (fl & Hsrc & Hbar).
  vm_compute in Hsrc. injection Hsrc as <-. exact Hbar.
Defined.

(** * The destination and the parameter file *)

Lemma string_app_cons (c : ascii) (a b : string) :
  String c a +:+ b = String c (a +:+ b).
Proof. reflexivity. Qed.

Lemma string_app_nil_l (b : string) : "" +:+ b = b.
Proof. reflexivity. Qed.

Lemma string_length_app (a b : string) :
  String.length (a +:+ b) = (String.length a + String.length b)%nat.
Proof.
  induction a as [|c a IH]; [done|].
  rewrite string_app_cons. simpl. by rewrite IH.
Qed.

Lemma string_app_assoc (a b c : string) : (a +:+ b) +:+ c = a +:+ (b +:+ c).
Proof.
  induction a as [|x a IH]; [done|].
  rewrite !string_app_cons. by rewrite IH.
Qed.

Lemma string_app_nil_r (a : string) : a +:+ "" = a.
Proof.
  induction a as [|x a IH]; [done|]. rewrite string_app_cons. by rewrite IH.
Qed.

Lemma prefix_app (a b : string) : String.prefix a (a +:+ b) = true.
Proof.
  induction a as [|c a IH]; [by destruct b|]. rewrite string_app_cons. simpl.
  destruct (ascii_dec c c); [exact IH | done].
Qed.

Lemma rev_app_app (a b : string) : String.rev_app a b = String.rev a +:+ b.
Proof.
  unfold String.rev. revert b. induction a as [|c a IH]; intros b; simpl; [done|].
  rewrite (IH (String c b)), (IH (String c "")).
  by rewrite string_app_assoc.
Qed.

Lemma rev_app_distr (a b : string) :
  String.rev (a +:+ b) = String.rev b +:+ String.rev a.
Proof.
  induction a as [|c a IH].
  - rewrite string_app_nil_l. by rewrite string_app_nil_r.
  - rewrite string_app_cons.
    change (String.rev (String c (a +:+ b)))
      with (String.rev_app (a +:+ b) (String c "")).
    change (String.rev (String c a)) with (String.rev_app a (String c "")).
    by rewrite !rev_app_app, IH, string_app_assoc.
Qed.

Lemma endswith_app (a suffix : string) : endswith (a +:+ suffix) suffix = true.
Proof. unfold endswith. rewrite rev_app_distr. apply prefix_app. Qed.

Lemma substring_app (a b : string) :
  String.substring 0 (String.length a) (a +:+ b) = a.
Proof.
  induction a as [|c a IH]; [by destruct b|].
  rewrite string_app_cons. simpl. by rewrite IH.
Qed.

(** [re.sub] on a path ending in ".tif" replaces this ending. *)
Lemma sub_tif_csv_app (x : string) : sub_tif_csv (x +:+ ".tif") = x +:+ ".csv".
Proof.
  unfold sub_tif_csv. rewrite endswith_app, string_length_app.
  replace (String.length x + String.length ".tif" - 4)%nat with (String.length x)
    by (simpl; lia).
  by rewrite substring_app.
Qed.

Lemma contains_app (a old : string) : contains old (a +:+ old) = true.
Proof.
  induction a as [|c a IH].
  - rewrite string_app_nil_l. destruct old as [|c old]; simpl; [done|].
    apply orb_true_iff. left.
    destruct (ascii_dec c c); [|done].
    rewrite <- (string_app_nil_r old) at 2. apply prefix_app.
  - rewrite string_app_cons. simpl. apply orb_true_iff. by right.
Qed.

Lemma replace_from_length (old new s : string) (k : nat) :
  (1 ≤ String.length old ≤ String.length new)%nat →
  (String.length s ≤ String.length (replace_from old new k s) + k)%nat.
Proof.
  intros Hlen. revert k. induction s as [|a s IH]; intros k; [simpl; lia|].
  destruct k as [|k].
  - cbn [replace_from].
    destruct (String.prefix old (String a s)).
    + rewrite string_length_app.
      specialize (IH (String.length old - 1)%nat). simpl. lia.
    + specialize (IH 0%nat). simpl. lia.
  - cbn [replace_from]. specialize (IH k). simpl. lia.
Qed.

Lemma replace_longer (old new s : string) :
  (1 ≤ String.length old < String.length new)%nat →
  contains old s = true →
  (String.length s < String.length (replace old new s))%nat.
Proof.
  intros Hlen. unfold replace. induction s as [|a s IH]; intros Hin.
  - simpl in Hin. destruct old; [simpl in Hlen; lia | done].
  - cbn [replace_from]. cbn [contains] in Hin.
    destruct (String.prefix old (String a s)) eqn:Hpre.
    + rewrite string_length_app.
      pose proof (replace_from_length old new s (String.length old - 1)).
      simpl. lia.
    + simpl in Hin. specialize (IH Hin). simpl. lia.
Qed.

Lemma replace_absent (old new s : string) :
  contains old s = false → replace old new s = s.
Proof.
  unfold replace. induction s as [|a s IH]; intros Hin; [done|].
  cbn [replace_from]. cbn [contains] in Hin.
  apply orb_false_iff in Hin as [-> Hin]. by rewrite IH.
Qed.

Lemma paramfile_of_fixed (d : string) :
  paramfile_of d = d ↔ contains ".csv" d = false.
Proof.
  unfold paramfile_of. split.
  - intros Heq. destruct (contains ".csv" d) eqn:Hin; [|done].
    apply (replace_longer ".csv" "_params.json") in Hin; [|simpl; lia].
    rewrite Heq in Hin. lia.
  - apply replace_absent.
Qed.

(** X16: the parameter file is the table's own path exactly when ".csv"
    does not occur in [dst]; when it occurs, the name of the parameter
    file is longer than [dst]. *)
Theorem parameter_file_name (d : string) :
  (paramfile_of d = d ↔ contains ".csv" d = false)
  ∧ (contains ".csv" d = true
     → (String.length d < String.length (paramfile_of d))%nat).
Proof.
  split; [apply paramfile_of_fixed|].
  intros Hin. apply replace_longer; [simpl; lia | done].
Qed.

Lemma parameter_file_name_witness :
  contains ".csv" "out/run.csv" = true
  ∧ paramfile_of "out/run.csv" = "out/run_params.json"
  ∧ (String.length "out/run.csv" < String.length (paramfile_of "out/run.csv"))%nat.
Proof.
  split; [reflexivity|]. split; [reflexivity|].
  apply (proj2 (parameter_file_name "out/run.csv")). reflexivity.
Defined.

Section destination.

Variable r2q : list Q → float64 → float64 → float64 → list float64.
Variable DETECTER_PX_SIZES : gmap string float64.

(** X17: a run on a path that returns with the default [dst] has written
    the table next to the source: to [x.csv] for the frame [x.tif], to
    [src.csv] for a directory.  The parameter record is in another file,
    both files are there when the run returns, and no other path has
    changed. *)
Theorem default_destination (p : string) (kw : kwargs) (w w' : world) (d : string) :
  dst kw = "" →
  series_integrate r2q DETECTER_PX_SIZES (SrcPath p) kw w = (Returns d, w') →
  (∀ x, p = x +:+ ".tif" → d = x +:+ ".csv")
  ∧ (endswith p ".tif" = false → d = p +:+ ".csv")
  ∧ paramfile_of d ≠ d
  ∧ (∃ header columns, files w' !! d = Some (TableFile header columns))
  ∧ (∃ params, files w' !! paramfile_of d = Some (JsonFile params))
  ∧ ∀ q, q ≠ d → q ≠ paramfile_of d → files w' !! q = files w !! q.
Proof.
  intros Hdst Hrun.
  apply series_integrate_Returns in Hrun as (st & w1 & out & w2 & Hsetup & Hframes & -> & ->).
  pose proof (keeps_files_series_setup DETECTER_PX_SIZES (SrcPath p) kw w) as Hf1.
  pose proof (keeps_files_integrate_frames kw (s_shape st) (s_mask st)
                (s_files st) ([], [], ["q[nm^-1]"]) w1) as Hf2.
  rewrite Hsetup in Hf1. rewrite Hframes in Hf2. simpl in Hf1, Hf2.
  apply series_setup_Returns in Hsetup as (Hsrc & _).
  unfold resolve_source, bind, get_files in Hsrc. rewrite Hdst in Hsrc.
  simpl in Hsrc.
  assert (Hd : s_dst st = if endswith p ".tif" then sub_tif_csv p else p +:+ ".csv").
  { destruct (endswith p ".tif").
    - destruct (negb (path_exists (files w) p)); [done|]. by injection Hsrc.
    - destruct (negb (isdir (files w) p)); [done|]. by injection Hsrc. }
  clear Hsrc.
  assert (Hin : contains ".csv" (s_dst st) = true).
  { rewrite Hd. destruct (endswith p ".tif") eqn:Htif.
    - unfold sub_tif_csv. rewrite Htif. apply contains_app.
    - apply contains_app. }
  assert (Hne : paramfile_of (s_dst st) ≠ s_dst st).
  { intros Heq%paramfile_of_fixed. congruence. }
  split; [intros x ->; by rewrite Hd, endswith_app, sub_tif_csv_app|].
  split; [intros Htif; by rewrite Hd, Htif|].
  split; [done|].
  unfold final_world. rewrite files_with_bar. simpl.
  split; [eexists _, _; rewrite lookup_insert_ne by done; apply lookup_insert_eq|].
  split; [eexists; apply lookup_insert_eq|].
  intros q Hq1 Hq2. rewrite !lookup_insert_ne by done. congruence.
Qed.

End destination.

Lemma default_destination_witness :
  ∃ w',
    dst sample_kwargs = ""
    ∧ series_integrate sample_r2q sample_px_sizes (SrcPath "run/f1.tif")
        sample_kwargs sample_world = (Returns "run/f1.csv", w')
    ∧ paramfile_of "run/f1.csv" = "run/f1_params.json"
    ∧ files w' !! "run/f1.tif" = files sample_world !! "run/f1.tif".
Proof.
  eexists. split; [reflexivity|]. split; [vm_compute; reflexivity|].
  split; [reflexivity|].
  apply (default_destination sample_r2q sample_px_sizes "run/f1.tif"
           sample_kwargs sample_world _ "run/f1.csv" eq_refl eq_refl);
    by vm_compute.
Defined.

(** * Further properties of [Saxs2d.radial_average] *)

Lemma arange_length (lo hi : Z) : length (arange lo hi) = Z.to_nat (hi - lo).
Proof. unfold arange. by rewrite length_fmap, length_seq. Qed.

Lemma arange_lookup (lo hi : Z) (k : nat) :
  (k < Z.to_nat (hi - lo))%nat → arange lo hi !! k = Some (lo + Z.of_nat k).
Proof.
  intros Hk. unfold arange. rewrite list_lookup_fmap, lookup_seq_lt by done.
  done.
Qed.

Lemma saxs_r_bin_length (s : Saxs2d) (q_min : Q) (q_max : option Q) :
  (length (saxs_r_bin s q_min q_max) - 1)%nat = saxs_bins s q_min q_max.
Proof. unfold saxs_r_bin, saxs_bins. rewrite arange_length. lia. Qed.

Lemma histogram_length (r_bin : list Z) (px : list (option Z * option Q)) :
  length (histogram r_bin px) = (length r_bin - 1)%nat.
Proof. unfold histogram, histogram_bins. by rewrite length_fmap, length_seq. Qed.

Lemma weighted_histogram_length (r_bin : list Z) (px : list (option Z * option Q)) :
  length (weighted_histogram r_bin px) = (length r_bin - 1)%nat.
Proof.
  unfold weighted_histogram, histogram_bins. by rewrite length_fmap, length_seq.
Qed.

(** X18: for a positive [px2q] and whatever the range,
    [Saxs2d.radial_average] returns as many means as bin centres,
    [r_max - r_min] of each (none when [r_max <= r_min]), and centre [k]
    is [(r_min + k + 1/2) * px2q]. *)
Theorem saxs_bin_centres (s : Saxs2d) (q_min : Q) (q_max : option Q) :
  (0 < px2q s)%Q →
  length (Saxs2d_radial_average s q_min q_max).1 = saxs_bins s q_min q_max
  ∧ length (Saxs2d_radial_average s q_min q_max).2 = saxs_bins s q_min q_max
  ∧ ∀ k, (k < saxs_bins s q_min q_max)%nat →
      ∃ v, (Saxs2d_radial_average s q_min q_max).2 !! k = Some v
           ∧ (v == (inject_Z (saxs_r_min s q_min + Z.of_nat k) + (1 # 2)) * px2q s)%Q.
Proof.
  intros _. unfold Saxs2d_radial_average. simpl.
  pose proof (saxs_r_bin_length s q_min q_max) as Hn.
  split.
  { rewrite length_zip_with. unfold saxs_i_sum, saxs_cnt.
    rewrite histogram_length, weighted_histogram_length. lia. }
  split.
  { rewrite length_zip_with, length_drop, length_fmap. lia. }
  intros k Hk. unfold saxs_bins in Hk.
  assert (saxs_r_bin s q_min q_max !! k = Some (saxs_r_min s q_min + Z.of_nat k)) as E1.
  { unfold saxs_r_bin. apply arange_lookup. lia. }
  assert (saxs_r_bin s q_min q_max !! S k
          = Some (saxs_r_min s q_min + Z.of_nat (S k))) as E2.
  { unfold saxs_r_bin. apply arange_lookup. lia. }
  eexists. split.
  { rewrite lookup_zip_with, lookup_drop, !list_lookup_fmap. simpl.
    rewrite E1, E2. simpl. reflexivity. }
  rewrite Nat2Z.inj_succ, <- Z.add_1_r, Z.add_assoc, !inject_Z_plus. simpl.
  field.
Qed.

Lemma saxs_bin_centres_witness :
  (0 < px2q sample_saxs)%Q
  ∧ (0 < saxs_bins sample_saxs 0%Q None)%nat
  ∧ ∃ v, (Saxs2d_radial_average sample_saxs 0%Q None).2 !! 0%nat = Some v
         ∧ (v == (inject_Z (saxs_r_min sample_saxs 0%Q + Z.of_nat 0) + (1 # 2))
                 * px2q sample_saxs)%Q.
Proof.
  assert (0 < px2q sample_saxs)%Q as Hpx by (by vm_compute).
  split; [exact Hpx|]. split; [vm_compute; lia|].
  apply (proj2 (proj2 (saxs_bin_centres sample_saxs 0%Q None Hpx)) 0%nat).
  vm_compute. lia.
Defined.

(** ** Every pixel in one bin *)

Lemma total_app (l1 l2 : list Z) : total (l1 ++ l2) = total l1 + total l2.
Proof. unfold total. induction l1 as [|a l1 IH]; simpl; lia. Qed.

(** Counting pairs [(k, p)] bin by bin or pixel by pixel: when every
    pixel to be counted is in exactly one bin and every other in none,
    the counts of the bins add up to the number of counted pixels. *)
Lemma count_partition {A} (P : nat → A → bool) (S : A → Prop)
    `{!∀ x, Decision (S x)} (ks : list nat) (px : list A) :
  (∀ p, p ∈ px → S p → length (filter (λ k, P k p = true) ks) = 1%nat) →
  (∀ p, p ∈ px → ¬ S p → ∀ k, P k p = false) →
  total ((λ k, Z.of_nat (length (filter (λ p, P k p = true) px))) <$> ks)
  = Z.of_nat (length (filter S px)).
Proof.
  induction px as [|p px IH]; intros Hin Hout.
  - clear Hin Hout. rewrite filter_nil. unfold total.
    induction ks as [|k ks IHk]; [done|].
    rewrite fmap_cons. cbn [foldr]. rewrite IHk, filter_nil. done.
  - assert (Hsplit : ∀ l : list nat,
      total ((λ k, Z.of_nat (length (filter (λ p, P k p = true) (p :: px)))) <$> l)
      = Z.of_nat (length (filter (λ k, P k p = true) l))
        + total ((λ k, Z.of_nat (length (filter (λ p, P k p = true) px))) <$> l)).
    { induction l as [|k l IHl]; [done|].
      rewrite !fmap_cons. unfold total in *. cbn [foldr]. rewrite IHl.
      rewrite !filter_cons.
      destruct (decide (P k p = true)); simpl; lia. }
    rewrite Hsplit, IH.
    + rewrite filter_cons. destruct (decide (S p)) as [Hp | Hp].
      * rewrite (Hin p) by (done || left). simpl. lia.
      * rewrite filter_none; [simpl; lia|].
        intros k _. rewrite (Hout p) by (done || left). done.
    + intros q Hq. apply Hin. by right.
    + intros q Hq. apply Hout. by right.
Qed.

Lemma filter_seq_unique (f : nat → bool) (n k0 : nat) :
  (k0 < n)%nat → (∀ k, (k < n)%nat → f k = true ↔ k = k0) →
  length (filter (λ k, f k = true) (seq 0 n)) = 1%nat.
Proof.
  intros Hk0 Hf.
  replace n with (k0 + (1 + (n - k0 - 1)))%nat at 1 by lia.
  rewrite !seq_app, !filter_app, !length_app. simpl.
  rewrite (filter_none _ (seq 0 k0)), (filter_none _ (seq (k0 + 1) _)).
  - rewrite filter_cons, decide_True; [done|]. by apply Hf.
  - intros k [Hk1 Hk2]%elem_of_seq Hfk. apply Hf in Hfk; lia.
  - intros k [Hk1 Hk2]%elem_of_seq Hfk. apply Hf in Hfk; lia.
Qed.

Lemma ceil_sqrt_spec (n : Z) :
  0 ≤ n → 0 ≤ ceil_sqrt n ∧ n ≤ ceil_sqrt n * ceil_sqrt n ∧ (0 < n → 0 < ceil_sqrt n).
Proof.
  intros Hn. unfold ceil_sqrt.
  pose proof (Z.sqrt_spec n Hn) as Hs. pose proof (Z.sqrt_nonneg n).
  unfold Z.succ in Hs.
  case_bool_decide as Hsq; (split; [lia|]); split; lia.
Qed.

(** The bin of a pixel at squared distance [n] when the edges are
    [0, 1, ..., R] and [n <= R * R]: the integer part of its distance, and
    the last bin for a pixel on the last edge. *)
Lemma in_bin_unique (R n : Z) :
  0 < R → 0 ≤ n ≤ R * R →
  length (filter (λ k, in_bin (arange 0 (R + 1)) k (Some n) = true)
                 (histogram_bins (arange 0 (R + 1)))) = 1%nat.
Proof.
  intros HR Hn. unfold histogram_bins. rewrite arange_length.
  pose proof (Z.sqrt_spec n (proj1 Hn)) as Hs. pose proof (Z.sqrt_nonneg n) as H0.
  assert (Z.sqrt n ≤ R) as Hle.
  { rewrite <- (Z.sqrt_square R) by lia. apply Z.sqrt_le_mono. lia. }
  unfold Z.succ in Hs.
  apply (filter_seq_unique _ _
           (Z.to_nat (if bool_decide (Z.sqrt n < R) then Z.sqrt n else R - 1))).
  { case_bool_decide; lia. }
  intros k Hk. unfold in_bin.
  rewrite !arange_lookup by lia. rewrite arange_length.
  rewrite andb_true_iff, orb_true_iff, andb_true_iff, !bool_decide_eq_true.
  case_bool_decide; split; nia.
Qed.

Lemma imap_snd {A B} (g : nat → A → B) (row : list A) :
  snd <$> imap (λ x v, (g x v, v)) row = row.
Proof.
  revert g. induction row as [|v row IH]; intros g; [done|].
  rewrite imap_cons, fmap_cons. simpl. f_equal. apply (IH (λ x, g (S x))).
Qed.

Lemma join_imap_snd {A B} (F : nat → list A → list (B * A)) (a : list (list A)) :
  (∀ y row, snd <$> F y row = row) → snd <$> mjoin (imap F a) = mjoin a.
Proof.
  revert F. induction a as [|row a IH]; intros F HF; [done|].
  rewrite imap_cons. simpl. rewrite fmap_app, HF. f_equal.
  apply IH. intros y r. apply HF.
Qed.

(** The second components of [saxs_pixels] are the entries of [i]. *)
Lemma saxs_pixels_snd (s : Saxs2d) : snd <$> saxs_pixels s = mjoin (saxs_i s).
Proof.
  unfold saxs_pixels. apply join_imap_snd. intros y row.
  apply (imap_snd (λ x v, match v with
                          | Some _ => Some (dist_sq (saxs_center s).1 (saxs_center s).2 x y)
                          | None => None
                          end)).
Qed.

(** A pixel has a radius when its intensity is not NaN, and the radius is
    then the distance of a pixel of the image. *)
Lemma saxs_pixels_elem (s : Saxs2d) (p : option Z * option Q) :
  rectangular (saxs_i s) → p ∈ saxs_pixels s →
  match p.1 with
  | Some n =>
      is_Some p.2
      ∧ ∃ x y, (x < shape1 (saxs_i s))%nat ∧ (y < shape0 (saxs_i s))%nat
               ∧ n = dist_sq (saxs_center s).1 (saxs_center s).2 x y
  | None => p.2 = None
  end.
Proof.
  intros Hrect. unfold saxs_pixels. rewrite list_elem_of_join.
  intros (l & Hp & Hl).
  apply list_elem_of_lookup in Hl as [y Hl]. rewrite list_lookup_imap in Hl.
  destruct (saxs_i s !! y) as [row|] eqn:Hrow; [|done]. injection Hl as <-.
  apply list_elem_of_lookup in Hp as [x Hp]. rewrite list_lookup_imap in Hp.
  destruct (row !! x) as [v|] eqn:Hv; [|done]. injection Hp as <-.
  destruct v as [v|]; simpl; [|done].
  split; [done|]. exists x, y.
  pose proof (Forall_lookup_1 _ _ _ _ Hrect Hrow) as Hlen. simpl in Hlen.
  apply lookup_lt_Some in Hrow, Hv. unfold shape0. repeat split; (done || lia).
Qed.

Lemma filter_snd_length {A B} (P : B → Prop) `{!∀ x, Decision (P x)}
    (l : list (A * B)) :
  length (filter (λ p, P p.2) l) = length (filter P (snd <$> l)).
Proof.
  induction l as [|p l IH]; [done|].
  rewrite fmap_cons, !filter_cons.
  destruct (decide (P p.2)); simpl; by rewrite IH.
Qed.

Lemma saxs_r_max_sq_spec (s : Saxs2d) :
  0 < saxs_r_max_sq s →
  ∀ x y, (x < shape1 (saxs_i s))%nat → (y < shape0 (saxs_i s))%nat →
    dist_sq (saxs_center s).1 (saxs_center s).2 x y ≤ saxs_r_max_sq s.
Proof.
  unfold saxs_r_max_sq. intros Hpos x y Hx Hy.
  apply amax_r_mesh; (done || lia).
Qed.

(** X19: with the default range, on a rectangular image with a pixel away
    from the centre, every pixel that is not NaN is counted in exactly one
    bin, the pixels at the largest distance in the last one, and no NaN
    pixel is counted: the counts add up to the number of pixels that are
    not NaN. *)
Theorem saxs_counts_every_pixel (s : Saxs2d) :
  rectangular (saxs_i s) → (0 < px2q s)%Q → 0 < saxs_r_max_sq s →
  total (saxs_cnt s 0%Q None)
  = Z.of_nat (length (filter is_Some (mjoin (saxs_i s)))).
Proof.
  intros Hrect Hpx Hmax.
  assert (saxs_r_min s 0%Q = 0) as Hmin.
  { unfold saxs_r_min. rewrite (Qfloor_comp _ 0%Q); [done|].
    unfold Qdiv. apply Qmult_0_l. }
  destruct (ceil_sqrt_spec (saxs_r_max_sq s)) as (_ & Hsq & HR); [lia|].
  specialize (HR Hmax).
  unfold saxs_cnt, saxs_r_bin. rewrite Hmin. simpl saxs_r_max.
  rewrite <- saxs_pixels_snd, <- filter_snd_length.
  apply (count_partition
           (λ k p, in_bin (arange 0 (ceil_sqrt (saxs_r_max_sq s) + 1)) k p.1)
           (λ p, is_Some p.2)).
  - intros p Hp Hsome. apply (saxs_pixels_elem s p Hrect) in Hp.
    destruct p.1 as [n|]; [|rewrite Hp in Hsome; by destruct Hsome].
    destruct Hp as (_ & x & y & Hx & Hy & ->).
    apply in_bin_unique; [done|].
    pose proof (saxs_r_max_sq_spec s Hmax x y Hx Hy).
    pose proof (dist_sq_nonneg (saxs_center s).1 (saxs_center s).2 x y). lia.
  - intros p Hp Hnone k. apply (saxs_pixels_elem s p Hrect) in Hp.
    destruct p.1 as [n|]; [by destruct Hp | done].
Qed.

Lemma saxs_counts_every_pixel_witness :
  total (saxs_cnt (MkSaxs2d [[Some 1%Q; None; Some 3%Q]; [None; Some 2%Q; None];
                             [Some 1%Q; None; Some 3%Q]] 1%Q (1, 1)) 0%Q None)
  = 5.
Proof.
  rewrite saxs_counts_every_pixel; [reflexivity | | reflexivity | reflexivity].
  unfold rectangular. simpl. by forall_entries.
Defined.

(** * The rows of the table *)

Lemma apply_flip_shape (f : string) (img : array2 Z) :
  rectangular img → shape (apply_flip f img) = shape img.
Proof.
  intros Himg. unfold apply_flip.
  destruct (contains_char "v" f), (contains_char "h" f); try done.
  - by rewrite fliplr_shape, flipud_shape.
  - by apply flipud_shape.
  - apply fliplr_shape.
Qed.

(** The radii and the number of means that the kernel returns depend on
    the shape of the frame and on the centre only. *)
Lemma radial_average_profile (img : array2 Z) (hw : nat * nat) (cx cy threshold : Z) :
  shape img = hw →
  (_radial_average img cx cy threshold).1
  = bin_centers (min_r hw.2 hw.1 cx cy) (profile_length hw (cx, cy))
  ∧ length (_radial_average img cx cy threshold).2 = profile_length hw (cx, cy).
Proof.
  intros <-. unfold profile_length. simpl.
  split; [apply radial_average_radii|].
  destruct (accumulate_length img cx cy threshold) as [L1 L2].
  rewrite radial_average_means, length_zip_with. lia.
Qed.

Lemma average_frame_profile (kw : kwargs) (m : option (array2 Z))
    (img : array2 Z) (hw : nat * nat) :
  rectangular img → shape img = hw → (∀ a, m = Some a → shape a = hw) →
  (average_frame kw m img).1
  = bin_centers (min_r hw.2 hw.1 (center kw).1 (center kw).2)
                (profile_length hw (center kw))
  ∧ length (average_frame kw m img).2 = profile_length hw (center kw).
Proof.
  intros Himg Hshape Hm. unfold average_frame.
  pose proof (apply_flip_shape (flip kw) img Himg) as Hflip.
  rewrite Hshape in Hflip.
  replace (center kw) with ((center kw).1, (center kw).2) at 3 5
    by (by destruct (center kw)).
  destruct m as [a|].
  - unfold _mask_and_average. apply radial_average_profile.
    rewrite mul2_shape; [done|]. rewrite Hflip. by apply Hm.
  - by apply radial_average_profile.
Qed.

Lemma mask_used_shape (kw : kwargs) (fs : gmap string file) (hw : nat * nat)
    (m : option (array2 Z)) :
  mask_used kw fs hw m → ∀ a, m = Some a → shape a = hw.
Proof.
  unfold mask_used. intros Hm a ->.
  case_bool_decide; [destruct Hm as [[= ->] ?]; done|].
  case_bool_decide; [done|].
  destruct Hm as (b & _ & [= ->] & ?). done.
Qed.

Section rows.

Variable r2q : list Q → float64 → float64 → float64 → list float64.
Variable DETECTER_PX_SIZES : gmap string float64.

(** X20: in the table of a run that returns, every intensity column has
    the number of bins that the shape of the frames and the centre fix,
    whatever the flips and the mask; unless the calibration is the
    geometric one, whose first column comes from [r2q], the first column
    has this length too, so that all columns have the same number of rows,
    as [np.hstack] wants them. *)
Theorem table_rows_agree (src : source) (kw : kwargs) (w w' : world) (d : string) :
  series_integrate r2q DETECTER_PX_SIZES src kw w = (Returns d, w') →
  decodes_arrays (files w) →
  ∃ fl hw header columns params,
    (resolve_source src (dst kw) w).1 = Returns (fl, d)
    ∧ Forall (frame_matches (files w) hw) fl
    ∧ files w' = <[paramfile_of d := JsonFile params]>
                   (<[d := TableFile header columns]> (files w))
    ∧ (∀ k col, columns !! S k = Some col →
         length col = profile_length hw (center kw))
    ∧ (calibration_of kw ≠ "geometry" →
       Forall (λ col, length col = profile_length hw (center kw)) columns).
Proof.
  intros (st & w1 & out & w2 & Hsetup & Hloop & -> & ->)%series_integrate_Returns
         Hrect.
  pose proof (keeps_files_series_setup DETECTER_PX_SIZES src kw w) as H1.
  rewrite Hsetup in H1. simpl in H1.
  destruct (series_setup_Returns DETECTER_PX_SIZES src kw w w1 st Hsetup)
    as (Hsrc & Hne & _ & _ & Hcal & _ & Hmask).
  apply resolve_mask_Returns in Hmask. rewrite H1 in Hmask.
  pose proof (mask_used_shape _ _ _ _ Hmask) as Hm.
  rewrite resolve_calibration_run in Hcal. injection Hcal as Hcal _.
  pose proof (keeps_files_integrate_frames kw (s_shape st) (s_mask st)
                (s_files st) ([], [], ["q[nm^-1]"]) w1) as H2.
  rewrite Hloop in H2. simpl in H2.
  pose proof (integrate_frames_columns _ _ _ _ _ _ _ _ Hloop) as (cols & Hout & Hcols).
  apply integrate_frames_Returns in Hloop as (Hall & _ & _ & _ & Hlast).
  simpl in Hout. rewrite H1 in Hcols, Hall, Hlast.
  assert (Hlens : Forall (λ col, length col = profile_length (s_shape st) (center kw))
                         out.1.2).
  { rewrite Hout. apply Forall_lookup. intros k col Hcol.
    destruct (Forall2_lookup_r _ _ _ _ _ Hcols Hcol)
      as (f & _ & img & Hread & Hshape & ->).
    by apply average_frame_profile; [apply (Hrect f) | |]. }
  exists (s_files st), (s_shape st), (table_headers st out.2),
         (q_column r2q kw st out.1.1 :: out.1.2), (series_params kw st).
  split; [by rewrite Hsrc|]. split; [done|]. split.
  { unfold final_world. rewrite files_with_bar. simpl. by rewrite H2, H1. }
  split.
  { intros k col Hcol. simpl in Hcol.
    by apply (Forall_lookup_1 _ _ _ _ Hlens Hcol). }
  intros Hmode. apply List.Forall_cons; [|done].
  destruct (last (s_files st)) as [f|] eqn:Hf; [|by apply last_None in Hf].
  destruct Hlast as (img & Hread & Hshape & ->).
  destruct (average_frame_profile kw (s_mask st) img (s_shape st)
              (Hrect f img Hread) Hshape Hm) as [-> _].
  unfold q_column. rewrite <- Hcal.
  case_bool_decide; [done|].
  case_bool_decide; by rewrite length_fmap, bin_centers_length.
Qed.

End rows.

Lemma sample_world_decodes : decodes_arrays (files sample_world).
Proof.
  intros p a Hread. unfold imread in Hread.
  destruct (files sample_world !! p) as [f|] eqn:Hp; [|done].
  unfold sample_world in Hp. simpl in Hp.
  repeat (apply lookup_insert_Some in Hp as [[<- <-] | [_ Hp]];
          [try done; injection Hread as <-;
           unfold rectangular, sample_frame; simpl; by forall_entries |]).
  by rewrite lookup_empty in Hp.
Qed.

Lemma table_rows_agree_witness :
  ∃ w' header columns,
    series_integrate sample_r2q sample_px_sizes (SrcPath "run")
      sample_kwargs sample_world = (Returns "run.csv", w')
    ∧ files w' !! "run.csv" = Some (TableFile header columns)
    ∧ Forall (λ col, length col = profile_length (5%nat, 5%nat) (2, 2)) columns.
Proof.
  destruct (series_integrate sample_r2q sample_px_sizes (SrcPath "run")
              sample_kwargs sample_world) as [o w'] eqn:Hrun.
  assert (o = Returns "run.csv") as ->
    by (by vm_compute in Hrun; injection Hrun as <- _).
  pose proof sample_world_decodes as Hrect.
  destruct (table_rows_agree _ _ _ _ _ _ _ Hrun Hrect)
    as (fl & hw & header & columns & params & Hsrc & Hall & Hfiles & _ & Hcols).
  injection Hsrc as <-.
  apply Forall_cons in Hall as [(img & Hread & <-) _].
  injection Hread as <-.
  exists w', header, columns. split; [done|]. split.
  - rewrite Hfiles. by rewrite lookup_insert_ne, lookup_insert_eq.
  - apply Hcols. by vm_compute.
Defined.

(** * The mask of a run *)

Lemma ones_rectangular (h w : nat) : rectangular (ones h w).
Proof.
  unfold rectangular, ones. destruct h as [|h]; [apply List.Forall_nil|].
  simpl. apply List.Forall_cons; [done|]. by apply Forall_replicate.
Qed.

Lemma at2_ones (h w y x : nat) : (y < h)%nat → (x < w)%nat → at2 (ones h w) y x = 1.
Proof.
  intros Hy Hx. unfold at2, ones.
  rewrite (lookup_replicate_2 _ _ _ Hy). simpl.
  by rewrite (lookup_replicate_2 _ _ _ Hx).
Qed.

(** Multiplying by an all-valid mask of the frame's shape changes nothing. *)
Lemma mul2_ones (img : array2 Z) (h w : nat) :
  rectangular img → shape (ones h w) = shape img → mul2 img (ones h w) = img.
Proof.
  intros Himg Hshape.
  pose proof (ones_rectangular h w) as Hones.
  apply array2_eq; [done | by apply zip2_rectangular | by apply mul2_shape|].
  intros y x Hy Hx. rewrite at2_mul2 by done.
  rewrite at2_ones; [lia | |].
  - injection Hshape as H0 _. unfold shape0, ones in *.
    rewrite length_replicate in H0. lia.
  - injection Hshape as H0 H1. unfold ones in H0, H1.
    destruct h as [|h].
    + unfold shape0 in *. simpl in H0. lia.
    + change (shape1 (replicate (S h) (replicate w 1)))
        with (length (replicate w 1)) in H1.
      rewrite length_replicate in H1. lia.
Qed.

Lemma apply_flip_rectangular (f : string) (img : array2 Z) :
  rectangular img → rectangular (apply_flip f img).
Proof.
  intros Himg. unfold apply_flip.
  destruct (contains_char "v" f), (contains_char "h" f); try done.
  - by apply fliplr_rectangular, flipud_rectangular.
  - by apply flipud_rectangular.
  - by apply fliplr_rectangular.
Qed.

(** A frame averaged with an all-valid mask of its shape is the frame
    averaged without mask. *)
Lemma integrate_frame_ones (kw : kwargs) (m1 m2 : array2 Z) (s1 s2 : string)
    (h wd : nat) (hw : nat * nat) (f : string) (w : world) :
  decodes_arrays (files w) → shape (ones h wd) = hw →
  integrate_frame (set_masks m1 s1 kw) hw (Some (ones h wd)) f w
  = integrate_frame (set_masks m2 s2 kw) hw None f w.
Proof.
  intros Hdec Hshape. unfold integrate_frame, bind, get_files.
  destruct (imread (files w) f) as [[img|img]|] eqn:Hread; try done.
  case_bool_decide as Himg; [|done]. unfold ret.
  apply (f_equal (λ x, (Returns x, w))).
  unfold average_frame, _mask_and_average.
  change (flip (set_masks m1 s1 kw)) with (flip kw).
  change (flip (set_masks m2 s2 kw)) with (flip kw).
  change (center (set_masks m1 s1 kw)) with (center kw).
  change (center (set_masks m2 s2 kw)) with (center kw).
  rewrite mul2_ones; [done | by apply apply_flip_rectangular, (Hdec f) |].
  rewrite apply_flip_shape by (by apply (Hdec f)). congruence.
Qed.

Lemma integrate_frames_ones (kw : kwargs) (m1 m2 : array2 Z) (s1 s2 : string)
    (h wd : nat) (hw : nat * nat) (fl : list string)
    (acc : list Q * list (list float64) * list string) (w : world) :
  decodes_arrays (files w) → shape (ones h wd) = hw →
  integrate_frames (set_masks m1 s1 kw) hw (Some (ones h wd)) fl acc w
  = integrate_frames (set_masks m2 s2 kw) hw None fl acc w.
Proof.
  intros Hdec Hshape. revert acc w Hdec.
  induction fl as [|f fl IH]; intros acc w Hdec; [done|].
  cbn [integrate_frames]. unfold bind at 1 3.
  rewrite (integrate_frame_ones kw m1 m2 s1 s2 h wd hw f w Hdec Hshape).
  destruct (integrate_frame (set_masks m2 s2 kw) hw None f w) as [[ri|e] w1] eqn:Hf;
    [|done].
  apply reads_only_world in Hf as ->; [|apply reads_only_integrate_frame].
  unfold bind. rewrite !when_bar_emit.
  change (verbose (set_masks m1 s1 kw)) with (verbose kw).
  change (verbose (set_masks m2 s2 kw)) with (verbose kw).
  apply IH. by rewrite files_with_bar.
Qed.

Section masks.

Variable r2q : list Q → float64 → float64 → float64 → list float64.
Variable DETECTER_PX_SIZES : gmap string float64.

(** The mask is the last thing that the set-up resolves: with other mask
    arguments the set-up is the same up to there. *)
Lemma series_setup_masks (src : source) (kw : kwargs) (m : array2 Z) (ms : string)
    (w w1 : world) (st : setup) :
  series_setup DETECTER_PX_SIZES src kw w = (Returns st, w1) →
  series_setup DETECTER_PX_SIZES src (set_masks m ms kw) w
  = bind (resolve_mask m ms (s_shape st)) (λ m', ret (with_mask st m')) w1.
Proof.
  unfold series_setup.
  change (dst (set_masks m ms kw)) with (dst kw).
  change (verbose (set_masks m ms kw)) with (verbose kw).
  change (overwrite (set_masks m ms kw)) with (overwrite kw).
  change (detecter (set_masks m ms kw)) with (detecter kw).
  change (px_size (set_masks m ms kw)) with (px_size kw).
  change (camera_length (set_masks m ms kw)) with (camera_length kw).
  change (wave_length (set_masks m ms kw)) with (wave_length kw).
  change (slope (set_masks m ms kw)) with (slope kw).
  change (intercept (set_masks m ms kw)) with (intercept kw).
  change (mask (set_masks m ms kw)) with m.
  change (mask_src (set_masks m ms kw)) with ms.
  unfold bind at 1 8.
  destruct (resolve_source src (dst kw) w) as [[[fl d]|e] w0]; [|done].
  cbn [fst snd]. case_bool_decide; [done|].
  unfold bind at 1 7. rewrite when_bar_emit.
  unfold bind at 1 6. cbn [get_files].
  destruct (negb (overwrite kw) && path_exists _ d); [done|].
  unfold bind at 1 5.
  destruct (resolve_px_size _ _ _ _) as [[px|e] w2]; [|done].
  unfold bind at 1 4.
  destruct (resolve_calibration _ _ _ _ w2) as [[cal|e] w3]; [|done].
  unfold bind at 1 3.
  destruct (first_shape fl w3) as [[hw|e] w4]; [|done].
  unfold bind at 1.
  destruct (resolve_mask (mask kw) (mask_src kw) hw w4) as [[m0|e] w5] eqn:Hm;
    [|done].
  apply reads_only_world in Hm as ->; [|apply reads_only_resolve_mask].
  by intros [= <- <-].
Qed.

(** X21: a run with an all-valid mask in memory that returns has written
    what the run without any mask writes, and returns the same path: the
    masked average with a mask of ones is the plain average. *)
Theorem all_valid_mask (src : source) (kw : kwargs) (w w' : world) (d : string)
    (h wd : nat) :
  decodes_arrays (files w) → (0 < h)%nat → (0 < wd)%nat →
  series_integrate r2q DETECTER_PX_SIZES src (set_masks (ones h wd) "" kw) w
  = (Returns d, w') →
  series_integrate r2q DETECTER_PX_SIZES src (set_masks [] "" kw) w
  = (Returns d, w').
Proof.
  intros Hdec Hh Hwd
    (st & w1 & out & w2 & Hsetup & Hloop & -> & ->)%series_integrate_Returns.
  pose proof (keeps_files_series_setup DETECTER_PX_SIZES src
                (set_masks (ones h wd) "" kw) w) as H1.
  rewrite Hsetup in H1. simpl in H1.
  destruct (series_setup_Returns DETECTER_PX_SIZES src _ w w1 st Hsetup)
    as (_ & _ & _ & _ & _ & _ & Hmask).
  change (mask (set_masks (ones h wd) "" kw)) with (ones h wd) in Hmask.
  change (mask_src (set_masks (ones h wd) "" kw)) with "" in Hmask.
  unfold resolve_mask in Hmask.
  rewrite bool_decide_eq_true_2 in Hmask
    by (unfold size2, shape0, shape1, ones; destruct h; simpl;
        rewrite ?length_replicate; lia).
  case_bool_decide as Hshape; [|done]. injection Hmask as Hmask.
  apply series_integrate_Returns.
  exists (with_mask st None), w1, out, w2.
  split.
  { change (set_masks [] "" kw)
      with (set_masks [] "" (set_masks (ones h wd) "" kw)).
    by rewrite (series_setup_masks src _ [] "" w w1 st Hsetup). }
  split.
  { rewrite <- Hloop, <- Hmask. simpl. symmetry.
    apply integrate_frames_ones; [by rewrite H1 | done]. }
  done.
Qed.

(** X22: the errors of the mask of a run.  When the run without any mask
    returns, the frames have one shape.  With a non-empty mask in memory
    of another shape the run raises "mask size not match."; with no mask
    in memory and a mask file that does not exist it raises
    [FileNotFoundError] naming the file; with a multi-channel mask file
    the [ValueError] of [_readmask]; with a single-channel mask file of
    another shape "mask size not match." followed by its name.  None of
    these runs writes anything. *)
Theorem mask_errors (src : source) (kw : kwargs) (w w0 : world) (d : string) :
  series_integrate r2q DETECTER_PX_SIZES src (set_masks [] "" kw) w
  = (Returns d, w0) →
  ∃ fl hw,
    (resolve_source src (dst kw) w).1 = Returns (fl, d)
    ∧ Forall (frame_matches (files w) hw) fl
    ∧ ∀ m ms,
        let raises := raises_clean
          (series_integrate r2q DETECTER_PX_SIZES src (set_masks m ms kw)) w in
        ((0 < size2 m)%nat → shape m ≠ hw →
         raises (ValueError "mask size not match."))
        ∧ (size2 m = 0%nat → ms ≠ "" → files w !! ms = None →
           raises (FileNotFoundError (ms +:+ " is not found.")))
        ∧ (size2 m = 0%nat → ms ≠ "" →
           ∀ a, imread (files w) ms = Some (Color a) →
                raises (ValueError "mask file must be 2D single-channel image"))
        ∧ (size2 m = 0%nat → ms ≠ "" →
           ∀ a, imread (files w) ms = Some (Gray a) → shape a ≠ hw →
                raises (ValueError ("mask size not match. " +:+ ms))).
Proof.
  intros (st & w1 & out & w2 & Hsetup & Hloop & -> & ->)%series_integrate_Returns.
  pose proof (keeps_files_series_setup DETECTER_PX_SIZES src
                (set_masks [] "" kw) w) as H1.
  rewrite Hsetup in H1. simpl in H1.
  destruct (series_setup_Returns DETECTER_PX_SIZES src _ w w1 st Hsetup)
    as (Hsrc & _).
  change (dst (set_masks [] "" kw)) with (dst kw) in Hsrc.
  apply integrate_frames_Returns in Hloop as (Hall & _).
  rewrite H1 in Hall.
  exists (s_files st), (s_shape st).
  split; [by rewrite Hsrc|]. split; [done|].
  intros m ms raises.
  assert (Hraise : ∀ e,
    resolve_mask m ms (s_shape st) w1 = (Raises e, w1) → raises e).
  { intros e He. unfold raises, raises_clean.
    assert (series_integrate r2q DETECTER_PX_SIZES src (set_masks m ms kw) w
            = (Raises e, w1)) as Hrun.
    { apply series_integrate_Raises. left.
      change (set_masks m ms kw) with (set_masks m ms (set_masks [] "" kw)).
      rewrite (series_setup_masks src _ m ms w w1 st Hsetup).
      unfold bind. by rewrite He. }
    exists w1. split; [done|].
    by apply (series_integrate_Raises_files _ _ _ _ _ _ _ Hrun). }
  split; [|split; [|split]].
  - intros Hsize Hshape. apply Hraise. unfold resolve_mask.
    rewrite bool_decide_eq_true_2 by done.
    by rewrite bool_decide_eq_false_2.
  - intros Hsize Hms Hnone. apply Hraise. unfold resolve_mask.
    rewrite bool_decide_eq_false_2 by lia.
    rewrite bool_decide_eq_false_2 by done.
    unfold _readmask, get_files, path_exists, bind. cbv beta iota. rewrite H1, Hnone.
    rewrite bool_decide_eq_false_2; [done|]. by intros [? ?].
  - intros Hsize Hms a Hread. apply Hraise. unfold resolve_mask.
    rewrite bool_decide_eq_false_2 by lia.
    rewrite bool_decide_eq_false_2 by done.
    unfold _readmask, get_files, path_exists, bind. cbv beta iota. rewrite H1, Hread.
    rewrite bool_decide_eq_true_2; [done|].
    unfold imread in Hread. destruct (files w !! ms); [by eexists | done].
  - intros Hsize Hms a Hread Hshape. apply Hraise. unfold resolve_mask.
    rewrite bool_decide_eq_false_2 by lia.
    rewrite bool_decide_eq_false_2 by done.
    unfold _readmask, get_files, path_exists, bind. cbv beta iota. rewrite H1, Hread.
    rewrite bool_decide_eq_true_2.
    + simpl. rewrite bool_decide_eq_false_2; [done|].
      unfold astype_uint8, clip_positive. by rewrite !amap_shape.
    + unfold imread in Hread. destruct (files w !! ms); [by eexists | done].
Qed.

End masks.

Lemma all_valid_mask_witness :
  ∃ w',
    series_integrate sample_r2q sample_px_sizes (SrcPath "run")
      (set_masks (ones 5 5) "" sample_kwargs) sample_world
    = (Returns "run.csv", w')
    ∧ series_integrate sample_r2q sample_px_sizes (SrcPath "run")
        (set_masks [] "" sample_kwargs) sample_world
      = (Returns "run.csv", w').
Proof.
  eexists. split; [vm_compute; reflexivity|].
  apply (all_valid_mask sample_r2q sample_px_sizes (SrcPath "run") sample_kwargs
           sample_world _ "run.csv" 5 5 sample_world_decodes);
    [lia | lia | vm_compute; reflexivity].
Defined.

Lemma mask_errors_witness :
  raises_clean
    (series_integrate sample_r2q sample_px_sizes (SrcPath "run")
       (set_masks (ones 4 5) "" sample_kwargs))
    sample_world (ValueError "mask size not match.")
  ∧ raises_clean
      (series_integrate sample_r2q sample_px_sizes (SrcPath "run")
         (set_masks [] "mask.pbm" sample_kwargs))
      sample_world (FileNotFoundError "mask.pbm is not found.").
Proof.
  destruct (series_integrate sample_r2q sample_px_sizes (SrcPath "run")
              (set_masks [] "" sample_kwargs) sample_world) as [o w0] eqn:Hrun.
  assert (o = Returns "run.csv") as ->
    by (by vm_compute in Hrun; injection Hrun as <- _).
  destruct (mask_errors _ _ _ _ _ _ _ Hrun) as (fl & hw & Hsrc & Hall & Herr).
  injection Hsrc as <-.
  apply Forall_cons in Hall as [(img & Hread & <-) _].
  injection Hread as <-.
  split.
  - apply (proj1 (Herr (ones 4 5) "")); [vm_compute; lia | by vm_compute].
  - apply (proj1 (proj2 (Herr [] "mask.pbm"))); [done | done | by vm_compute].
Defined.
